(** * Fortify credential vault: the session engine of [CredentialVault.tsx]

    A shallow embedding of the React component
    [frontend/src/pages/CredentialVault.tsx]: its component state, the
    handlers [lockVault], [resetAutoLockTimer], [handleUnlock],
    [handleAddEntry], [handleDelete], the submit handler of the edit form
    and the [useEffect] that arms the inactivity timer.

    The modules the component imports ([cryptoUtils], [deriveKey],
    [dashServices], [vaultservices]) are collaborators: they are taken as a
    record of operations, so every theorem holds for every implementation of
    them.  Promises that reject and exceptions that are thrown are both the
    [Throw] case of [res].

    A handler is first a function from the component state and the world
    outside to the state after, the world after and the list of calls it
    made: the handler run from its first line to its last, every call it
    awaits settling at once.  It is then taken apart at its [await]s
    ([Task]), and [istep] lets timers run, inputs arrive and other handlers
    start or go on while it is suspended; run with nothing in between, the
    parts do what the function does.  Time is a clock in milliseconds that
    the timers of the browser are due against. *)

From Stdlib Require Import String List ZArith Bool Lia DecimalString.
Import ListNotations.

Open Scope string_scope.
Open Scope list_scope.
Open Scope Z_scope.

(** ** Exceptions and results *)

(** A JavaScript exception value: [new Error(msg)], or the [TypeError] raised
    by reading a property of [undefined]. *)
Inductive exn : Type :=
| Error (message : string)
| TypeError (message : string).

(** The outcome of an awaited call. *)
Inductive res (A : Type) : Type :=
| Ok (a : A)
| Throw (e : exn).
Arguments Ok {A} a.
Arguments Throw {A} e.

(** ** Data on the wire *)

(** [{ cipherText, iv }]: one encrypted field, both parts base64 text. *)
Record Envelope : Type := mkEnvelope {
  cipherText : string;
  iv : string
}.

(** One stored record as [getEncryptedVault] returns it.  The component types
    it as [any]; a field that is [undefined] or [null] is [None]. *)
Record VaultEntry : Type := mkVaultEntry {
  _id : string;
  website : option Envelope;
  username : option Envelope;
  password : option Envelope;
  notes : option Envelope
}.

(** [{ ...entry, decryptedWebsite, decryptedUsername, decryptedPassword,
    decryptedNotes }]: the spread keeps the stored record. *)
Record DecryptedEntry : Type := mkDecryptedEntry {
  entry : VaultEntry;
  decryptedWebsite : string;
  decryptedUsername : string;
  decryptedPassword : string;
  decryptedNotes : string
}.

(** [verification] of the salt response: [{ secret, hmac }]. *)
Record Verification : Type := mkVerification {
  secret : string;
  hmac : string
}.

(** The response of [getEncryptionSalt]; each part may be missing. *)
Record SaltResponse : Type := mkSaltResponse {
  encryptionSalt : option string;
  keyDerivationMethod : option string;
  verification : option Verification
}.

(** The response of [getEncryptedVault]: [encrypted.data]. *)
Record VaultResponse : Type := mkVaultResponse {
  data : list VaultEntry
}.

(** The object passed to [addEntry] and [updateEntry]:
    [{ website, username, password, notes }] with [notes] possibly [null]. *)
Record EntryPayload : Type := mkEntryPayload {
  p_website : Envelope;
  p_username : Envelope;
  p_password : Envelope;
  p_notes : option Envelope
}.

(** The [newEntry] form state. *)
Record NewEntry : Type := mkNewEntry {
  ne_website : string;
  ne_username : string;
  ne_password : string;
  ne_notes : string
}.

(** ** Observable calls *)

(** What a handler does to the outside, in order: calls of collaborators
    (with the result where a claim needs it), console output, timers and
    listeners. *)
Inductive Event : Type :=
| EvGetEncryptionSalt (r : res SaltResponse)
| EvDeriveKey (masterPassword : string) (method : string)
| EvCreateHMAC (secret : string) (r : res string)
| EvGetEncryptedVault (r : res VaultResponse)
| EvDecryptData (cipherText iv : string) (r : res string)
| EvEncryptData (plaintext : string)
| EvAddEntry (p : EntryPayload) (r : res unit)
| EvUpdateEntry (id : string) (p : EntryPayload) (r : res unit)
| EvDeleteEntry (id : string) (r : res unit)
| EvConfirm (answer : bool)
| EvConsoleError (e : exn)
| EvConsoleLog (message : string)
| EvSetTimeout (handle delay : Z)
| EvClearTimeout (handle : Z)
| EvAddListeners
| EvRemoveListeners
| EvPreventDefault.

Definition is_decrypt (ev : Event) : bool :=
  match ev with EvDecryptData _ _ _ => true | _ => false end.

Definition is_encrypt (ev : Event) : bool :=
  match ev with EvEncryptData _ => true | _ => false end.

(** Calls that reach the storage backend. *)
Definition is_storage (ev : Event) : bool :=
  match ev with
  | EvGetEncryptionSalt _ | EvGetEncryptedVault _
  | EvAddEntry _ _ | EvUpdateEntry _ _ _ | EvDeleteEntry _ _ => true
  | _ => false
  end.

Definition count_events (f : Event -> bool) (tr : list Event) : nat :=
  length (filter f tr).

(** ** The world outside the component *)

(** [B] is the state of everything behind the collaborators (the stored
    records, the network, the random source of [encryptData]).  Timers are
    the browser's: a pending timer is its handle and the time it is due; the
    only callback ever scheduled is the auto-lock one.  [listening] says
    whether the [mousemove]/[keydown] listeners are registered. *)
Record World (B : Type) : Type := mkWorld {
  backend : B;
  now : Z;
  timers : list (Z * Z);
  nextHandle : Z;
  listening : bool
}.
Arguments mkWorld {B}.
Arguments backend {B}.
Arguments now {B}.
Arguments timers {B}.
Arguments nextHandle {B}.
Arguments listening {B}.

(** The imported functions.  [K] is [CryptoKey].  Deterministic
    cryptography is a function of its arguments; calls that go to the server
    or draw randomness thread the backend state. *)
Record Collab (B K : Type) : Type := mkCollab {
  getEncryptionSalt : B -> res SaltResponse * B;
  base64ToBuffer : string -> res (list Byte.byte);
  deriveKey : string -> list Byte.byte -> string -> res (K * K);
  createHMAC : K -> string -> res string;
  getEncryptedVault : B -> res VaultResponse * B;
  decryptData : string -> string -> K -> res string;
  encryptData : string -> K -> B -> res Envelope * B;
  addEntry : EntryPayload -> B -> res unit * B;
  updateEntry : string -> EntryPayload -> B -> res unit * B;
  deleteEntry : string -> B -> res unit * B
}.
Arguments getEncryptionSalt {B K}.
Arguments base64ToBuffer {B K}.
Arguments deriveKey {B K}.
Arguments createHMAC {B K}.
Arguments getEncryptedVault {B K}.
Arguments decryptData {B K}.
Arguments encryptData {B K}.
Arguments addEntry {B K}.
Arguments updateEntry {B K}.
Arguments deleteEntry {B K}.

(** ** Component state *)

(** The [useState] cells of the component and the [timeoutRef] ref. *)
Record State (K : Type) : Type := mkState {
  masterPassword : string;
  vaultUnlocked : bool;
  credentials : list DecryptedEntry;
  editingEntry : option DecryptedEntry;
  error : string;
  isUnlocking : bool;
  isAdding : bool;
  isUpdating : bool;
  showAddForm : bool;
  newEntry : NewEntry;
  aesKey : option K;
  timeoutRef : option Z
}.
Arguments mkState {K}.
Arguments masterPassword {K}.
Arguments vaultUnlocked {K}.
Arguments credentials {K}.
Arguments editingEntry {K}.
Arguments error {K}.
Arguments isUnlocking {K}.
Arguments isAdding {K}.
Arguments isUpdating {K}.
Arguments showAddForm {K}.
Arguments newEntry {K}.
Arguments aesKey {K}.
Arguments timeoutRef {K}.

(** The state of the first render. *)
Definition initialState {K : Type} : State K :=
  mkState "" false [] None "" false false false false
          (mkNewEntry "" "" "" "") None None.

Section Setters.
Context {K : Type}.

Definition setMasterPassword (v : string) (s : State K) : State K :=
  mkState v (vaultUnlocked s) (credentials s) (editingEntry s) (error s)
          (isUnlocking s) (isAdding s) (isUpdating s) (showAddForm s)
          (newEntry s) (aesKey s) (timeoutRef s).

Definition setVaultUnlocked (v : bool) (s : State K) : State K :=
  mkState (masterPassword s) v (credentials s) (editingEntry s) (error s)
          (isUnlocking s) (isAdding s) (isUpdating s) (showAddForm s)
          (newEntry s) (aesKey s) (timeoutRef s).

Definition setCredentials (v : list DecryptedEntry) (s : State K) : State K :=
  mkState (masterPassword s) (vaultUnlocked s) v (editingEntry s) (error s)
          (isUnlocking s) (isAdding s) (isUpdating s) (showAddForm s)
          (newEntry s) (aesKey s) (timeoutRef s).

Definition setEditingEntry (v : option DecryptedEntry) (s : State K) : State K :=
  mkState (masterPassword s) (vaultUnlocked s) (credentials s) v (error s)
          (isUnlocking s) (isAdding s) (isUpdating s) (showAddForm s)
          (newEntry s) (aesKey s) (timeoutRef s).

Definition setError (v : string) (s : State K) : State K :=
  mkState (masterPassword s) (vaultUnlocked s) (credentials s)
          (editingEntry s) v
          (isUnlocking s) (isAdding s) (isUpdating s) (showAddForm s)
          (newEntry s) (aesKey s) (timeoutRef s).

Definition setIsUnlocking (v : bool) (s : State K) : State K :=
  mkState (masterPassword s) (vaultUnlocked s) (credentials s)
          (editingEntry s) (error s)
          v (isAdding s) (isUpdating s) (showAddForm s)
          (newEntry s) (aesKey s) (timeoutRef s).

Definition setIsAdding (v : bool) (s : State K) : State K :=
  mkState (masterPassword s) (vaultUnlocked s) (credentials s)
          (editingEntry s) (error s)
          (isUnlocking s) v (isUpdating s) (showAddForm s)
          (newEntry s) (aesKey s) (timeoutRef s).

Definition setIsUpdating (v : bool) (s : State K) : State K :=
  mkState (masterPassword s) (vaultUnlocked s) (credentials s)
          (editingEntry s) (error s)
          (isUnlocking s) (isAdding s) v (showAddForm s)
          (newEntry s) (aesKey s) (timeoutRef s).

Definition setShowAddForm (v : bool) (s : State K) : State K :=
  mkState (masterPassword s) (vaultUnlocked s) (credentials s)
          (editingEntry s) (error s)
          (isUnlocking s) (isAdding s) (isUpdating s) v
          (newEntry s) (aesKey s) (timeoutRef s).

Definition setNewEntry (v : NewEntry) (s : State K) : State K :=
  mkState (masterPassword s) (vaultUnlocked s) (credentials s)
          (editingEntry s) (error s)
          (isUnlocking s) (isAdding s) (isUpdating s) (showAddForm s)
          v (aesKey s) (timeoutRef s).

Definition setAesKey (v : option K) (s : State K) : State K :=
  mkState (masterPassword s) (vaultUnlocked s) (credentials s)
          (editingEntry s) (error s)
          (isUnlocking s) (isAdding s) (isUpdating s) (showAddForm s)
          (newEntry s) v (timeoutRef s).

(** [timeoutRef.current = v]. *)
Definition setTimeoutRef (v : option Z) (s : State K) : State K :=
  mkState (masterPassword s) (vaultUnlocked s) (credentials s)
          (editingEntry s) (error s)
          (isUnlocking s) (isAdding s) (isUpdating s) (showAddForm s)
          (newEntry s) (aesKey s) v.
End Setters.

(** ** Handlers as state-passing programs *)

(** A step of an [async] function: it reads and changes the world, emits the
    calls it makes, and either yields a value or throws. *)
Definition M (B A : Type) : Type := World B -> res A * World B * list Event.

(** An event handler of the component: it never throws (each one catches),
    and returns the component state after the [set...] calls it made. *)
Definition Handler (B K : Type) : Type :=
  World B -> State K * World B * list Event.

Section Monad.
Context {B : Type}.

Definition ret {A : Type} (a : A) : M B A := fun w => (Ok a, w, []).

Definition throw {A : Type} (e : exn) : M B A := fun w => (Throw e, w, []).

Definition bind {A C : Type} (m : M B A) (f : A -> M B C) : M B C :=
  fun w =>
    match m w with
    | (Ok a, w1, t1) =>
        match f a w1 with
        | (r, w2, t2) => (r, w2, t1 ++ t2)
        end
    | (Throw e, w1, t1) => (Throw e, w1, t1)
    end.

(** A value or exception computed without touching the world. *)
Definition liftRes {A : Type} (r : res A) : M B A := fun w => (r, w, []).

Definition emit (ev : Event) : M B unit := fun w => (Ok tt, w, [ev]).

Definition withBackend (b : B) (w : World B) : World B :=
  mkWorld b (now w) (timers w) (nextHandle w) (listening w).

Definition withTimers (l : list (Z * Z)) (w : World B) : World B :=
  mkWorld (backend w) (now w) l (nextHandle w) (listening w).

Definition withListening (v : bool) (w : World B) : World B :=
  mkWorld (backend w) (now w) (timers w) (nextHandle w) v.

Definition withNow (t : Z) (w : World B) : World B :=
  mkWorld (backend w) t (timers w) (nextHandle w) (listening w).

(** An awaited call of a collaborator that goes through the backend. *)
Definition callB {A : Type} (ev : res A -> Event) (f : B -> res A * B)
  : M B A :=
  fun w =>
    match f (backend w) with
    | (r, b') => (r, withBackend b' w, [ev r])
    end.

(** [Promise.all(l.map(async x => f x))]: every callback is started and
    runs on whatever happens to its siblings; the result is the list of
    values when all fulfil and a rejection otherwise.  Callbacks run here
    one after the other in list order, and of several rejections the
    first in list order is reported; the browser interleaves them, which
    changes the order of the emitted calls and which rejection is caught,
    not the calls made nor whether the whole is rejected. *)
Fixpoint promiseAllMap {A C : Type} (f : A -> M B C) (l : list A)
  : M B (list C) :=
  match l with
  | [] => ret []
  | x :: xs =>
      fun w =>
        match f x w with
        | (r, w1, t1) =>
            match promiseAllMap f xs w1 with
            | (rs, w2, t2) =>
                (match r, rs with
                 | Ok y, Ok ys => Ok (y :: ys)
                 | Throw e, _ => Throw e
                 | Ok _, Throw e => Throw e
                 end, w2, t1 ++ t2)
            end
        end
  end.

(** [window.setTimeout(cb, delay)]: a fresh handle, due [delay] from now. *)
Definition setTimeout (delay : Z) (w : World B) : Z * World B * list Event :=
  let h := nextHandle w in
  (h,
   mkWorld (backend w) (now w) ((h, now w + delay) :: timers w) (h + 1)
           (listening w),
   [EvSetTimeout h delay]).

(** [clearTimeout(h)]: the timer with this handle, if pending, is dropped. *)
Definition clearTimeout (h : Z) (w : World B) : World B * list Event :=
  (withTimers (filter (fun p => negb (fst p =? h)) (timers w)) w,
   [EvClearTimeout h]).
End Monad.

Declare Scope vault_scope.
Delimit Scope vault_scope with vault.
Notation "x <- m ;; k" := (bind m (fun x => k))
  (at level 61, m at next level, right associativity) : vault_scope.
Notation "m ;;; k" := (bind m (fun _ => k))
  (at level 61, right associativity) : vault_scope.
Open Scope vault_scope.

(** [if (x)] on a string that may be missing: [undefined], [null] and the
    empty string are falsy. *)
Definition truthyString (o : option string) : bool :=
  match o with
  | Some s => negb (String.eqb s "")
  | None => false
  end.

(** [if (timeoutRef.current)]: [undefined] and the number 0 are falsy. *)
Definition truthyHandle (o : option Z) : bool :=
  match o with
  | Some h => negb (h =? 0)
  | None => false
  end.

Definition AUTO_LOCK_TIME : Z := 1 * 60 * 1000.

Definition msgMissing : string :=
  "Missing required encryption data from server.".
Definition msgVerification : string :=
  "Master password verification failed.".
Definition msgUnlockFailed : string :=
  "Incorrect master password or decryption failed.".
Definition msgAddFailed : string := "Failed to add entry.".
Definition msgUpdateFailed : string := "Failed to update entry.".
Definition msgDeleteFailed : string := "Failed to delete entry.".
Definition msgAutoLocked : string := "Vault auto-locked due to inactivity.".

(** ** The handlers of [CredentialVault] *)

Section Handlers.
Context {B K : Type} (c : Collab B K).

(** [lockVault], lines 42-53. *)
Definition lockVault (s : State K) : Handler B K :=
  fun w =>
    let s1 :=
      setMasterPassword ""
        (setShowAddForm false
           (setEditingEntry None
              (setCredentials []
                 (setAesKey None (setVaultUnlocked false s))))) in
    if truthyHandle (timeoutRef s) then
      match timeoutRef s with
      | Some h =>
          match clearTimeout h w with
          | (w1, t1) => (setTimeoutRef None s1, w1, t1)
          end
      | None => (s1, w, [])
      end
    else (s1, w, []).

(** [resetAutoLockTimer], lines 55-61.  The callback it schedules is
    [fireAutoLock] below. *)
Definition resetAutoLockTimer (s : State K) : Handler B K :=
  fun w =>
    match
      (if truthyHandle (timeoutRef s) then
         match timeoutRef s with
         | Some h => clearTimeout h w
         | None => (w, [])
         end
       else (w, []))
    with
    | (w1, t1) =>
        match setTimeout AUTO_LOCK_TIME w1 with
        | (h, w2, t2) => (setTimeoutRef (Some h) s, w2, t1 ++ t2)
        end
    end.

(** The cleanup function returned by the effect, lines 74-78. *)
Definition effectCleanup (s : State K) : Handler B K :=
  fun w =>
    let w1 := withListening false w in
    if truthyHandle (timeoutRef s) then
      match timeoutRef s with
      | Some h =>
          match clearTimeout h w1 with
          | (w2, t2) => (s, w2, EvRemoveListeners :: t2)
          end
      | None => (s, w1, [EvRemoveListeners])
      end
    else (s, w1, [EvRemoveListeners]).

(** The body of the effect, lines 64-72. *)
Definition effectBody (s : State K) : Handler B K :=
  fun w =>
    if negb (vaultUnlocked s) then (s, w, [])
    else
      match resetAutoLockTimer s (withListening true w) with
      | (s1, w1, t1) => (s1, w1, EvAddListeners :: t1)
      end.

(** React after a render: the effect depends on [vaultUnlocked] (and on
    [resetAutoLockTimer], which never changes), so when [vaultUnlocked]
    differs from its value [prev] at the previous render the old cleanup
    runs, if the old effect had returned one, and then the body. *)
Definition commitEffect (prev : bool) (s : State K) : Handler B K :=
  fun w =>
    if Bool.eqb prev (vaultUnlocked s) then (s, w, [])
    else
      match (if prev then effectCleanup s w else (s, w, [])) with
      | (s1, w1, t1) =>
          match effectBody s1 w1 with
          | (s2, w2, t2) => (s2, w2, t1 ++ t2)
          end
      end.

(** [handleActivity], line 66: runs only while the listeners are
    registered. *)
Definition handleActivity (s : State K) : Handler B K :=
  fun w => if listening w then resetAutoLockTimer s w else (s, w, []).

(** Reading [.cipherText] of an envelope that may be [undefined]. *)
Definition envelopeOf (o : option Envelope) : M B Envelope :=
  match o with
  | Some e => ret e
  | None =>
      throw (TypeError
               "Cannot read properties of undefined (reading 'cipherText')")
  end.

Definition awaitDecryptData (ct nonce : string) (k : K) : M B string :=
  fun w =>
    let r := decryptData c ct nonce k in (r, w, [EvDecryptData ct nonce r]).

Definition awaitCreateHMAC (hmacKey : K) (sec : string) : M B string :=
  fun w =>
    let r := createHMAC c hmacKey sec in (r, w, [EvCreateHMAC sec r]).

(** The callback of [encrypted.data.map], lines 108-135. *)
Definition decryptEntry (k : K) (e : VaultEntry) : M B DecryptedEntry :=
  w <- envelopeOf (website e) ;;
  decWebsite <- awaitDecryptData (cipherText w) (iv w) k ;;
  u <- envelopeOf (username e) ;;
  decUsername <- awaitDecryptData (cipherText u) (iv u) k ;;
  p <- envelopeOf (password e) ;;
  decPassword <- awaitDecryptData (cipherText p) (iv p) k ;;
  decNotes <- match notes e with
              | Some n => awaitDecryptData (cipherText n) (iv n) k
              | None => ret ""
              end ;;
  ret (mkDecryptedEntry e decWebsite decUsername decPassword decNotes).

(** The [try] block of [handleUnlock], lines 86-136, up to the three
    [set...] calls: it yields the key and the decrypted list, or throws.
    [pw] is the [masterPassword] the handler closed over. *)
Definition unlockTry (pw : string) : M B (K * list DecryptedEntry) :=
  response <- callB EvGetEncryptionSalt (getEncryptionSalt c) ;;
  if negb (truthyString (encryptionSalt response))
     || negb (truthyString (keyDerivationMethod response))
     || match verification response with Some _ => false | None => true end
  then throw (Error msgMissing)
  else
    match encryptionSalt response, keyDerivationMethod response,
          verification response with
    | Some salt, Some method, Some ver =>
        buf <- liftRes (base64ToBuffer c salt) ;;
        emit (EvDeriveKey pw method) ;;;
        keys <- liftRes (deriveKey c pw buf method) ;;
        let (aesK, hmacKey) := (keys : K * K) in
        hmacToVerify <- awaitCreateHMAC hmacKey (secret ver) ;;
        if negb (String.eqb hmacToVerify (hmac ver))
        then throw (Error msgVerification)
        else
          encrypted <- callB EvGetEncryptedVault (getEncryptedVault c) ;;
          decrypted <- promiseAllMap (decryptEntry aesK) (data encrypted) ;;
          ret (aesK, decrypted)
    | _, _, _ => throw (Error msgMissing)
    end.

(** [handleUnlock], lines 81-147.  [snap] is the state of the render the
    handler was created in (it reads [masterPassword] from it); [s] is the
    state its [set...] calls apply to. *)
Definition handleUnlock (snap s : State K) : Handler B K :=
  fun w =>
    let s1 := setIsUnlocking true (setError "" s) in
    match unlockTry (masterPassword snap) w with
    | (Ok (k, decrypted), w1, t1) =>
        (setIsUnlocking false
           (setVaultUnlocked true
              (setCredentials decrypted (setAesKey (Some k) s1))),
         w1, t1)
    | (Throw e, w1, t1) =>
        (setIsUnlocking false (setError msgUnlockFailed s1),
         w1, t1 ++ [EvConsoleError e])
    end.

Definition awaitEncryptData (plaintext : string) (k : K) : M B Envelope :=
  emit (EvEncryptData plaintext) ;;;
  (fun w => match encryptData c plaintext k (backend w) with
            | (r, b') => (r, withBackend b' w, [])
            end).

(** The four encryptions both mutation flows start with; [notes] is
    encrypted only when the text is truthy, i.e. non-empty. *)
Definition encryptFields (k : K) (web user pass note : string)
  : M B EntryPayload :=
  ew <- awaitEncryptData web k ;;
  eu <- awaitEncryptData user k ;;
  ep <- awaitEncryptData pass k ;;
  en <- (if String.eqb note "" then ret None
         else n <- awaitEncryptData note k ;; ret (Some n)) ;;
  ret (mkEntryPayload ew eu ep en).

(** The [try] block of [handleAddEntry], lines 157-169. *)
Definition addTry (k : K) (ne : NewEntry) : M B unit :=
  payload <- encryptFields k (ne_website ne) (ne_username ne)
               (ne_password ne) (ne_notes ne) ;;
  callB (EvAddEntry payload) (addEntry c payload).

(** [handleAddEntry], lines 149-180.  [handleUnlock()] is not awaited: it
    runs up to its first [await], [setIsAdding(false)] follows, and the
    rest of the refresh comes later; as the two touch different cells the
    state after both is the one computed here. *)
Definition handleAddEntry (snap s : State K) : Handler B K :=
  fun w =>
    match aesKey snap with
    | None => (s, w, [EvPreventDefault])
    | Some k =>
        let s1 := setError "" (setIsAdding true s) in
        match addTry k (newEntry snap) w with
        | (Ok _, w1, t1) =>
            let s2 :=
              setNewEntry (mkNewEntry "" "" "" "")
                (setShowAddForm false s1) in
            match handleUnlock snap s2 w1 with
            | (s3, w2, t2) =>
                (setIsAdding false s3, w2, EvPreventDefault :: t1 ++ t2)
            end
        | (Throw e, w1, t1) =>
            (setIsAdding false (setError msgAddFailed s1),
             w1, EvPreventDefault :: t1 ++ [EvConsoleError e])
        end
    end.

(** The [try] block of the edit form's [onSubmit], lines 374-395. *)
Definition updateTry (k : K) (editing : option DecryptedEntry) : M B unit :=
  match editing with
  | None =>
      throw (TypeError
               "Cannot read properties of null (reading 'decryptedWebsite')")
  | Some ed =>
      payload <- encryptFields k (decryptedWebsite ed) (decryptedUsername ed)
                   (decryptedPassword ed) (decryptedNotes ed) ;;
      callB (EvUpdateEntry (_id (entry ed)) payload)
            (updateEntry c (_id (entry ed)) payload)
  end.

(** The [onSubmit] of the edit form, lines 366-405. *)
Definition handleUpdateEntry (snap s : State K) : Handler B K :=
  fun w =>
    match aesKey snap with
    | None => (s, w, [EvPreventDefault])
    | Some k =>
        let s1 := setError "" (setIsUpdating true s) in
        match updateTry k (editingEntry snap) w with
        | (Ok _, w1, t1) =>
            let s2 := setEditingEntry None s1 in
            match handleUnlock snap s2 w1 with
            | (s3, w2, t2) =>
                (setIsUpdating false s3, w2, EvPreventDefault :: t1 ++ t2)
            end
        | (Throw e, w1, t1) =>
            (setIsUpdating false (setError msgUpdateFailed s1),
             w1, EvPreventDefault :: t1 ++ [EvConsoleError e])
        end
    end.

(** [handleDelete], lines 186-196.  [confirmed] is the answer the user gives
    to [window.confirm]. *)
Definition handleDelete (entryId : string) (confirmed : bool)
  (snap s : State K) : Handler B K :=
  fun w =>
    if negb confirmed then (s, w, [EvConfirm false])
    else
      match callB (EvDeleteEntry entryId) (deleteEntry c entryId) w with
      | (Ok _, w1, t1) =>
          match handleUnlock snap s w1 with
          | (s3, w2, t2) => (s3, w2, EvConfirm true :: t1 ++ t2)
          end
      | (Throw e, w1, t1) =>
          (setError msgDeleteFailed s, w1,
           EvConfirm true :: t1 ++ [EvConsoleError e])
      end.
End Handlers.

(** ** Time and user input *)

Section Driver.
Context {B K : Type} (c : Collab B K).

(** Of the pending timers due at [t] or before, the one the browser runs
    first: the earliest due, the smaller handle on a tie. *)
Fixpoint nextDue (t : Z) (l : list (Z * Z)) : option (Z * Z) :=
  match l with
  | [] => None
  | (h, d) :: l' =>
      if d <=? t then
        match nextDue t l' with
        | Some (h', d') =>
            if (d' <? d) || ((d' =? d) && (h' <? h)) then Some (h', d')
            else Some (h, d)
        | None => Some (h, d)
        end
      else nextDue t l'
  end.

(** The callback passed to [setTimeout], lines 57-60, run by the browser
    when timer [h] is due at [d], followed by the render it causes. *)
Definition fireAutoLock (h d : Z) (s : State K) : Handler B K :=
  fun w =>
    let w0 :=
      withNow (Z.max (now w) d)
        (withTimers (filter (fun p => negb (fst p =? h)) (timers w)) w) in
    match lockVault s w0 with
    | (s1, w1, t1) =>
        match commitEffect (vaultUnlocked s) s1 w1 with
        | (s2, w2, t2) => (s2, w2, t1 ++ EvConsoleLog msgAutoLocked :: t2)
        end
    end.

Fixpoint advanceFuel (fuel : nat) (t : Z) (s : State K) (w : World B)
  : State K * World B * list Event :=
  match fuel with
  | O => (s, w, [])
  | S fuel' =>
      match nextDue t (timers w) with
      | None => (s, w, [])
      | Some (h, d) =>
          match fireAutoLock h d s w with
          | (s1, w1, t1) =>
              match advanceFuel fuel' t s1 w1 with
              | (s2, w2, t2) => (s2, w2, t1 ++ t2)
              end
          end
      end
  end.

(** Time passes until the clock shows [t]: every timer due by then runs.
    A timer that runs is removed and its callback schedules none, so the
    number of pending timers is fuel enough ([advance_complete]). *)
Definition advance (t : Z) (s : State K) : Handler B K :=
  fun w =>
    match advanceFuel (length (timers w)) t s w with
    | (s1, w1, t1) => (s1, withNow (Z.max (now w1) t) w1, t1)
    end.

(** What can happen to the mounted component: typing in the password
    box, the Unlock button, opening or cancelling the add form, typing in
    it, submitting it, the Edit button and typing in or cancelling the edit
    form, submitting it, the Delete button with the answer to the
    confirmation, mouse or keyboard activity, and time passing. *)
Inductive Input : Type :=
| TypeMasterPassword (v : string)
| ClickUnlock
| SetShowAddForm (v : bool)
| EditNewEntry (v : NewEntry)
| SubmitAdd
| SetEditingEntry (v : option DecryptedEntry)
| SubmitUpdate
| ClickDelete (entryId : string) (confirmed : bool)
| Activity
| WaitUntil (t : Z).

(** One input: the handler it triggers, then the effects of the render.
    Waiting renders inside [advance], after each timer that runs.  The
    handler runs from its first line to its last within the step: this is
    the execution in which every call the handler awaits has settled before
    the next input arrives or the next timer runs.  [istep] below is
    without that restriction. *)
Definition step (i : Input) (s : State K) : Handler B K :=
  fun w =>
    match i with
    | WaitUntil t => advance t s w
    | _ =>
        match
          (match i with
           | TypeMasterPassword v => (setMasterPassword v s, w, [])
           | ClickUnlock => handleUnlock c s s w
           | SetShowAddForm v => (setShowAddForm v s, w, [])
           | EditNewEntry v => (setNewEntry v s, w, [])
           | SubmitAdd => handleAddEntry c s s w
           | SetEditingEntry v => (setEditingEntry v s, w, [])
           | SubmitUpdate => handleUpdateEntry c s s w
           | ClickDelete entryId confirmed =>
               handleDelete c entryId confirmed s s w
           | Activity => handleActivity s w
           | WaitUntil _ => (s, w, [])
           end)
        with
        | (s1, w1, t1) =>
            match commitEffect (vaultUnlocked s) s1 w1 with
            | (s2, w2, t2) => (s2, w2, t1 ++ t2)
            end
        end
    end.

(** A sequence of inputs, each handled to its end before the next. *)
Fixpoint run (l : list Input) (s : State K) : Handler B K :=
  fun w =>
    match l with
    | [] => (s, w, [])
    | i :: l' =>
        match step i s w with
        | (s1, w1, t1) =>
            match run l' s1 w1 with
            | (s2, w2, t2) => (s2, w2, t1 ++ t2)
            end
        end
    end.
End Driver.

(** The parts of what a handler returns. *)
Definition stateOf {B K : Type} (r : State K * World B * list Event)
  : State K := fst (fst r).
Definition worldOf {B K : Type} (r : State K * World B * list Event)
  : World B := snd (fst r).
Definition traceOf {B K : Type} (r : State K * World B * list Event)
  : list Event := snd r.

(** Nothing happens until the clock shows [t]. *)
Definition idleUntil {B K : Type} (c : Collab B K) (t : Z)
  (r : State K * World B * list Event) : State K * World B * list Event :=
  step c (WaitUntil t) (stateOf r) (worldOf r).

(** Nothing happens until [a], when the user moves the mouse or presses a
    key. *)
Definition activityAt {B K : Type} (c : Collab B K) (a : Z)
  (r : State K * World B * list Event) : State K * World B * list Event :=
  step c Activity (stateOf (idleUntil c a r)) (worldOf (idleUntil c a r)).

(** ** Predicates the statements use *)

(** The session part of the state is locked: no key, no entries, flag off. *)
Definition Locked {K : Type} (s : State K) : Prop :=
  vaultUnlocked s = false /\ aesKey s = None /\ credentials s = [].

(** The pending timers are exactly the one [timeoutRef] holds, and handles
    are positive, as the browser hands them out. *)
Definition timerInv {B K : Type} (s : State K) (w : World B) : Prop :=
  0 < nextHandle w /\
  (forall h d, In (h, d) (timers w) ->
               timeoutRef s = Some h /\ 0 < h < nextHandle w).

(** The tag computed by [createHMAC] differs from the [hmac] of the challenge
    the server sent. *)
Definition verificationMismatch (tr : list Event) : Prop :=
  exists resp ver sec tag,
    In (EvGetEncryptionSalt (Ok resp)) tr /\
    verification resp = Some ver /\
    In (EvCreateHMAC sec (Ok tag)) tr /\
    tag <> hmac ver.

(** The ways an unlock attempt can fail, read off the calls it made.
    [Caught] is the [catch] block having run, whatever threw: it also covers
    a salt that is not base64, a failing key derivation and a record with an
    envelope missing. *)
Inductive UnlockFailure (tr : list Event) : Prop :=
| SaltFetchFailed (e : exn) (H : In (EvGetEncryptionSalt (Throw e)) tr)
| ParametersMissing (resp : SaltResponse)
    (H : In (EvGetEncryptionSalt (Ok resp)) tr)
    (Hmiss : truthyString (encryptionSalt resp) = false \/
             truthyString (keyDerivationMethod resp) = false \/
             verification resp = None)
| HmacFailed (sec : string) (e : exn) (H : In (EvCreateHMAC sec (Throw e)) tr)
| VerificationFailed (H : verificationMismatch tr)
| VaultFetchFailed (e : exn) (H : In (EvGetEncryptedVault (Throw e)) tr)
| FieldDecryptionFailed (ct nonce : string) (e : exn)
    (H : In (EvDecryptData ct nonce (Throw e)) tr)
| Caught (e : exn) (H : In (EvConsoleError e) tr).

(** The session is unlocked with the listeners registered and exactly one
    timer pending, the one [timeoutRef] holds, due at [due]. *)
Definition armed {B K : Type} (s : State K) (w : World B) (due : Z) : Prop :=
  vaultUnlocked s = true /\
  listening w = true /\
  0 < nextHandle w /\
  exists h, 0 < h /\ timeoutRef s = Some h /\ timers w = [(h, due)].

(** What the component maintains between inputs: handles are positive;
    while unlocked the listeners are registered and exactly one timer is
    pending, the one [timeoutRef] holds; while locked no timer is pending
    and no listener is registered. *)
Definition sessionInv {B K : Type} (s : State K) (w : World B) : Prop :=
  0 < nextHandle w /\
  (vaultUnlocked s = true ->
   listening w = true /\
   exists h d, 0 < h < nextHandle w /\ timeoutRef s = Some h /\
               timers w = [(h, d)]) /\
  (vaultUnlocked s = false -> listening w = false /\ timers w = []).

(** Nothing of the session is left in the state. *)
Definition wiped {K : Type} (s : State K) : Prop :=
  vaultUnlocked s = false /\
  aesKey s = None /\
  credentials s = [] /\
  editingEntry s = None /\
  showAddForm s = false /\
  masterPassword s = "".

(** What a handler other than the timer's may do to the session: it leaves
    [timeoutRef] alone, never turns the unlocked flag off, and changes
    nothing of the world but the backend. *)
Definition sessionNeutral {B K : Type} (s : State K) (w : World B)
  (r : State K * World B * list Event) : Prop :=
  timeoutRef (stateOf r) = timeoutRef s /\
  (vaultUnlocked (stateOf r) = vaultUnlocked s \/
   vaultUnlocked (stateOf r) = true) /\
  exists b, worldOf r = withBackend b w.

(** Modelled from the spec: the storage backend behind [dashServices] and
    [vaultservices] is not among the sources.  Section 6 of the
    specification gives its contract: fetching the salt and the challenge
    has no side effects, [getEncryptedEntries] returns the stored records,
    and [createEntry] stores one record.  [stored] reads the records out of
    the backend state; encrypting, which happens in the browser, does not
    change them. *)
Definition storageContract {B K : Type} (c : Collab B K)
  (stored : B -> list VaultEntry) : Prop :=
  (forall b, stored (snd (getEncryptionSalt c b)) = stored b) /\
  (forall pt k b, stored (snd (encryptData c pt k b)) = stored b) /\
  (forall b,
      stored (snd (getEncryptedVault c b)) = stored b /\
      forall rv, fst (getEncryptedVault c b) = Ok rv -> data rv = stored b) /\
  (forall p b,
      fst (addEntry c p b) = Ok tt ->
      length (stored (snd (addEntry c p b))) = S (length (stored b))).

(** A stored record lacks one of the three envelopes the callback reads
    unconditionally. *)
Definition missingRequired (e : VaultEntry) : Prop :=
  website e = None \/ username e = None \/ password e = None.

(** [d] is what the callback of [handleUnlock] yields for [e] under key [k]:
    every present envelope decrypts to the matching field, absent notes give
    the empty string. *)
Definition decryptsTo {B K : Type} (c : Collab B K) (k : K)
  (e : VaultEntry) (d : DecryptedEntry) : Prop :=
  entry d = e /\
  (exists w, website e = Some w /\
             decryptData c (cipherText w) (iv w) k = Ok (decryptedWebsite d)) /\
  (exists u, username e = Some u /\
             decryptData c (cipherText u) (iv u) k = Ok (decryptedUsername d)) /\
  (exists p, password e = Some p /\
             decryptData c (cipherText p) (iv p) k = Ok (decryptedPassword d)) /\
  match notes e with
  | Some n => decryptData c (cipherText n) (iv n) k = Ok (decryptedNotes d)
  | None => decryptedNotes d = ""
  end.

(** [k] is the AES key [deriveKey] yields for password [pw] with the salt
    and the method the server behind [b] answers with. *)
Definition derivedFrom {B K : Type} (c : Collab B K) (pw : string) (k : K)
  (b : B) : Prop :=
  exists resp b1 salt method buf hmacKey,
    getEncryptionSalt c b = (Ok resp, b1) /\
    encryptionSalt resp = Some salt /\
    keyDerivationMethod resp = Some method /\
    base64ToBuffer c salt = Ok buf /\
    deriveKey c pw buf method = Ok (k, hmacKey).

(** ** A test double for the collaborators

    A small, computable implementation of the imported functions, used to
    run the handlers on concrete inputs.  It is not the real cryptography:
    a key is a string, a ciphertext is the key followed by the plaintext. *)
Module TestDouble.

Record Backend : Type := mkBackend {
  saltResponse : res SaltResponse;
  online : bool;
  stored : list VaultEntry;
  counter : nat
}.

Definition numeral (n : nat) : string :=
  NilEmpty.string_of_uint (Nat.to_uint n).

Definition derive (pw : string) (_ : list Byte.byte) (_ : string)
  : res (string * string) :=
  Ok ("aes:" ++ pw, "hmac:" ++ pw)%string.

Definition tag (hk sec : string) : res string := Ok (hk ++ "/" ++ sec)%string.

Definition open (ct _ k : string) : res string :=
  if String.prefix k ct
  then Ok (substring (String.length k)
                     (String.length ct - String.length k) ct)
  else Throw (Error "OperationError").

Definition seal (pt k : string) (b : Backend) : res Envelope * Backend :=
  (Ok (mkEnvelope (k ++ pt)%string ("iv" ++ numeral (counter b))%string),
   mkBackend (saltResponse b) (online b) (stored b) (S (counter b))).

Definition fetch (b : Backend) : res VaultResponse * Backend :=
  if online b then (Ok (mkVaultResponse (stored b)), b)
  else (Throw (Error "Network Error"), b).

Definition create (p : EntryPayload) (b : Backend) : res unit * Backend :=
  if online b then
    (Ok tt,
     mkBackend (saltResponse b) (online b)
       (stored b ++
          [mkVaultEntry ("id" ++ numeral (counter b))%string
             (Some (p_website p)) (Some (p_username p))
             (Some (p_password p)) (p_notes p)])
       (S (counter b)))
  else (Throw (Error "Network Error"), b).

Definition replace (id : string) (p : EntryPayload) (b : Backend)
  : res unit * Backend :=
  if online b then
    (Ok tt,
     mkBackend (saltResponse b) (online b)
       (map (fun e => if String.eqb (_id e) id
                      then mkVaultEntry id (Some (p_website p))
                             (Some (p_username p)) (Some (p_password p))
                             (p_notes p)
                      else e) (stored b))
       (counter b))
  else (Throw (Error "Network Error"), b).

Definition remove (id : string) (b : Backend) : res unit * Backend :=
  if online b then
    (Ok tt,
     mkBackend (saltResponse b) (online b)
       (filter (fun e => negb (String.eqb (_id e) id)) (stored b))
       (counter b))
  else (Throw (Error "Network Error"), b).

Definition collab : Collab Backend string :=
  mkCollab Backend string
    (fun b => (saltResponse b, b))
    (fun s => Ok (list_byte_of_string s))
    derive tag fetch open seal create replace remove.

(** The challenge a server would hold for master password [pw]. *)
Definition challengeFor (pw : string) : SaltResponse :=
  mkSaltResponse (Some "UzE=") (Some "kdf-v1")
    (Some (mkVerification "challenge" ("hmac:" ++ pw ++ "/challenge")%string)).

Definition sealed (pw pt : string) : Envelope :=
  mkEnvelope ("aes:" ++ pw ++ pt)%string "iv".

(** A browser with no timer pending, at time 0. *)
Definition world (b : Backend) : World Backend := mkWorld b 0 [] 1 false.

(** One stored record for password [correct-horse], without notes. *)
Definition aliceEntry : VaultEntry :=
  mkVaultEntry "e1"
    (Some (sealed "correct-horse" "example.com"))
    (Some (sealed "correct-horse" "alice"))
    (Some (sealed "correct-horse" "p@ss"))
    None.

Definition server : Backend :=
  mkBackend (Ok (challengeFor "correct-horse")) true [aliceEntry] 0.

(** The same server, one record of which lost its username envelope. *)
Definition brokenEntry : VaultEntry :=
  mkVaultEntry "e2" (Some (sealed "correct-horse" "example.org")) None
    (Some (sealed "correct-horse" "pw")) None.

Definition brokenServer : Backend :=
  mkBackend (Ok (challengeFor "correct-horse")) true
    [aliceEntry; brokenEntry] 0.

(** A server whose salt response lacks the verification challenge. *)
Definition incompleteServer : Backend :=
  mkBackend (Ok (mkSaltResponse (Some "UzE=") (Some "kdf-v1") None)) true
    [aliceEntry] 0.

(** A server one of whose records was sealed under another key. *)
Definition tamperedServer : Backend :=
  mkBackend (Ok (challengeFor "correct-horse")) true
    [aliceEntry;
     mkVaultEntry "e3" (Some (sealed "correct-horse" "a"))
       (Some (sealed "other" "b")) (Some (sealed "correct-horse" "c")) None]
    0.

Definition typed (pw : string) : State string :=
  setMasterPassword pw initialState.
End TestDouble.

(** The calls [handleUnlock] can make. *)
Definition is_unlock_event (ev : Event) : bool :=
  match ev with
  | EvGetEncryptionSalt _ | EvDeriveKey _ _ | EvCreateHMAC _ _
  | EvGetEncryptedVault _ | EvDecryptData _ _ _ | EvConsoleError _ => true
  | _ => false
  end.

(** A decrypt call that returned a plaintext. *)
Definition okDecrypt (ev : Event) : Prop :=
  exists ct nonce pt, ev = EvDecryptData ct nonce (Ok pt).

(** The calls made once verification has passed and the vault has been
    fetched, up to the decrypt phase. *)
Definition verifiedPrefix (pw method : string) (resp : SaltResponse)
  (ver : Verification) (rv : VaultResponse) : list Event :=
  [EvGetEncryptionSalt (Ok resp); EvDeriveKey pw method;
   EvCreateHMAC (secret ver) (Ok (hmac ver)); EvGetEncryptedVault (Ok rv)].

(** The state [handleUnlock] leaves when its [try] block threw. *)
Definition unlockRejected {K : Type} (s : State K) : State K :=
  setIsUnlocking false
    (setError msgUnlockFailed (setIsUnlocking true (setError "" s))).

(** The state [handleUnlock] leaves when its [try] block yielded [k] and
    [ds]. *)
Definition unlockedWith {K : Type} (k : K) (ds : list DecryptedEntry)
  (s : State K) : State K :=
  setIsUnlocking false
    (setVaultUnlocked true
       (setCredentials ds
          (setAesKey (Some k) (setIsUnlocking true (setError "" s))))).

Ltac world_eq :=
  first [ now eexists
        | match goal with H : ?w = withBackend (backend ?w) ?w |- _ =>
            exists (backend w); exact H end ].

(** ** The rest of the component *)

(** React unmounting the component (the route changes): the cleanup of the
    last effect runs, if that effect returned one, which it did when
    [vaultUnlocked] was true, lines 64 and 74-78. *)
Definition unmount {B K : Type} (s : State K) : Handler B K :=
  fun w => if vaultUnlocked s then effectCleanup s w else (s, w, []).

(** Several activity signals, at the times of the list in turn. *)
Fixpoint activitiesAt {B K : Type} (c : Collab B K) (times : list Z)
  (r : State K * World B * list Event) : State K * World B * list Event :=
  match times with
  | [] => r
  | a :: rest => activitiesAt c rest (activityAt c a r)
  end.

(** Each signal of the list comes no earlier than [start] and before the
    pending timer, due at [due], has run; the next ones likewise after it. *)
Fixpoint withinWindow (start due : Z) (times : list Z) : Prop :=
  match times with
  | [] => True
  | a :: rest =>
      start <= a < due /\ withinWindow a (a + AUTO_LOCK_TIME) rest
  end.

(** When the timer is due after the signals of the list. *)
Fixpoint finalDue (due : Z) (times : list Z) : Z :=
  match times with
  | [] => due
  | a :: rest => finalDue (a + AUTO_LOCK_TIME) rest
  end.

(** The key is resident exactly while the session is unlocked, and a locked
    session shows no entry. *)
Definition keyInv {K : Type} (s : State K) : Prop :=
  (vaultUnlocked s = true -> exists k, aesKey s = Some k) /\
  (vaultUnlocked s = false -> aesKey s = None /\ credentials s = []).

(** No operation is in progress. *)
Definition idle {K : Type} (s : State K) : Prop :=
  isUnlocking s = false /\ isAdding s = false /\ isUpdating s = false.

(** The [decryptData] calls the unlock callback makes for a record whose
    fields all decrypt. *)
Definition decryptCalls (e : VaultEntry) : nat :=
  match notes e with
  | Some _ => 4
  | None => 3
  end.

(** The handler an input other than waiting triggers, before the render. *)
Definition handlerOf {B K : Type} (c : Collab B K) (i : Input)
  (s : State K) : Handler B K :=
  fun w =>
    match i with
    | TypeMasterPassword v => (setMasterPassword v s, w, [])
    | ClickUnlock => handleUnlock c s s w
    | SetShowAddForm v => (setShowAddForm v s, w, [])
    | EditNewEntry v => (setNewEntry v s, w, [])
    | SubmitAdd => handleAddEntry c s s w
    | SetEditingEntry v => (setEditingEntry v s, w, [])
    | SubmitUpdate => handleUpdateEntry c s s w
    | ClickDelete entryId confirmed => handleDelete c entryId confirmed s s w
    | Activity => handleActivity s w
    | WaitUntil _ => (s, w, [])
    end.

(** An input that is neither an activity signal nor time passing. *)
Definition isAction (i : Input) : bool :=
  match i with
  | Activity | WaitUntil _ => false
  | _ => true
  end.

(** While unlocked, the pending timer is due in the future, at most one
    [AUTO_LOCK_TIME] ahead. *)
Definition deadlineInv {B K : Type} (s : State K) (w : World B) : Prop :=
  forall due, armed s w due -> now w < due <= now w + AUTO_LOCK_TIME.

(** The blank draft [handleAddEntry] resets the form to. *)
Definition blankEntry : NewEntry := mkNewEntry "" "" "" "".

(** *** What is rendered, lines 198-472 *)

(** One row of the table: the four cells, the entry the Edit button passes
    to [handleEdit] and the id the Delete button passes to [handleDelete]. *)
Record CredentialRow : Type := mkCredentialRow {
  cellWebsite : string;
  cellUsername : string;
  cellPassword : string;
  cellNotes : string;
  editArgument : DecryptedEntry;
  deleteArgument : string
}.

(** The body of the table: the "No entries found." row, or the rows. *)
Inductive TableBody : Type :=
| NoEntriesFound
| Rows (rows : list CredentialRow).

(** A form (add or edit): the spinner over it, the values of its four
    fields, and its submit button. *)
Record FormView : Type := mkFormView {
  formBusy : bool;
  fieldWebsite : string;
  fieldUsername : string;
  fieldPassword : string;
  fieldNotes : string;
  submitDisabled : bool;
  submitLabel : string
}.

(** The two things the component returns: the password prompt (lines
    198-220) or the vault (lines 222-471). *)
Inductive View : Type :=
| LockedScreen (passwordValue : string) (unlockDisabled : bool)
    (unlockLabel : string) (errorText : option string)
| VaultScreen (spinner : bool) (body : TableBody)
    (addForm : option FormView) (editForm : option FormView).

Definition renderRow (cred : DecryptedEntry) : CredentialRow :=
  mkCredentialRow (decryptedWebsite cred) (decryptedUsername cred)
    (decryptedPassword cred) (decryptedNotes cred) cred (_id (entry cred)).

(** The return value of the component function for a state. *)
Definition render {K : Type} (s : State K) : View :=
  if negb (vaultUnlocked s) then
    LockedScreen (masterPassword s) (isUnlocking s)
      (if isUnlocking s then "Unlocking..." else "Unlock Vault")
      (if String.eqb (error s) "" then None else Some (error s))
  else
    VaultScreen (isUnlocking s)
      (match credentials s with
       | [] => NoEntriesFound
       | l => Rows (map renderRow l)
       end)
      (if showAddForm s then
         Some (mkFormView (isAdding s)
                 (ne_website (newEntry s)) (ne_username (newEntry s))
                 (ne_password (newEntry s)) (ne_notes (newEntry s))
                 (isAdding s)
                 (if isAdding s then "Saving..." else "Save Entry"))
       else None)
      (match editingEntry s with
       | Some ed =>
           Some (mkFormView (isUpdating s)
                   (decryptedWebsite ed) (decryptedUsername ed)
                   (decryptedPassword ed) (decryptedNotes ed)
                   (isUpdating s)
                   (if isUpdating s then "Saving..." else "Save Changes"))
       | None => None
       end).

(** ** The navigation bar, the [Navbar] component *)
Module Navbar.

(** What the bar reads: [isLoggedIn] and [user] of the auth context and the
    path of the current location. *)
Record Auth : Type := mkAuth {
  isLoggedIn : bool;
  user : option string;
  pathname : string
}.

Inductive NavEvent : Type :=
| EvSignout (r : res unit)
| EvNavigate (path : string)
| EvSignoutFailed (e : exn).

(** [handleSignout], lines 27-36 of the file the component is in;
    [signout] is the imported service call over the state [S] of the
    server. *)
Definition handleSignout {S : Type} (signout : S -> res unit * S)
  (a : Auth) (srv : S) : Auth * S * list NavEvent :=
  match signout srv with
  | (Ok _, srv') =>
      (mkAuth false None "/", srv', [EvSignout (Ok tt); EvNavigate "/"])
  | (Throw e, srv') =>
      (a, srv', [EvSignout (Throw e); EvSignoutFailed e])
  end.

Definition isDashboard (a : Auth) : bool :=
  String.eqb (pathname a) "/dashboard".

Definition isVault (a : Auth) : bool :=
  String.eqb (pathname a) "/dashboard/credential-vault".

(** The two conditional elements of the bar, lines 47 and 55. *)
Definition showsDashboardLink (a : Auth) : bool :=
  isLoggedIn a && isVault a.

Definition showsSignoutButton (a : Auth) : bool :=
  isLoggedIn a && (isDashboard a || isVault a).
End Navbar.

(** ** Handlers suspended at their awaits

    The handlers above run an [async] function from its first line to its
    last in one go.  The browser does not: at every [await] the function is
    suspended until the awaited call settles, and meanwhile timers run,
    inputs arrive and other handlers start or go on.  Here a handler is the
    sequence of its synchronous stretches. *)

(** What is left to run of an [async] handler.  [Update f log rest]: the
    [set...] calls [f] and the logging [log], then [rest], all in the same
    synchronous stretch.  [Awaiting call k]: suspended on the awaited
    [call]; [k] is the rest of the handler, given how the call settled. *)
Inductive Task (B K : Type) : Type :=
| Returned
| Update (f : State K -> State K) (log : list Event) (rest : Task B K)
| Awaiting (X : Type) (call : M B X) (k : res X -> Task B K).
Arguments Returned {B K}.
Arguments Update {B K}.
Arguments Awaiting {B K X}.

Section Tasks.
Context {B K : Type} (c : Collab B K).

(** [await call] inside a [try]: the rest [k] on fulfilment, the [catch]
    block on rejection. *)
Definition awaitTry {X : Type} (call : M B X) (k : X -> Task B K)
  (handler : exn -> Task B K) : Task B K :=
  Awaiting call (fun r => match r with
                          | Ok x => k x
                          | Throw e => handler e
                          end).

(** The [catch] and [finally] blocks of [handleUnlock], lines 141-146. *)
Definition unlockCatch (e : exn) : Task B K :=
  Update (fun s => setIsUnlocking false (setError msgUnlockFailed s))
         [EvConsoleError e] Returned.

(** Lines 138-140 and the [finally] block. *)
Definition unlockCommit (aesK : K) (decrypted : list DecryptedEntry)
  : Task B K :=
  Update (fun s =>
            setIsUnlocking false
              (setVaultUnlocked true
                 (setCredentials decrypted (setAesKey (Some aesK) s))))
         [] Returned.

(** [handleUnlock] suspended at [await Promise.all(...)], lines 106-136.
    The callbacks of the map touch neither the component state nor the
    world, so they are one awaited call whenever they run. *)
Definition unlockDecrypting (aesK : K) (encrypted : VaultResponse)
  : Task B K :=
  awaitTry (promiseAllMap (decryptEntry c aesK) (data encrypted))
           (unlockCommit aesK) unlockCatch.

(** [handleUnlock] suspended at its first [await], line 87, with the rest
    of its [try] block, lines 88-140.  [pw] is the [masterPassword] the
    handler closed over. *)
Definition unlockAwaits (pw : string) : Task B K :=
  awaitTry (callB EvGetEncryptionSalt (getEncryptionSalt c))
    (fun response =>
       if negb (truthyString (encryptionSalt response))
          || negb (truthyString (keyDerivationMethod response))
          || match verification response with
             | Some _ => false
             | None => true
             end
       then unlockCatch (Error msgMissing)
       else
         match encryptionSalt response, keyDerivationMethod response,
               verification response with
         | Some salt, Some method, Some ver =>
             match base64ToBuffer c salt with
             | Throw e => unlockCatch e
             | Ok buf =>
                 awaitTry (emit (EvDeriveKey pw method) ;;;
                           liftRes (deriveKey c pw buf method))
                   (fun keys =>
                      awaitTry (awaitCreateHMAC c (snd keys) (secret ver))
                        (fun hmacToVerify =>
                           if negb (String.eqb hmacToVerify (hmac ver))
                           then unlockCatch (Error msgVerification)
                           else
                             awaitTry (callB EvGetEncryptedVault
                                         (getEncryptedVault c))
                               (unlockDecrypting (fst keys))
                               unlockCatch)
                        unlockCatch)
                   unlockCatch
             end
         | _, _, _ => unlockCatch (Error msgMissing)
         end)
    unlockCatch.

(** [handleUnlock], lines 81-147: lines 82-83, then the [try] block. *)
Definition unlockTask (pw : string) : Task B K :=
  Update (fun s => setIsUnlocking true (setError "" s)) []
         (unlockAwaits pw).

(** The awaited encryptions both mutation flows start with, lines 158-163
    and 375-386, then [k] with the payload. *)
Definition encryptAwaits (key : K) (web user pass note : string)
  (k : EntryPayload -> Task B K) (handler : exn -> Task B K) : Task B K :=
  awaitTry (awaitEncryptData c web key)
    (fun ew =>
       awaitTry (awaitEncryptData c user key)
         (fun eu =>
            awaitTry (awaitEncryptData c pass key)
              (fun ep =>
                 if String.eqb note ""
                 then k (mkEntryPayload ew eu ep None)
                 else
                   awaitTry (awaitEncryptData c note key)
                     (fun en => k (mkEntryPayload ew eu ep (Some en)))
                     handler)
              handler)
         handler)
    handler.

(** The [catch] and [finally] blocks of [handleAddEntry], lines 174-179. *)
Definition addCatch (e : exn) : Task B K :=
  Update (fun s => setIsAdding false (setError msgAddFailed s))
         [EvConsoleError e] Returned.

(** [handleAddEntry], lines 149-180.  After [addEntry] has settled, the
    form is closed and blanked, [handleUnlock()] runs up to its first
    [await] and is not awaited, [setIsAdding(false)] follows in the same
    stretch, and the refresh goes on by itself. *)
Definition addTask (snap : State K) : Task B K :=
  Update (fun s => s) [EvPreventDefault]
    match aesKey snap with
    | None => Returned
    | Some key =>
        Update (fun s => setError "" (setIsAdding true s)) []
          (encryptAwaits key (ne_website (newEntry snap))
             (ne_username (newEntry snap)) (ne_password (newEntry snap))
             (ne_notes (newEntry snap))
             (fun payload =>
                awaitTry (callB (EvAddEntry payload) (addEntry c payload))
                  (fun _ =>
                     Update (fun s =>
                               setNewEntry (mkNewEntry "" "" "" "")
                                 (setShowAddForm false s)) []
                       (Update (fun s => setIsUnlocking true (setError "" s))
                          []
                          (Update (setIsAdding false) []
                             (unlockAwaits (masterPassword snap)))))
                  addCatch)
             addCatch)
    end.

(** The [catch] and [finally] blocks of the edit form's [onSubmit], lines
    399-404. *)
Definition updateCatch (e : exn) : Task B K :=
  Update (fun s => setIsUpdating false (setError msgUpdateFailed s))
         [EvConsoleError e] Returned.

(** The [onSubmit] of the edit form, lines 366-405. *)
Definition updateTask (snap : State K) : Task B K :=
  Update (fun s => s) [EvPreventDefault]
    match aesKey snap with
    | None => Returned
    | Some key =>
        Update (fun s => setError "" (setIsUpdating true s)) []
          match editingEntry snap with
          | None =>
              updateCatch
                (TypeError
                   "Cannot read properties of null (reading 'decryptedWebsite')")
          | Some ed =>
              encryptAwaits key (decryptedWebsite ed) (decryptedUsername ed)
                (decryptedPassword ed) (decryptedNotes ed)
                (fun payload =>
                   awaitTry (callB (EvUpdateEntry (_id (entry ed)) payload)
                               (updateEntry c (_id (entry ed)) payload))
                     (fun _ =>
                        Update (setEditingEntry None) []
                          (Update
                             (fun s => setIsUnlocking true (setError "" s)) []
                             (Update (setIsUpdating false) []
                                (unlockAwaits (masterPassword snap)))))
                     updateCatch)
                updateCatch
          end
    end.

(** [handleDelete], lines 186-196. *)
Definition deleteTask (entryId : string) (confirmed : bool)
  (snap : State K) : Task B K :=
  if negb confirmed then Update (fun s => s) [EvConfirm false] Returned
  else
    Update (fun s => s) [EvConfirm true]
      (awaitTry (callB (EvDeleteEntry entryId) (deleteEntry c entryId))
         (fun _ => unlockTask (masterPassword snap))
         (fun e =>
            Update (setError msgDeleteFailed) [EvConsoleError e] Returned)).

(** The handler an input starts, created in the render of state [snap]. *)
Definition taskOf (i : Input) (snap : State K) : Task B K :=
  match i with
  | TypeMasterPassword v => Update (setMasterPassword v) [] Returned
  | ClickUnlock => unlockTask (masterPassword snap)
  | SetShowAddForm v => Update (setShowAddForm v) [] Returned
  | EditNewEntry v => Update (setNewEntry v) [] Returned
  | SubmitAdd => addTask snap
  | SetEditingEntry v => Update (setEditingEntry v) [] Returned
  | SubmitUpdate => updateTask snap
  | ClickDelete entryId confirmed => deleteTask entryId confirmed snap
  | Activity | WaitUntil _ => Returned
  end.

(** A task run with nothing in between: every awaited call settles at
    once. *)
Fixpoint runTask (t : Task B K) (s : State K) : Handler B K :=
  fun w =>
    match t with
    | Returned => (s, w, [])
    | Update f log rest =>
        match runTask rest (f s) w with
        | (s1, w1, t1) => (s1, w1, log ++ t1)
        end
    | Awaiting call k =>
        match call w with
        | (r, w1, t1) =>
            match runTask (k r) s w1 with
            | (s2, w2, t2) => (s2, w2, t1 ++ t2)
            end
        end
    end.

(** One synchronous stretch: the task runs up to its next [await]. *)
Fixpoint runSync (t : Task B K) (s : State K)
  : State K * list Event * Task B K :=
  match t with
  | Update f log rest =>
      match runSync rest (f s) with
      | (s1, l1, t1) => (s1, log ++ l1, t1)
      end
  | _ => (s, [], t)
  end.
End Tasks.

(** The mounted component with the handlers in flight. *)
Record Sys (B K : Type) : Type := mkSys {
  comp : State K;
  world : World B;
  pending : list (Task B K)
}.
Arguments mkSys {B K}.
Arguments comp {B K}.
Arguments world {B K}.
Arguments pending {B K}.

(** What can happen next: an input ([Do]), which starts its handler; the
    call the [n]-th handler in flight awaits takes effect and settles
    ([Answer]); the [n]-th handler in flight goes on with its next
    synchronous stretch ([Resume]). *)
Inductive Action : Type :=
| Do (i : Input)
| Answer (n : nat)
| Resume (n : nat).

Definition removeNth {A : Type} (n : nat) (l : list A) : list A :=
  firstn n l ++ skipn (S n) l.

Section Interleaving.
Context {B K : Type} (c : Collab B K).

(** A handler that has returned is dropped; one suspended at an [await]
    joins the handlers in flight. *)
Definition park (t : Task B K) (l : list (Task B K)) : list (Task B K) :=
  match t with
  | Returned => l
  | _ => l ++ [t]
  end.

(** Task [t] runs its next synchronous stretch and the component renders:
    the [set...] calls of the stretch are applied together, then the effect
    runs if [vaultUnlocked] changed.  [others] are the other handlers in
    flight. *)
Definition resume (t : Task B K) (others : list (Task B K)) (y : Sys B K)
  : Sys B K * list Event :=
  match runSync t (comp y) with
  | (s1, l1, t') =>
      match commitEffect (vaultUnlocked (comp y)) s1 (world y) with
      | (s2, w2, l2) => (mkSys s2 w2 (park t' others), l1 ++ l2)
      end
  end.

(** One thing happens.  An activity signal and the passing of time are
    synchronous, as in [step]; any other input starts its handler, which
    closes over the state of the current render and runs up to its first
    [await]. *)
Definition istep (a : Action) (y : Sys B K) : Sys B K * list Event :=
  match a with
  | Do i =>
      match i with
      | Activity | WaitUntil _ =>
          match step c i (comp y) (world y) with
          | (s1, w1, l1) => (mkSys s1 w1 (pending y), l1)
          end
      | _ => resume (taskOf c i (comp y)) (pending y) y
      end
  | Answer n =>
      match nth_error (pending y) n with
      | Some (Awaiting call k) =>
          match call (world y) with
          | (r, w1, l1) =>
              (mkSys (comp y) w1
                 (firstn n (pending y) ++ k r :: skipn (S n) (pending y)),
               l1)
          end
      | _ => (y, [])
      end
  | Resume n =>
      match nth_error (pending y) n with
      | Some t => resume t (removeNth n (pending y)) y
      | None => (y, [])
      end
  end.

Fixpoint irun (l : list Action) (y : Sys B K) : Sys B K * list Event :=
  match l with
  | [] => (y, [])
  | a :: l' =>
      match istep a y with
      | (y1, t1) =>
          match irun l' y1 with
          | (y2, t2) => (y2, t1 ++ t2)
          end
      end
  end.
End Interleaving.

(** The component just mounted: first render, no timer, no listener,
    nothing in flight. *)
Definition mounted {B K : Type} (b : B) (t n : Z) : Sys B K :=
  mkSys initialState (mkWorld b t [] n false) [].

(** An action other than an activity signal or the passing of time. *)
Definition isHandlerAction (a : Action) : bool :=
  match a with
  | Do i => isAction i
  | Answer _ | Resume _ => true
  end.

(** *** What every stretch of every handler respects *)

(** The [set...] calls of a stretch leave [timeoutRef] alone, and either
    leave flag, key and entries alone or leave the session unlocked with a
    key. *)
Definition quiet {K : Type} (f : State K -> State K) : Prop :=
  forall s,
    timeoutRef (f s) = timeoutRef s /\
    ((vaultUnlocked (f s) = vaultUnlocked s /\ aesKey (f s) = aesKey s /\
      credentials (f s) = credentials s) \/
     (vaultUnlocked (f s) = true /\ exists k, aesKey (f s) = Some k)).

(** An awaited call changes nothing of the world but the backend. *)
Definition backendOnly {B X : Type} (call : M B X) : Prop :=
  forall w, exists b, snd (fst (call w)) = withBackend b w.

(** Every stretch of the task is quiet and every call it awaits changes
    the backend only. *)
Fixpoint calm {B K : Type} (t : Task B K) : Prop :=
  match t with
  | Returned => True
  | Update f _ rest => quiet f /\ calm rest
  | Awaiting call k => backendOnly call /\ forall r, calm (k r)
  end.

(** Busy flag [flag] and task [t]: [owes flag t d] says that [t], which
    has ([d] true) or has not ([d] false) turned the flag on without
    turning it off since, has turned it off whenever it returns. *)
Fixpoint owes {B K : Type} (flag : State K -> bool) (t : Task B K)
  (d : bool) : Prop :=
  match t with
  | Returned => d = false
  | Update f _ rest =>
      (exists v, (forall s, flag (f s) = v) /\ owes flag rest v) \/
      ((forall s, flag (f s) = flag s) /\ owes flag rest d)
  | Awaiting call k => forall r, owes flag (k r) d
  end.

(** A busy flag that is on belongs to a handler in flight, which will
    turn it off. *)
Definition flagInv {B K : Type} (flag : State K -> bool) (y : Sys B K)
  : Prop :=
  Forall (fun t => exists d, owes flag t d) (pending y) /\
  (flag (comp y) = true -> Exists (fun t => owes flag t true) (pending y)).

(** What holds of the mounted component whatever happens, in whatever
    order. *)
Definition sysInv {B K : Type} (y : Sys B K) : Prop :=
  sessionInv (comp y) (world y) /\
  deadlineInv (comp y) (world y) /\
  keyInv (comp y) /\
  Forall calm (pending y) /\
  flagInv isUnlocking y /\ flagInv isAdding y /\ flagInv isUpdating y.

(** ** Scenarios on the test double *)
Module Scenario.

(** The test session after typing the right password and unlocking. *)
Definition unlocked : State string :=
  stateOf (handleUnlock TestDouble.collab
             (TestDouble.typed "correct-horse")
             (TestDouble.typed "correct-horse")
             (TestDouble.world TestDouble.server)).

(** The same with a draft typed into the add form. *)
Definition drafting : State string :=
  setShowAddForm true
    (setNewEntry (mkNewEntry "example.org" "bob" "s3cret" "") unlocked).

(** The same with the stored record opened in the edit form and its notes
    changed. *)
Definition editing : State string :=
  setEditingEntry
    (Some (mkDecryptedEntry TestDouble.aliceEntry "example.com" "alice"
             "p@ss" "changed"))
    unlocked.

(** A server that is unreachable for the vault calls. *)
Definition offline : TestDouble.Backend :=
  TestDouble.mkBackend (Ok (TestDouble.challengeFor "correct-horse")) false
    [TestDouble.aliceEntry] 0.

(** A server that stores and deletes but fails to return the salt. *)
Definition saltless : TestDouble.Backend :=
  TestDouble.mkBackend (Throw (Error "Network Error")) true
    [TestDouble.aliceEntry] 0.

(** The browser once the unlocked session has its timer armed at time 0. *)
Definition armedWorld (b : TestDouble.Backend) : World TestDouble.Backend :=
  mkWorld b 0 [(1, 60000)] 2 true.

Definition armedState (s : State string) : State string :=
  setTimeoutRef (Some 1) s.

(** The test double with an [encryptData] that always fails. *)
Definition brokenCrypto : Collab TestDouble.Backend string :=
  mkCollab TestDouble.Backend string
    (getEncryptionSalt TestDouble.collab)
    (base64ToBuffer TestDouble.collab)
    (deriveKey TestDouble.collab)
    (createHMAC TestDouble.collab)
    (getEncryptedVault TestDouble.collab)
    (decryptData TestDouble.collab)
    (fun _ _ b => (Throw (Error "OperationError"), b))
    (addEntry TestDouble.collab)
    (updateEntry TestDouble.collab)
    (deleteEntry TestDouble.collab).

(** The user types the password and clicks Unlock; the five awaited calls
    of [handleUnlock] take effect one after the other and the handler
    finishes. *)
Definition unlocking : list Action :=
  [Do (TypeMasterPassword "correct-horse"); Do ClickUnlock]
    ++ repeat (Answer 0) 5 ++ [Resume 0].

(** The user opens the add form and types a draft; the clock reaches
    59.999 s. *)
Definition draftingUntilLate : list Action :=
  [Do (SetShowAddForm true);
   Do (EditNewEntry (mkNewEntry "example.org" "bob" "s3cret" ""));
   Do (WaitUntil 59999)].

(** The user submits the add form; the three encryptions and [addEntry]
    take effect, the handler goes on and starts the refresh, and the
    refresh gets as far as its last [await]: the decryption is pending. *)
Definition adding : list Action :=
  [Do SubmitAdd] ++ repeat (Answer 0) 4 ++ [Resume 0]
    ++ repeat (Answer 0) 4.

(** All of that on the test server, and then the inactivity timer runs
    while the refresh is still in flight. *)
Definition lockedMidRefresh : Sys TestDouble.Backend string :=
  fst (irun TestDouble.collab
         (unlocking ++ draftingUntilLate ++ adding ++ [Do (WaitUntil 60000)])
         (mounted TestDouble.server 0 1)).
End Scenario.

(** * Lemmas about the handlers *)

(** ** Lists of events *)

Lemma count_events_none (f : Event -> bool) (l : list Event) :
  Forall (fun ev => f ev = false) l -> count_events f l = 0%nat.
Proof.
  unfold count_events.
  induction 1 as [|ev l Hev _ IH]; simpl; [reflexivity|].
  now rewrite Hev.
Qed.

(** A decrypt call found in [l1 ++ l2] lies in [l2] when [l1] has none. *)
Lemma split_after_prefix (l1 l2 pre post : list Event) (x : Event) :
  Forall (fun ev => is_decrypt ev = false) l1 ->
  is_decrypt x = true ->
  l1 ++ l2 = pre ++ x :: post ->
  exists pre', pre = l1 ++ pre'.
Proof.
  intros Hl1 Hx. revert pre.
  induction Hl1 as [|a l1 Ha _ IH]; intros pre Heq.
  - now exists pre.
  - destruct pre as [|b pre]; simpl in Heq.
    + injection Heq as Hab _. congruence.
    + injection Heq as Hab Heq. destruct (IH _ Heq) as [pre' ->].
      exists pre'. now subst.
Qed.

(** ** The decrypt phase *)

Section DecryptPhase.
Context {B K : Type} (c : Collab B K).

(** The callback leaves the world alone, makes decrypt calls only, and
    fulfils exactly with the decryption of its record. *)
Lemma decryptEntry_run (k : K) (e : VaultEntry) (w : World B) :
  exists r tr,
    decryptEntry c k e w = (r, w, tr) /\
    Forall (fun ev => is_decrypt ev = true) tr /\
    (forall d, r = Ok d -> decryptsTo c k e d /\ Forall okDecrypt tr) /\
    (missingRequired e -> exists x, r = Throw x).
Proof.
  unfold decryptEntry, bind, envelopeOf, awaitDecryptData, ret, throw,
    decryptsTo, missingRequired.
  destruct e as [id [ew|] [eu|] [ep|] en]; simpl.
  all: repeat match goal with
         | |- context [decryptData c ?a ?b ?k] =>
             let E := fresh "E" in
             destruct (decryptData c a b k) eqn:E; simpl
         | |- context [match ?n with Some _ => _ | None => _ end] =>
             destruct n; simpl
         end.
  all: eexists; eexists; split; [reflexivity|].
  all: split; [repeat constructor|].
  all: split;
    [ intros d Hd; try discriminate; injection Hd as <-; simpl;
      (split; [repeat split; eauto|]);
      repeat constructor; unfold okDecrypt; eauto
    | intros [H|[H|H]]; try discriminate; eauto ].
Qed.

Lemma decryptAll_run (k : K) (l : list VaultEntry) (w : World B) :
  exists r tr,
    promiseAllMap (decryptEntry c k) l w = (r, w, tr) /\
    Forall (fun ev => is_decrypt ev = true) tr /\
    (forall ds, r = Ok ds ->
                Forall2 (decryptsTo c k) l ds /\ Forall okDecrypt tr) /\
    (Exists missingRequired l -> exists x, r = Throw x).
Proof.
  induction l as [|e l IH]; simpl.
  - exists (Ok []), []. unfold ret.
    split; [reflexivity|]. split; [constructor|]. split.
    + intros ds H. injection H as <-. split; constructor.
    + intros H. inversion H.
  - destruct (decryptEntry_run k e w) as (r1 & t1 & E1 & F1 & O1 & X1).
    destruct IH as (r2 & t2 & E2 & F2 & O2 & X2).
    rewrite E1, E2.
    eexists; eexists; split; [reflexivity|].
    split; [apply Forall_app; auto|].
    split.
    + intros ds H. destruct r1 as [d|x], r2 as [ds'|x']; try discriminate.
      injection H as <-.
      destruct (O1 d eq_refl), (O2 ds' eq_refl).
      split; [constructor; auto|apply Forall_app; auto].
    + intros H. inversion H as [? ? Hm|? ? Hm]; subst.
      * destruct (X1 Hm) as [x ->]. eauto.
      * destruct (X2 Hm) as [x ->]. destruct r1; eauto.
Qed.
End DecryptPhase.

(** ** The shape of an unlock attempt *)

Section UnlockShape.
Context {B K : Type} (c : Collab B K).

(** Either the [try] block threw before any decrypt call, or it reached the
    decrypt phase with a complete response, a matching tag and a fetched
    vault, and its outcome is that of the phase. *)
Lemma unlockTry_shape (pw : string) (w : World B) :
  exists r w' tr,
    unlockTry c pw w = (r, w', tr) /\
    (exists b, w' = withBackend b w) /\
    (exists rs rest, tr = EvGetEncryptionSalt rs :: rest) /\
    ((exists e, r = Throw e /\
                Forall (fun ev => is_decrypt ev = false) tr /\
                (forall rv, ~ In (EvGetEncryptedVault (Ok rv)) tr)) \/
     (exists resp method ver rv k rd trd,
         tr = verifiedPrefix pw method resp ver rv ++ trd /\
         truthyString (encryptionSalt resp) = true /\
         truthyString (keyDerivationMethod resp) = true /\
         verification resp = Some ver /\
         promiseAllMap (decryptEntry c k) (data rv) w' = (rd, w', trd) /\
         r = match rd with
             | Ok ds => Ok (k, ds)
             | Throw e => Throw e
             end /\
         exists b1 b2,
           getEncryptionSalt c (backend w) = (Ok resp, b1) /\
           getEncryptedVault c b1 = (Ok rv, b2))).
Proof.
  assert (Hw : w = withBackend (backend w) w) by now destruct w.
  unfold unlockTry, bind, callB, liftRes, emit, awaitCreateHMAC, throw, ret.
  destruct (getEncryptionSalt c (backend w)) as [[resp|e0] b1] eqn:Esalt.
  2:{ do 3 eexists. split; [reflexivity|]. split; [world_eq|]. split; [do 2 eexists; reflexivity|]. left.
      eexists. split; [reflexivity|]. split; [repeat constructor|].
      intros rv [H|[]]. discriminate. }
  destruct resp as [[salt|] [method|] [ver|]]; simpl.
  all: try (destruct (String.eqb salt "") eqn:Es; simpl).
  all: try (destruct (String.eqb method "") eqn:Em; simpl).
  all: try solve
    [ do 3 eexists; (split; [reflexivity|]); (split; [world_eq|]); (split; [do 2 eexists; reflexivity|]); left;
      eexists; (split; [reflexivity|]); (split; [repeat constructor|]);
      intros rv H; simpl in H; intuition discriminate ].
  destruct (base64ToBuffer c salt) as [buf|e1]; simpl.
  2:{ do 3 eexists. split; [reflexivity|]. split; [world_eq|]. split; [do 2 eexists; reflexivity|]. left.
      eexists. split; [reflexivity|]. split; [repeat constructor|].
      intros rv H; simpl in H; intuition discriminate. }
  destruct (deriveKey c pw buf method) as [[aesK hmacKey]|e2]; simpl.
  2:{ do 3 eexists. split; [reflexivity|]. split; [world_eq|]. split; [do 2 eexists; reflexivity|]. left.
      eexists. split; [reflexivity|]. split; [repeat constructor|].
      intros rv H; simpl in H; intuition discriminate. }
  destruct (createHMAC c hmacKey (secret ver)) as [tag|e3] eqn:Eh; simpl.
  2:{ do 3 eexists. split; [reflexivity|]. split; [world_eq|]. split; [do 2 eexists; reflexivity|]. left.
      eexists. split; [reflexivity|]. split; [repeat constructor|].
      intros rv H; simpl in H; intuition discriminate. }
  destruct (String.eqb tag (hmac ver)) eqn:Et; simpl.
  2:{ do 3 eexists. split; [reflexivity|]. split; [world_eq|]. split; [do 2 eexists; reflexivity|]. left.
      eexists. split; [reflexivity|]. split; [repeat constructor|].
      intros rv H; simpl in H; intuition discriminate. }
  apply String.eqb_eq in Et. subst tag.
  destruct (getEncryptedVault c b1) as [[rv|e4] b2] eqn:Efetch; simpl.
  2:{ do 3 eexists. split; [reflexivity|]. split; [world_eq|]. split; [do 2 eexists; reflexivity|]. left.
      eexists. split; [reflexivity|]. split; [repeat constructor|].
      intros rv H; simpl in H; intuition discriminate. }
  destruct (decryptAll_run c aesK (data rv) (withBackend b2 (withBackend b1 w)))
    as (rd & trd & Ed & _).
  rewrite Ed. destruct rd as [ds|e5]; simpl; rewrite ?app_nil_r.
  all: do 3 eexists; (split; [reflexivity|]); (split; [now exists b2|]); (split; [do 2 eexists; reflexivity|]).
  all: right;
    exists (mkSaltResponse (Some salt) (Some method) (Some ver)), method,
      ver, rv, aesK.
  all: eexists; exists trd; simpl; rewrite Es, Em.
  all: split; [reflexivity|]; repeat (split; [reflexivity|]).
  all: split; [exact Ed|]; split; [reflexivity|]; now exists b1, b2.
Qed.
End UnlockShape.

(** ** The outcomes of [handleUnlock] *)

Section UnlockOutcome.
Context {B K : Type} (c : Collab B K).

(** [handleUnlock] ends in one of three ways: the [try] block threw before
    the decrypt phase, it threw in the decrypt phase, or it completed.  In
    the first two the state is [unlockRejected]. *)
Lemma handleUnlock_outcome (snap s : State K) (w : World B) :
  exists s' w' tr,
    handleUnlock c snap s w = (s', w', tr) /\
    (exists b, w' = withBackend b w) /\
    ((exists e tr0,
         s' = unlockRejected s /\ tr = tr0 ++ [EvConsoleError e] /\
         Forall (fun ev => is_decrypt ev = false) tr0 /\
         (forall rv, ~ In (EvGetEncryptedVault (Ok rv)) tr0)) \/
     (exists resp method ver rv trd,
         truthyString (encryptionSalt resp) = true /\
         truthyString (keyDerivationMethod resp) = true /\
         verification resp = Some ver /\
         Forall (fun ev => is_decrypt ev = true) trd /\
         ((exists e,
              s' = unlockRejected s /\
              tr = verifiedPrefix (masterPassword snap) method resp ver rv
                     ++ trd ++ [EvConsoleError e]) \/
          (exists k ds,
              s' = unlockedWith k ds s /\
              tr = verifiedPrefix (masterPassword snap) method resp ver rv
                     ++ trd ++ [] /\
              Forall2 (decryptsTo c k) (data rv) ds /\
              Forall okDecrypt trd /\
              ~ Exists missingRequired (data rv))))).
Proof.
  unfold handleUnlock.
  destruct (unlockTry_shape c (masterPassword snap) w)
    as (r & w' & tr & E & Hw & _ & [(e & -> & Hnd & Hnf)|Hphase]).
  - rewrite E. do 3 eexists. split; [reflexivity|]. split; [exact Hw|].
    left. exists e, tr. repeat split; auto.
  - destruct Hphase
      as (resp & method & ver & rv & k & rd & trd & -> & Hs & Hm & Hv & Ed & ->
          & _).
    destruct (decryptAll_run c k (data rv) w')
      as (rd' & trd' & Ed' & Hdec & Hok & Hmiss).
    rewrite Ed in Ed'. injection Ed' as <- <-.
    rewrite E. destruct rd as [ds|e].
    + do 3 eexists. split; [reflexivity|]. split; [exact Hw|].
      right. exists resp, method, ver, rv, trd.
      repeat (split; [assumption|]).
      right. exists k, ds. destruct (Hok ds eq_refl) as [H2 Hokd].
      rewrite app_nil_r. repeat split; auto.
      intros Hex. destruct (Hmiss Hex) as [x Hx]. discriminate.
    + do 3 eexists. split; [reflexivity|]. split; [exact Hw|].
      right. exists resp, method, ver, rv, trd.
      repeat (split; [assumption|]).
      left. exists e. split; [reflexivity|].
      now rewrite <- app_assoc.
Qed.

(** In a trace that reached the decrypt phase the salt response, the tag
    and the fetched vault are the ones of the prefix. *)
Lemma verified_trace_salt pw method resp ver rv trd tl r :
  Forall (fun ev => is_decrypt ev = true) trd ->
  (forall r', ~ In (EvGetEncryptionSalt r') tl) ->
  In (EvGetEncryptionSalt r)
     (verifiedPrefix pw method resp ver rv ++ trd ++ tl) ->
  r = Ok resp.
Proof.
  intros Hd Htl Hin. apply in_app_or in Hin. destruct Hin as [Hin|Hin].
  - simpl in Hin. intuition congruence.
  - apply in_app_or in Hin. destruct Hin as [Hin|Hin].
    + rewrite Forall_forall in Hd. apply Hd in Hin. discriminate.
    + now apply Htl in Hin.
Qed.

Lemma verified_trace_hmac pw method resp ver rv trd tl sec r :
  Forall (fun ev => is_decrypt ev = true) trd ->
  (forall sec' r', ~ In (EvCreateHMAC sec' r') tl) ->
  In (EvCreateHMAC sec r)
     (verifiedPrefix pw method resp ver rv ++ trd ++ tl) ->
  r = Ok (hmac ver).
Proof.
  intros Hd Htl Hin. apply in_app_or in Hin. destruct Hin as [Hin|Hin].
  - simpl in Hin. intuition congruence.
  - apply in_app_or in Hin. destruct Hin as [Hin|Hin].
    + rewrite Forall_forall in Hd. apply Hd in Hin. discriminate.
    + now apply Htl in Hin.
Qed.

Lemma verified_trace_vault pw method resp ver rv trd tl r :
  Forall (fun ev => is_decrypt ev = true) trd ->
  (forall r', ~ In (EvGetEncryptedVault r') tl) ->
  In (EvGetEncryptedVault r)
     (verifiedPrefix pw method resp ver rv ++ trd ++ tl) ->
  r = Ok rv.
Proof.
  intros Hd Htl Hin. apply in_app_or in Hin. destruct Hin as [Hin|Hin].
  - simpl in Hin. intuition congruence.
  - apply in_app_or in Hin. destruct Hin as [Hin|Hin].
    + rewrite Forall_forall in Hd. apply Hd in Hin. discriminate.
    + now apply Htl in Hin.
Qed.

(** A mismatching tag cannot occur in a trace that reached the decrypt
    phase. *)
Lemma verified_trace_no_mismatch pw method resp ver rv trd tl :
  verification resp = Some ver ->
  Forall (fun ev => is_decrypt ev = true) trd ->
  (forall r', ~ In (EvGetEncryptionSalt r') tl) ->
  (forall sec' r', ~ In (EvCreateHMAC sec' r') tl) ->
  ~ verificationMismatch (verifiedPrefix pw method resp ver rv ++ trd ++ tl).
Proof.
  intros Hv Hd H1 H2 (resp' & ver' & sec & tag & Hs & Hv' & Ht & Hne).
  apply verified_trace_salt in Hs; auto.
  apply verified_trace_hmac in Ht; auto.
  congruence.
Qed.
End UnlockOutcome.

Ltac tail_free :=
  simpl; intros; intuition discriminate.

(** ** Lists *)

Lemma filter_none {A : Type} (f : A -> bool) (l : list A) :
  (forall x, In x l -> f x = false) -> filter f l = [].
Proof.
  induction l as [|a l IH]; simpl; intros H; [reflexivity|].
  rewrite (H a (or_introl eq_refl)). apply IH. intros x Hx. apply H. now right.
Qed.

Lemma no_member_nil {A : Type} (l : list A) :
  (forall x, ~ In x l) -> l = [].
Proof.
  destruct l as [|a l]; [reflexivity|]. intros H. destruct (H a). now left.
Qed.

(** ** Completed attempts *)

(** A completed attempt shows none of the failures. *)
Lemma completed_trace_no_failure pw method resp ver rv trd :
  truthyString (encryptionSalt resp) = true ->
  truthyString (keyDerivationMethod resp) = true ->
  verification resp = Some ver ->
  Forall (fun ev => is_decrypt ev = true) trd ->
  Forall okDecrypt trd ->
  ~ UnlockFailure (verifiedPrefix pw method resp ver rv ++ trd ++ []).
Proof.
  intros Hs Hm Hv Hd Hok Hfail.
  destruct Hfail as [e H|resp' H Hmiss|sec e H|H|e H|ct nonce e H|e H].
  - apply verified_trace_salt in H; [discriminate|assumption|tail_free].
  - apply verified_trace_salt in H; [|assumption|tail_free].
    injection H as ->. rewrite Hs, Hm, Hv in Hmiss.
    intuition discriminate.
  - apply verified_trace_hmac in H; [discriminate|assumption|tail_free].
  - revert H. apply verified_trace_no_mismatch; auto; tail_free.
  - apply verified_trace_vault in H; [discriminate|assumption|tail_free].
  - rewrite app_nil_r in H. apply in_app_or in H. destruct H as [H|H].
    + simpl in H. intuition discriminate.
    + rewrite Forall_forall in Hok. destruct (Hok _ H) as (? & ? & ? & Heq).
      discriminate.
  - rewrite app_nil_r in H. apply in_app_or in H. destruct H as [H|H].
    + simpl in H. intuition discriminate.
    + rewrite Forall_forall in Hd. apply Hd in H. discriminate.
Qed.

(** ** The state after an attempt *)

Lemma handleUnlock_state {B K : Type} (c : Collab B K) (snap s : State K)
  (w : World B) :
  fst (fst (handleUnlock c snap s w)) = unlockRejected s \/
  exists k ds, fst (fst (handleUnlock c snap s w)) = unlockedWith k ds s.
Proof.
  destruct (handleUnlock_outcome c snap s w)
    as (s1 & w1 & tr1 & E & _ & Hcases).
  rewrite E. simpl.
  destruct Hcases as [(e & tr0 & -> & _)|Hphase]; [now left|].
  destruct Hphase as (? & ? & ? & ? & ? & _ & _ & _ & _ & Hend).
  destruct Hend as [(e & -> & _)|(k & ds & -> & _)]; [now left|].
  right. now exists k, ds.
Qed.

(** ** The inactivity timer *)

Section AutoLock.
Context {B K : Type}.

(** The render after a successful unlock arms the timer one
    [AUTO_LOCK_TIME] ahead. *)
Lemma commitEffect_arms (s : State K) (w : World B) :
  vaultUnlocked s = true -> timers w = [] -> 0 < nextHandle w ->
  armed (fst (fst (commitEffect false s w)))
        (snd (fst (commitEffect false s w)))
        (now w + AUTO_LOCK_TIME) /\
  now (snd (fst (commitEffect false s w))) = now w.
Proof.
  intros Hu Ht Hn.
  unfold commitEffect, effectBody, resetAutoLockTimer, clearTimeout,
    setTimeout, armed.
  rewrite Hu. simpl.
  destruct (timeoutRef s) as [h0|]; simpl; [destruct (h0 =? 0); simpl|];
    rewrite ?Ht; simpl;
    (split; [|reflexivity]); (split; [exact Hu|]); (split; [reflexivity|]);
    (split; [lia|]); exists (nextHandle w); (split; [lia|]);
    split; reflexivity.
Qed.

(** Before the timer is due nothing happens but the clock moving. *)
Lemma advance_before_due (s : State K) (w : World B) (due t : Z) :
  armed s w due -> t < due ->
  advance t s w = (s, withNow (Z.max (now w) t) w, []).
Proof.
  intros (_ & _ & _ & h & _ & _ & Ht) Hlt.
  unfold advance. rewrite Ht. simpl. rewrite Ht. simpl.
  destruct (due <=? t) eqn:E; [apply Z.leb_le in E; lia|reflexivity].
Qed.

(** Once the timer is due the session is locked and wiped, the listeners
    are removed and no timer is pending. *)
Lemma advance_after_due (s : State K) (w : World B) (due t : Z) :
  armed s w due -> due <= t ->
  vaultUnlocked (fst (fst (advance t s w))) = false /\
  timers (snd (fst (advance t s w))) = [] /\
  wiped (fst (fst (advance t s w))) /\
  listening (snd (fst (advance t s w))) = false /\
  nextHandle (snd (fst (advance t s w))) = nextHandle w.
Proof.
  intros (Hu & _ & _ & h & Hh & Href & Ht) Hle.
  unfold advance. rewrite Ht. simpl. rewrite Ht. simpl.
  apply Z.leb_le in Hle. rewrite Hle.
  unfold fireAutoLock, lockVault, clearTimeout. rewrite Href. simpl.
  assert (E0 : (h =? 0) = false) by (apply Z.eqb_neq; lia).
  rewrite E0, Ht. simpl. rewrite Z.eqb_refl. simpl.
  unfold commitEffect, effectCleanup, effectBody. simpl. rewrite Hu. simpl.
  unfold wiped. simpl. repeat split; reflexivity.
Qed.

(** An activity signal cancels the pending timer and arms a fresh one. *)
Lemma handleActivity_rearms (s : State K) (w : World B) (due : Z) :
  armed s w due ->
  armed (fst (fst (handleActivity s w))) (snd (fst (handleActivity s w)))
        (now w + AUTO_LOCK_TIME) /\
  now (snd (fst (handleActivity s w))) = now w.
Proof.
  intros (Hu & Hl & Hn & h & Hh & Href & Ht).
  unfold handleActivity, resetAutoLockTimer, clearTimeout, setTimeout, armed.
  rewrite Hl, Href. simpl.
  assert (E0 : (h =? 0) = false) by (apply Z.eqb_neq; lia).
  rewrite E0, Ht. simpl. rewrite Z.eqb_refl. simpl.
  split; [|reflexivity]. split; [exact Hu|]. split; [exact Hl|].
  split; [lia|]. exists (nextHandle w). split; [lia|]. split; reflexivity.
Qed.

Lemma armed_withNow (s : State K) (w : World B) (due t : Z) :
  armed s w due -> armed s (withNow t w) due.
Proof. intros H. exact H. Qed.
End AutoLock.

(** ** The calls of each flow *)

Section Notes.
Context {B K : Type} (c : Collab B K).

Lemma unlockTry_events (pw : string) (w : World B) :
  Forall (fun ev => is_unlock_event ev = true) (snd (unlockTry c pw w)).
Proof.
  unfold unlockTry, bind, callB, liftRes, emit, awaitCreateHMAC, throw, ret.
  destruct (getEncryptionSalt c (backend w)) as [[resp|e0] b1];
    [|repeat constructor].
  destruct resp as [[salt|] [method|] [ver|]]; simpl;
    try (destruct (String.eqb salt ""); simpl);
    try (destruct (String.eqb method ""); simpl);
    try (repeat constructor; fail).
  destruct (base64ToBuffer c salt) as [buf|e1]; simpl;
    [|repeat constructor].
  destruct (deriveKey c pw buf method) as [[aesK hmacKey]|e2]; simpl;
    [|repeat constructor].
  destruct (createHMAC c hmacKey (secret ver)) as [tag|e3]; simpl;
    [|repeat constructor].
  destruct (String.eqb tag (hmac ver)); simpl;
    [|repeat constructor].
  destruct (getEncryptedVault c b1) as [[rv|e4] b2]; simpl;
    [|repeat constructor].
  destruct (decryptAll_run c aesK (data rv) (withBackend b2 (withBackend b1 w)))
    as (rd & trd & Ed & Hd & _).
  rewrite Ed.
  assert (Hk : Forall (fun ev => is_unlock_event ev = true) trd).
  { eapply Forall_impl; [|exact Hd]. intros [] H; try discriminate.
    reflexivity. }
  destruct rd; simpl; rewrite ?app_nil_r; repeat constructor; exact Hk.
Qed.

Lemma handleUnlock_events (snap s : State K) (w : World B) :
  Forall (fun ev => is_unlock_event ev = true)
         (traceOf (handleUnlock c snap s w)).
Proof.
  pose proof (unlockTry_events (masterPassword snap) w) as H.
  unfold handleUnlock, traceOf.
  destruct (unlockTry c (masterPassword snap) w) as [[[[k ds]|e] w1] t1];
    simpl in *; [exact H|].
  apply Forall_app. split; [exact H|]. repeat constructor.
Qed.

(** The payload both mutation flows build has a notes envelope exactly when
    the notes text is not empty. *)
Lemma encryptFields_notes (k : K) (web user pass note : string)
  (w w' : World B) (p : EntryPayload) (tr : list Event) :
  encryptFields c k web user pass note w = (Ok p, w', tr) ->
  (p_notes p = None <-> note = "") /\
  Forall (fun ev => is_encrypt ev = true) tr.
Proof.
  unfold encryptFields, awaitEncryptData, bind, emit, ret.
  simpl.
  destruct (encryptData c web k (backend w)) as [[ew|e] b1]; simpl;
    [|discriminate].
  destruct (encryptData c user k b1) as [[eu|e] b2]; simpl; [|discriminate].
  destruct (encryptData c pass k b2) as [[ep|e] b3]; simpl; [|discriminate].
  destruct (String.eqb note "") eqn:En; simpl.
  - apply String.eqb_eq in En. intros H. injection H as <- _ <-. simpl.
    split; [tauto|repeat constructor].
  - apply String.eqb_neq in En.
    destruct (encryptData c note k b3) as [[en|e] b4]; simpl; [|discriminate].
    intros H. injection H as <- _ <-. simpl.
    split; [split; [discriminate|contradiction]|repeat constructor].
Qed.
End Notes.

(** ** The add flow *)

Section AddFlow.
Context {B K : Type} (c : Collab B K).

Lemma encryptFields_events (k : K) (web user pass note : string)
  (w : World B) :
  Forall (fun ev => is_encrypt ev = true)
         (snd (encryptFields c k web user pass note w)).
Proof.
  unfold encryptFields, awaitEncryptData, bind, emit, ret. simpl.
  destruct (encryptData c web k (backend w)) as [[ew|e] b1]; simpl;
    [|repeat constructor].
  destruct (encryptData c user k b1) as [[eu|e] b2]; simpl;
    [|repeat constructor].
  destruct (encryptData c pass k b2) as [[ep|e] b3]; simpl;
    [|repeat constructor].
  destruct (String.eqb note ""); simpl; [repeat constructor|].
  destruct (encryptData c note k b3) as [[en|e] b4]; simpl;
    repeat constructor.
Qed.

(** The [try] block of [handleAddEntry] either fails while encrypting, or
    submits the payload it built, once. *)
Lemma addTry_run (k : K) (ne : NewEntry) (w : World B) :
  (exists e w' tenc,
      addTry c k ne w = (Throw e, w', tenc) /\
      Forall (fun ev => is_encrypt ev = true) tenc) \/
  (exists p w0 tenc ra b1,
      encryptFields c k (ne_website ne) (ne_username ne) (ne_password ne)
        (ne_notes ne) w = (Ok p, w0, tenc) /\
      addEntry c p (backend w0) = (ra, b1) /\
      addTry c k ne w = (ra, withBackend b1 w0, tenc ++ [EvAddEntry p ra])).
Proof.
  pose proof (encryptFields_events k (ne_website ne) (ne_username ne)
                (ne_password ne) (ne_notes ne) w) as Hev.
  unfold addTry, bind, callB.
  destruct (encryptFields c k (ne_website ne) (ne_username ne)
              (ne_password ne) (ne_notes ne) w) as [[[p|e] w0] tenc];
    simpl in Hev.
  - right. destruct (addEntry c p (backend w0)) as [ra b1] eqn:Ea.
    exists p, w0, tenc, ra, b1. auto.
  - left. exists e, w0, tenc. auto.
Qed.

(** An [addEntry] call found in the run of [handleAddEntry] carries the
    payload built from the form, and the run consists of that call between
    the encryptions and the refresh. *)
Lemma handleAddEntry_submits (snap s : State K) (w : World B)
  (p : EntryPayload) (r : res unit) :
  In (EvAddEntry p r) (traceOf (handleAddEntry c snap s w)) ->
  exists k w0 tenc b1 rest,
    aesKey snap = Some k /\
    encryptFields c k (ne_website (newEntry snap)) (ne_username (newEntry snap))
      (ne_password (newEntry snap)) (ne_notes (newEntry snap)) w
    = (Ok p, w0, tenc) /\
    addEntry c p (backend w0) = (r, b1) /\
    traceOf (handleAddEntry c snap s w)
    = EvPreventDefault :: tenc ++ EvAddEntry p r :: rest /\
    Forall (fun ev => is_encrypt ev = true) tenc /\
    match r with
    | Ok _ =>
        let s2 :=
          setNewEntry (mkNewEntry "" "" "" "")
            (setShowAddForm false (setError "" (setIsAdding true s))) in
        rest = traceOf (handleUnlock c snap s2 (withBackend b1 w0)) /\
        stateOf (handleAddEntry c snap s w)
        = setIsAdding false
            (stateOf (handleUnlock c snap s2 (withBackend b1 w0)))
    | Throw e =>
        rest = [EvConsoleError e] /\
        stateOf (handleAddEntry c snap s w)
        = setIsAdding false
            (setError msgAddFailed (setError "" (setIsAdding true s)))
    end.
Proof.
  unfold handleAddEntry. cbv zeta.
  destruct (aesKey snap) as [k|] eqn:Ek.
  2:{ simpl. intros [H|[]]. discriminate. }
  destruct (addTry_run k (newEntry snap) w)
    as [(e & w' & tenc & E & Henc)|(p0 & w0 & tenc & ra & b1 & Eenc & Ea & E)];
    rewrite E.
  - unfold traceOf. simpl. intros [H|H]; [discriminate|]. exfalso.
    apply in_app_or in H. destruct H as [H|[H|[]]]; [|discriminate].
    rewrite Forall_forall in Henc. apply Henc in H. discriminate.
  - pose proof (encryptFields_events k (ne_website (newEntry snap))
                  (ne_username (newEntry snap)) (ne_password (newEntry snap))
                  (ne_notes (newEntry snap)) w) as Henc.
    rewrite Eenc in Henc. simpl in Henc.
    assert (Hnot : forall l,
               In (EvAddEntry p r) (tenc ++ [EvAddEntry p0 ra] ++ l) ->
               (p = p0 /\ r = ra) \/ In (EvAddEntry p r) l).
    { intros l H. apply in_app_or in H. destruct H as [H|[H|H]].
      - rewrite Forall_forall in Henc. apply Henc in H. discriminate.
      - injection H as <- <-. now left.
      - now right. }
    destruct ra as [u|e].
    + pose proof (handleUnlock_events c snap
                    (setNewEntry (mkNewEntry "" "" "" "")
                       (setShowAddForm false
                          (setError "" (setIsAdding true s))))
                    (withBackend b1 w0)) as Hun.
      destruct (handleUnlock c snap _ (withBackend b1 w0))
        as [[s3 w2] t2] eqn:Eu.
      unfold traceOf, stateOf in *. simpl in *.
      intros [H|H]; [discriminate|].
      rewrite <- app_assoc in H. apply Hnot in H.
      destruct H as [[-> ->]|H].
      * exists k, w0, tenc, b1, t2. rewrite <- app_assoc. simpl.
        rewrite Eu. simpl.
        repeat (split; [reflexivity || assumption|]). split; reflexivity.
      * rewrite Forall_forall in Hun. apply Hun in H. discriminate.
    + unfold traceOf, stateOf. simpl.
      intros [H|H]; [discriminate|].
      rewrite <- app_assoc in H. apply Hnot in H.
      destruct H as [[-> ->]|[H|[]]]; [|discriminate].
      exists k, w0, tenc, b1, [EvConsoleError e]. rewrite <- app_assoc. simpl.
      repeat (split; [reflexivity || assumption|]). split; reflexivity.
Qed.
End AddFlow.

(** ** Rejected attempts *)

(** Whatever failed, the state after is [unlockRejected]. *)
Lemma failure_rejected {B K : Type} (c : Collab B K) (snap s s' : State K)
  (w w' : World B) (tr : list Event) :
  handleUnlock c snap s w = (s', w', tr) ->
  UnlockFailure tr -> s' = unlockRejected s.
Proof.
  intros Hrun Hfail.
  destruct (handleUnlock_outcome c snap s w)
    as (s1 & w1 & tr1 & E & _ & Hcases).
  rewrite Hrun in E. injection E as <- <- <-.
  destruct Hcases as [(e & tr0 & Hs' & _)|Hphase]; [exact Hs'|].
  destruct Hphase as (resp & method & ver & rv & trd & Hs & Hm & Hv & Hd & Hend).
  destruct Hend as [(e & Hs' & _)|(k & ds & _ & -> & _ & Hok & _)];
    [exact Hs'|].
  exfalso. revert Hfail. now apply completed_trace_no_failure.
Qed.

(** ** The first call of an attempt *)

(** Every run of [handleUnlock] starts by asking the server for the salt
    and the challenge. *)
Lemma handleUnlock_starts_with_fetch {B K : Type} (c : Collab B K)
  (snap s : State K) (w : World B) :
  exists rs rest,
    traceOf (handleUnlock c snap s w) = EvGetEncryptionSalt rs :: rest.
Proof.
  destruct (unlockTry_shape c (masterPassword snap) w)
    as (r & w' & tr & E & _ & (rs & rest & ->) & _).
  unfold traceOf, handleUnlock. rewrite E.
  destruct r as [[k ds]|e]; simpl; eauto.
Qed.

(** ** The session invariant *)

Section Invariant.
Context {B K : Type} (c : Collab B K).

Lemma sessionInv_timerInv (s : State K) (w : World B) :
  sessionInv s w -> timerInv s w.
Proof.
  intros (Hn & Hu & Hl). split; [exact Hn|].
  intros h d Hin. destruct (vaultUnlocked s) eqn:E.
  - destruct (Hu eq_refl) as (_ & h0 & d0 & Hh & Href & Ht).
    rewrite Ht in Hin. destruct Hin as [Hin|[]]. injection Hin as <- <-.
    auto.
  - destruct (Hl eq_refl) as (_ & Ht). rewrite Ht in Hin. destruct Hin.
Qed.

Lemma sessionInv_armed (s : State K) (w : World B) :
  sessionInv s w -> vaultUnlocked s = true -> exists due, armed s w due.
Proof.
  intros (Hn & Hu & _) E.
  destruct (Hu E) as (Hl & h & d & Hh & Href & Ht).
  exists d. split; [exact E|]. split; [exact Hl|]. split; [exact Hn|].
  exists h. split; [lia|]. split; assumption.
Qed.

Lemma armed_sessionInv (s : State K) (w : World B) (due : Z) :
  armed s w due ->
  (forall h d, In (h, d) (timers w) -> h < nextHandle w) ->
  sessionInv s w.
Proof.
  intros (E & Hl & Hn & h & Hh & Href & Ht) Hlt.
  split; [exact Hn|]. split.
  - intros _. split; [exact Hl|]. exists h, due.
    split; [|split; assumption].
    split; [exact Hh|]. apply (Hlt h due). rewrite Ht. now left.
  - intros E'. congruence.
Qed.

Lemma handleUnlock_neutral (snap s : State K) (w : World B) :
  sessionNeutral s w (handleUnlock c snap s w).
Proof.
  destruct (handleUnlock_outcome c snap s w)
    as (s1 & w1 & tr1 & E & Hw & _).
  destruct (handleUnlock_state c snap s w) as [Hs|(k & ds & Hs)];
    unfold sessionNeutral, stateOf, worldOf; rewrite Hs; rewrite E; simpl;
    auto.
Qed.

Lemma encryptFields_world (k : K) (web user pass note : string)
  (w : World B) :
  exists b,
    snd (fst (encryptFields c k web user pass note w)) = withBackend b w.
Proof.
  unfold encryptFields, awaitEncryptData, bind, emit, ret. simpl.
  destruct (encryptData c web k (backend w)) as [[ew|e] b1]; simpl;
    [|now eexists].
  destruct (encryptData c user k b1) as [[eu|e] b2]; simpl; [|now eexists].
  destruct (encryptData c pass k b2) as [[ep|e] b3]; simpl; [|now eexists].
  destruct (String.eqb note ""); simpl; [now eexists|].
  destruct (encryptData c note k b3) as [[en|e] b4]; simpl; now eexists.
Qed.

Lemma handleAddEntry_neutral (snap s : State K) (w : World B) :
  sessionNeutral s w (handleAddEntry c snap s w).
Proof.
  unfold handleAddEntry.
  destruct (aesKey snap) as [k|].
  2:{ unfold sessionNeutral, stateOf, worldOf. simpl.
      split; [reflexivity|]. split; [now left|].
      exists (backend w). now destruct w. }
  destruct (encryptFields_world k (ne_website (newEntry snap))
              (ne_username (newEntry snap)) (ne_password (newEntry snap))
              (ne_notes (newEntry snap)) w) as [b0 Hb0].
  unfold addTry, bind, callB.
  destruct (encryptFields c k _ _ _ _ w) as [[[p|e] w0] tenc];
    simpl in Hb0; subst w0.
  - destruct (addEntry c p (backend (withBackend b0 w))) as [[u|e] b1].
    + pose proof (handleUnlock_neutral snap
                    (setNewEntry (mkNewEntry "" "" "" "")
                       (setShowAddForm false
                          (setError "" (setIsAdding true s))))
                    (withBackend b1 (withBackend b0 w))) as Hn.
      destruct (handleUnlock c snap _ (withBackend b1 (withBackend b0 w)))
        as [[s3 w2] t2].
      destruct Hn as (Hr & Hv & b' & Hw').
      unfold sessionNeutral, stateOf, worldOf in *. simpl in *.
      split; [exact Hr|]. split; [exact Hv|]. exists b'. exact Hw'.
    + unfold sessionNeutral, stateOf, worldOf. simpl.
      split; [reflexivity|]. split; [now left|]. now exists b1.
  - unfold sessionNeutral, stateOf, worldOf. simpl.
    split; [reflexivity|]. split; [now left|]. now exists b0.
Qed.

Lemma handleUpdateEntry_neutral (snap s : State K) (w : World B) :
  sessionNeutral s w (handleUpdateEntry c snap s w).
Proof.
  unfold handleUpdateEntry.
  destruct (aesKey snap) as [k|].
  2:{ unfold sessionNeutral, stateOf, worldOf. simpl.
      split; [reflexivity|]. split; [now left|].
      exists (backend w). now destruct w. }
  unfold updateTry.
  destruct (editingEntry snap) as [ed|].
  2:{ unfold throw, sessionNeutral, stateOf, worldOf. simpl.
      split; [reflexivity|]. split; [now left|].
      exists (backend w). now destruct w. }
  destruct (encryptFields_world k (decryptedWebsite ed)
              (decryptedUsername ed) (decryptedPassword ed)
              (decryptedNotes ed) w) as [b0 Hb0].
  unfold bind, callB.
  destruct (encryptFields c k _ _ _ _ w) as [[[p|e] w0] tenc];
    simpl in Hb0; subst w0.
  - destruct (updateEntry c (_id (entry ed)) p (backend (withBackend b0 w)))
      as [[u|e] b1].
    + pose proof (handleUnlock_neutral snap
                    (setEditingEntry None
                       (setError "" (setIsUpdating true s)))
                    (withBackend b1 (withBackend b0 w))) as Hn.
      destruct (handleUnlock c snap _ (withBackend b1 (withBackend b0 w)))
        as [[s3 w2] t2].
      destruct Hn as (Hr & Hv & b' & Hw').
      unfold sessionNeutral, stateOf, worldOf in *. simpl in *.
      split; [exact Hr|]. split; [exact Hv|]. exists b'. exact Hw'.
    + unfold sessionNeutral, stateOf, worldOf. simpl.
      split; [reflexivity|]. split; [now left|]. now exists b1.
  - unfold sessionNeutral, stateOf, worldOf. simpl.
    split; [reflexivity|]. split; [now left|]. now exists b0.
Qed.

Lemma handleDelete_neutral (entryId : string) (confirmed : bool)
  (snap s : State K) (w : World B) :
  sessionNeutral s w (handleDelete c entryId confirmed snap s w).
Proof.
  unfold handleDelete, callB.
  destruct confirmed; simpl.
  2:{ unfold sessionNeutral, stateOf, worldOf. simpl.
      split; [reflexivity|]. split; [now left|].
      exists (backend w). now destruct w. }
  destruct (deleteEntry c entryId (backend w)) as [[u|e] b1].
  - pose proof (handleUnlock_neutral snap s (withBackend b1 w)) as Hn.
    destruct (handleUnlock c snap s (withBackend b1 w)) as [[s3 w2] t2].
    destruct Hn as (Hr & Hv & b' & Hw').
    unfold sessionNeutral, stateOf, worldOf in *. simpl in *.
    split; [exact Hr|]. split; [exact Hv|]. exists b'. exact Hw'.
  - unfold sessionNeutral, stateOf, worldOf. simpl.
    split; [reflexivity|]. split; [now left|]. now exists b1.
Qed.
End Invariant.

Section InvariantSteps.
Context {B K : Type} (c : Collab B K).

(** The render after a session-neutral handler keeps the invariant, keeps
    an unlocked session unlocked, and changes nothing of the state but
    [timeoutRef]. *)
Lemma commit_after_neutral (s : State K) (w : World B)
  (r : State K * World B * list Event) :
  sessionInv s w -> sessionNeutral s w r ->
  let r' := commitEffect (vaultUnlocked s) (stateOf r) (worldOf r) in
  sessionInv (stateOf r') (worldOf r') /\
  (vaultUnlocked s = true -> vaultUnlocked (stateOf r') = true) /\
  stateOf r' = setTimeoutRef (timeoutRef (stateOf r')) (stateOf r).
Proof.
  intros (Hn & Hu & Hl) (Hr & Hv & b & Hw). cbv zeta.
  destruct r as [[s1 w1] t1]. unfold stateOf, worldOf in *. simpl in *.
  subst w1.
  assert (Hsame : vaultUnlocked s1 = vaultUnlocked s ->
            sessionInv s1 (withBackend b w) /\
            (vaultUnlocked s = true -> vaultUnlocked s1 = true) /\
            s1 = setTimeoutRef (timeoutRef s1) s1).
  { intros E. split; [|split].
    - unfold sessionInv. simpl. rewrite E, Hr. auto.
    - congruence.
    - now destruct s1. }
  unfold commitEffect.
  destruct (Bool.bool_dec (vaultUnlocked s1) (vaultUnlocked s)) as [E|E].
  - rewrite E, Bool.eqb_reflx. simpl. now apply Hsame.
  - assert (Es1 : vaultUnlocked s1 = true) by (destruct Hv; congruence).
    assert (Es : vaultUnlocked s = false)
      by (destruct (vaultUnlocked s); congruence).
    rewrite Es, Es1. simpl.
    destruct (Hl Es) as (_ & Ht).
    unfold effectBody, resetAutoLockTimer, clearTimeout, setTimeout.
    rewrite Es1. simpl.
    destruct (timeoutRef s1) as [h0|]; simpl; [destruct (h0 =? 0); simpl|];
      rewrite ?Ht; simpl.
    all: split; [|split; [discriminate|reflexivity]].
    all: split; [simpl; lia|]; simpl; rewrite Es1.
    all: split; [|discriminate]; intros _; split; [reflexivity|].
    all: exists (nextHandle w), (now w + AUTO_LOCK_TIME).
    all: repeat split; lia.
Qed.

(** A handler that only sets cells other than the flag and [timeoutRef]. *)
Lemma setter_neutral (s s1 : State K) (w : World B) :
  timeoutRef s1 = timeoutRef s -> vaultUnlocked s1 = vaultUnlocked s ->
  sessionNeutral s w (s1, w, []).
Proof.
  intros Hr Hv. split; [exact Hr|]. split; [now left|].
  exists (backend w). now destruct w.
Qed.

(** Every input keeps the invariant. *)
Lemma step_sessionInv (i : Input) (s : State K) (w : World B) :
  sessionInv s w ->
  sessionInv (stateOf (step c i s w)) (worldOf (step c i s w)).
Proof.
  intros Hinv.
  assert (Hcommit : forall r,
             sessionNeutral s w r ->
             sessionInv
               (stateOf (let '(s1, w1, t1) := r in
                         let '(s2, w2, t2) :=
                           commitEffect (vaultUnlocked s) s1 w1 in
                         (s2, w2, t1 ++ t2)))
               (worldOf (let '(s1, w1, t1) := r in
                         let '(s2, w2, t2) :=
                           commitEffect (vaultUnlocked s) s1 w1 in
                         (s2, w2, t1 ++ t2)))).
  { intros r Hneu.
    pose proof (commit_after_neutral s w r Hinv Hneu) as [H _].
    destruct r as [[s1 w1] t1]. unfold stateOf, worldOf in *. simpl in *.
    destruct (commitEffect (vaultUnlocked s) s1 w1) as [[s2 w2] t2].
    exact H. }
  destruct i; unfold step.
  - apply (Hcommit (setMasterPassword v s, w, [])).
    now apply setter_neutral.
  - apply (Hcommit (handleUnlock c s s w)). apply handleUnlock_neutral.
  - apply (Hcommit (setShowAddForm v s, w, [])). now apply setter_neutral.
  - apply (Hcommit (setNewEntry v s, w, [])). now apply setter_neutral.
  - apply (Hcommit (handleAddEntry c s s w)). apply handleAddEntry_neutral.
  - apply (Hcommit (setEditingEntry v s, w, [])).
    now apply setter_neutral.
  - apply (Hcommit (handleUpdateEntry c s s w)).
    apply handleUpdateEntry_neutral.
  - apply (Hcommit (handleDelete c entryId confirmed s s w)).
    apply handleDelete_neutral.
  - destruct (vaultUnlocked s) eqn:Es.
    + destruct (sessionInv_armed s w Hinv Es) as [due Harm].
      destruct (handleActivity_rearms s w due Harm) as [Harm' _].
      destruct Harm as (_ & Hl & _ & h & Hh & Href & Ht).
      assert (Hnoop : commitEffect true
                        (fst (fst (handleActivity s w)))
                        (snd (fst (handleActivity s w)))
                      = (fst (fst (handleActivity s w)),
                         snd (fst (handleActivity s w)), [])).
      { unfold commitEffect. destruct Harm' as (-> & _). reflexivity. }
      destruct (handleActivity s w) as [[s1 w1] t1] eqn:Eact.
      simpl in Hnoop. rewrite Hnoop. unfold stateOf, worldOf. simpl.
      simpl in Harm'. apply (armed_sessionInv _ _ _ Harm').
      revert Eact. unfold handleActivity, resetAutoLockTimer, clearTimeout,
        setTimeout. rewrite Hl, Href. simpl.
      assert (E0 : (h =? 0) = false) by (apply Z.eqb_neq; lia).
      rewrite E0, Ht. simpl. rewrite Z.eqb_refl. simpl.
      intros Eact. injection Eact as <- <- <-. simpl.
      intros h' d' [Hin|[]]. injection Hin as <- <-. lia.
    + destruct Hinv as (Hn & Hu & Hl). destruct (Hl Es) as (Hlis & Ht).
      unfold handleActivity. rewrite Hlis.
      unfold commitEffect. rewrite Es. simpl.
      unfold stateOf, worldOf. simpl.
      split; [exact Hn|]. split; [exact Hu|exact Hl].
  - destruct (vaultUnlocked s) eqn:Es.
    + destruct (sessionInv_armed s w Hinv Es) as [due Harm].
      destruct (Z_lt_le_dec t due) as [Hlt|Hle].
      * rewrite (advance_before_due s w due t Harm Hlt).
        unfold stateOf, worldOf. simpl. exact Hinv.
      * destruct (advance_after_due s w due t Harm Hle)
          as (Hv & Ht & _ & Hlis & Hnh).
        unfold stateOf, worldOf.
        split; [rewrite Hnh; apply Hinv|].
        split; [congruence|]. auto.
    + destruct Hinv as (Hn & Hu & Hl). destruct (Hl Es) as (Hlis & Ht).
      unfold advance. rewrite Ht. simpl.
      unfold stateOf, worldOf. simpl.
      split; [exact Hn|]. split; [exact Hu|exact Hl].
Qed.

(** So does every sequence of inputs, and a freshly mounted component in a
    browser with no timer pending starts inside the invariant. *)
Lemma run_sessionInv (l : list Input) (s : State K) (w : World B) :
  sessionInv s w ->
  sessionInv (stateOf (run c l s w)) (worldOf (run c l s w)).
Proof.
  revert s w. induction l as [|i l IH]; intros s w Hinv; simpl.
  - exact Hinv.
  - pose proof (step_sessionInv i s w Hinv) as H1.
    destruct (step c i s w) as [[s1 w1] t1]. unfold stateOf, worldOf in H1.
    simpl in H1. specialize (IH s1 w1 H1).
    destruct (run c l s1 w1) as [[s2 w2] t2]. exact IH.
Qed.

Lemma initial_sessionInv (b : B) (t n : Z) :
  0 < n -> sessionInv (@initialState K) (mkWorld b t [] n false).
Proof.
  intros Hn. split; [exact Hn|]. split; [discriminate|].
  intros _. split; reflexivity.
Qed.
End InvariantSteps.

Section Transitions.
Context {B K : Type} (c : Collab B K).

(** While the timer is armed, an activity signal causes no effect to run:
    the step is [handleActivity] alone. *)
Lemma step_activity_armed (s : State K) (w : World B) (due : Z) :
  armed s w due ->
  stateOf (step c Activity s w) = stateOf (handleActivity s w) /\
  worldOf (step c Activity s w) = worldOf (handleActivity s w).
Proof.
  intros Harm.
  destruct (handleActivity_rearms s w due Harm) as [(Hu' & _) _].
  destruct Harm as (Hu & _).
  unfold step. destruct (handleActivity s w) as [[s1 w1] t1].
  simpl in Hu'. unfold commitEffect. rewrite Hu, Hu'. simpl.
  split; reflexivity.
Qed.

(** Unlocking a locked session arms the timer one [AUTO_LOCK_TIME] ahead
    of the time of the click. *)
Lemma step_unlock_arms (s : State K) (w : World B) :
  sessionInv s w -> vaultUnlocked s = false ->
  vaultUnlocked (stateOf (step c ClickUnlock s w)) = true ->
  armed (stateOf (step c ClickUnlock s w)) (worldOf (step c ClickUnlock s w))
        (now w + AUTO_LOCK_TIME) /\
  now (worldOf (step c ClickUnlock s w)) = now w.
Proof.
  intros (Hn & _ & Hl) Es. destruct (Hl Es) as (_ & Ht).
  destruct (handleUnlock_neutral c s s w) as (_ & _ & b & Hw).
  unfold step. rewrite Es.
  destruct (handleUnlock c s s w) as [[s1 w1] t1].
  unfold worldOf in Hw. simpl in Hw. subst w1.
  destruct (vaultUnlocked s1) eqn:Es1.
  - intros _.
    pose proof (commitEffect_arms s1 (withBackend b w) Es1 Ht Hn) as H.
    destruct (commitEffect false s1 (withBackend b w)) as [[s2 w2] t2].
    exact H.
  - unfold commitEffect. rewrite Es1. simpl. unfold stateOf. simpl.
    congruence.
Qed.

(** From an unlocked session an input either leaves it unlocked or wipes
    it, with no timer pending and the listeners removed. *)
Lemma step_from_unlocked (i : Input) (s : State K) (w : World B) :
  sessionInv s w -> vaultUnlocked s = true ->
  vaultUnlocked (stateOf (step c i s w)) = true \/
  (wiped (stateOf (step c i s w)) /\
   timers (worldOf (step c i s w)) = [] /\
   listening (worldOf (step c i s w)) = false).
Proof.
  intros Hinv Es.
  assert (Hcommit : forall r,
             sessionNeutral s w r ->
             vaultUnlocked
               (stateOf (let '(s1, w1, t1) := r in
                         let '(s2, w2, t2) :=
                           commitEffect (vaultUnlocked s) s1 w1 in
                         (s2, w2, t1 ++ t2))) = true).
  { intros r Hneu.
    pose proof (commit_after_neutral s w r Hinv Hneu) as (_ & H & _).
    destruct r as [[s1 w1] t1]. unfold stateOf, worldOf in *. simpl in *.
    destruct (commitEffect (vaultUnlocked s) s1 w1) as [[s2 w2] t2].
    exact (H Es). }
  destruct (sessionInv_armed s w Hinv Es) as [due Harm].
  destruct i; unfold step.
  - left. apply (Hcommit (setMasterPassword v s, w, [])).
    now apply setter_neutral.
  - left. apply (Hcommit (handleUnlock c s s w)). apply handleUnlock_neutral.
  - left. apply (Hcommit (setShowAddForm v s, w, [])).
    now apply setter_neutral.
  - left. apply (Hcommit (setNewEntry v s, w, [])). now apply setter_neutral.
  - left. apply (Hcommit (handleAddEntry c s s w)).
    apply handleAddEntry_neutral.
  - left. apply (Hcommit (setEditingEntry v s, w, [])).
    now apply setter_neutral.
  - left. apply (Hcommit (handleUpdateEntry c s s w)).
    apply handleUpdateEntry_neutral.
  - left. apply (Hcommit (handleDelete c entryId confirmed s s w)).
    apply handleDelete_neutral.
  - left. fold (step c Activity s w).
    destruct (step_activity_armed s w due Harm) as [-> _].
    apply (handleActivity_rearms s w due Harm).
  - destruct (Z_lt_le_dec t due) as [Hlt|Hle].
    + left. rewrite (advance_before_due s w due t Harm Hlt). exact Es.
    + right. destruct (advance_after_due s w due t Harm Hle)
        as (_ & Ht & Hw & Hlis & _).
      unfold stateOf, worldOf. auto.
Qed.
End Transitions.

(** ** Waiting runs every due timer *)

Section Fuel.
Context {B K : Type}.

Lemma nextDue_In (t : Z) (l : list (Z * Z)) (h d : Z) :
  nextDue t l = Some (h, d) -> In (h, d) l.
Proof.
  revert h d. induction l as [|[h0 d0] l IH]; simpl; intros h d H;
    [discriminate|].
  destruct (d0 <=? t).
  - destruct (nextDue t l) as [[h' d']|].
    + destruct ((d' <? d0) || ((d' =? d0) && (h' <? h0))).
      * right. apply IH. exact H.
      * left. now injection H as <- <-.
    + left. now injection H as <- <-.
  - right. apply IH. exact H.
Qed.

Lemma filter_drops {A : Type} (f : A -> bool) (l : list A) (x : A) :
  In x l -> f x = false -> (length (filter f l) < length l)%nat.
Proof.
  induction l as [|a l IH]; simpl; intros Hin Hx; [contradiction|].
  destruct Hin as [->|Hin].
  - rewrite Hx. pose proof (filter_length_le f l). lia.
  - specialize (IH Hin Hx). destruct (f a); simpl; lia.
Qed.

Lemma clearTimeout_timers (h : Z) (w : World B) :
  (length (timers (fst (clearTimeout h w))) <= length (timers w))%nat.
Proof. unfold clearTimeout. simpl. apply filter_length_le. Qed.

(** A timer that runs leaves fewer timers pending than before. *)
Lemma fireAutoLock_shrinks (t h d : Z) (s : State K) (w : World B) :
  nextDue t (timers w) = Some (h, d) ->
  (length (timers (worldOf (fireAutoLock h d s w))) < length (timers w))%nat.
Proof.
  intros Hdue. apply nextDue_In in Hdue.
  set (keep := fun p : Z * Z => negb (fst p =? h)).
  assert (Hlt : (length (filter keep (timers w)) < length (timers w))%nat).
  { apply (filter_drops _ _ (h, d) Hdue). unfold keep. simpl.
    now rewrite Z.eqb_refl. }
  unfold fireAutoLock, worldOf. fold keep.
  set (w0 := withNow (Z.max (now w) d)
               (withTimers (filter keep (timers w)) w)).
  assert (H0 : length (timers w0) = length (filter keep (timers w)))
    by reflexivity.
  assert (H1 : (length (timers (snd (fst (lockVault s w0))))
                <= length (timers w0))%nat
               /\ vaultUnlocked (fst (fst (lockVault s w0))) = false).
  { unfold lockVault.
    destruct (timeoutRef s) as [h1|]; simpl; [destruct (h1 =? 0); simpl|];
      split; try reflexivity; try lia.
    apply filter_length_le. }
  destruct (lockVault s w0) as [[s1 w1] t1]. simpl in H1.
  destruct H1 as [H1 Hs1].
  assert (H2 : (length (timers (snd (fst (commitEffect (vaultUnlocked s)
                                                        s1 w1))))
                <= length (timers w1))%nat).
  { unfold commitEffect, effectCleanup, effectBody, clearTimeout.
    rewrite Hs1.
    destruct (vaultUnlocked s); simpl; [|lia].
    destruct (timeoutRef s1) as [h2|]; simpl; [destruct (h2 =? 0); simpl|];
      rewrite ?Hs1; simpl; try lia.
    apply filter_length_le. }
  destruct (commitEffect (vaultUnlocked s) s1 w1) as [[s2 w2] t2].
  simpl in *. lia.
Qed.

Lemma advanceFuel_complete (fuel : nat) (t : Z) (s : State K) (w : World B) :
  (length (timers w) <= fuel)%nat ->
  nextDue t (timers (worldOf (advanceFuel fuel t s w))) = None.
Proof.
  revert s w. induction fuel as [|fuel IH]; intros s w Hlen; simpl.
  - destruct (timers w) eqn:Et; [|simpl in Hlen; lia].
    unfold worldOf. simpl. now rewrite Et.
  - destruct (nextDue t (timers w)) as [[h d]|] eqn:Edue.
    + pose proof (fireAutoLock_shrinks t h d s w Edue) as Hlt.
      destruct (fireAutoLock h d s w) as [[s1 w1] t1].
      unfold worldOf in Hlt. simpl in Hlt.
      assert (Hfuel : (length (timers w1) <= fuel)%nat) by lia.
      specialize (IH s1 w1 Hfuel).
      destruct (advanceFuel fuel t s1 w1) as [[s2 w2] t2]. exact IH.
    + unfold worldOf. simpl. exact Edue.
Qed.

(** After waiting until [t], however many timers were pending, none that is
    due at [t] is left: the fuel of [advance] is enough. *)
Lemma advance_complete (t : Z) (s : State K) (w : World B) :
  nextDue t (timers (worldOf (advance t s w))) = None.
Proof.
  pose proof (advanceFuel_complete (length (timers w)) t s w (Nat.le_refl _))
    as H.
  unfold advance.
  destruct (advanceFuel (length (timers w)) t s w) as [[s1 w1] t1].
  exact H.
Qed.
End Fuel.

(** ** The storage contract *)

Section Storage.
Context {B K : Type} (c : Collab B K).

(** A vault fetched in a run of [handleUnlock] is what [getEncryptedVault]
    returned after the salt fetch of that run. *)
Lemma handleUnlock_fetched (snap s : State K) (w : World B)
  (rv : VaultResponse) :
  In (EvGetEncryptedVault (Ok rv)) (traceOf (handleUnlock c snap s w)) ->
  exists resp b1 b2,
    getEncryptionSalt c (backend w) = (Ok resp, b1) /\
    getEncryptedVault c b1 = (Ok rv, b2).
Proof.
  unfold traceOf, handleUnlock.
  destruct (unlockTry_shape c (masterPassword snap) w)
    as (r & w' & tr & E & _ & _ & [(e & -> & _ & Hnf)|Hphase]); rewrite E.
  - simpl. intros Hin. apply in_app_or in Hin.
    destruct Hin as [Hin|[Hin|[]]]; [|discriminate].
    now apply Hnf in Hin.
  - destruct Hphase
      as (resp & method & ver & rv0 & k & rd & trd & -> & _ & _ & _ & Ed & ->
          & b1 & b2 & Es & Ef).
    destruct (decryptAll_run c k (data rv0) w')
      as (rd' & trd' & Ed' & Hdec & _).
    rewrite Ed in Ed'. injection Ed' as <- <-.
    intros Hin.
    assert (Hrv : Ok rv = Ok rv0).
    { destruct rd as [ds|e]; simpl in Hin.
      - apply (verified_trace_vault (masterPassword snap) method resp ver rv0
                 trd [] (Ok rv) Hdec); [tail_free|].
        now rewrite app_nil_r.
      - apply (verified_trace_vault (masterPassword snap) method resp ver rv0
                 trd [EvConsoleError e] (Ok rv) Hdec); [tail_free|].
        now rewrite app_assoc. }
    injection Hrv as ->. now exists resp, b1, b2.
Qed.

(** Encrypting the fields of a form leaves the stored records alone. *)
Lemma encryptFields_stored (stored : B -> list VaultEntry)
  (k : K) (web user pass note : string) (w : World B) :
  storageContract c stored ->
  stored (backend (snd (fst (encryptFields c k web user pass note w))))
  = stored (backend w).
Proof.
  intros (_ & Henc & _).
  unfold encryptFields, awaitEncryptData, bind, emit, ret. simpl.
  pose proof (Henc web k (backend w)) as H1.
  destruct (encryptData c web k (backend w)) as [[ew|e] b1]; simpl in *;
    [|exact H1].
  pose proof (Henc user k b1) as H2.
  destruct (encryptData c user k b1) as [[eu|e] b2]; simpl in *;
    [|congruence].
  pose proof (Henc pass k b2) as H3.
  destruct (encryptData c pass k b2) as [[ep|e] b3]; simpl in *;
    [|congruence].
  destruct (String.eqb note ""); simpl; [congruence|].
  pose proof (Henc note k b3) as H4.
  destruct (encryptData c note k b3) as [[en|e] b4]; simpl in *; congruence.
Qed.
End Storage.

(** ** Where the password for the key comes from *)

Section PasswordUse.
Context {B K : Type} (c : Collab B K).

(** Every key derivation of the [try] block is for the password it was
    given, and the key it yields was derived from that password. *)
Lemma unlockTry_derives (pw : string) (w : World B) :
  (forall pw' m, In (EvDeriveKey pw' m) (snd (unlockTry c pw w)) ->
                 pw' = pw) /\
  (forall k ds,
      fst (fst (unlockTry c pw w)) = Ok (k, ds) ->
      derivedFrom c pw k (backend w) /\
      exists m, In (EvDeriveKey pw m) (snd (unlockTry c pw w))).
Proof.
  unfold unlockTry, bind, callB, liftRes, emit, awaitCreateHMAC, throw, ret,
    derivedFrom.
  destruct (getEncryptionSalt c (backend w)) as [[resp|e0] b1] eqn:Esalt.
  2:{ split; [intros pw' m H; simpl in H; intuition discriminate|].
      intros k ds H. discriminate. }
  destruct resp as [[salt|] [method|] [ver|]]; simpl.
  all: try (destruct (String.eqb salt "") eqn:Es; simpl).
  all: try (destruct (String.eqb method "") eqn:Em; simpl).
  all: try solve
    [ split; [intros pw' m H; simpl in H; intuition discriminate|];
      intros k ds H; discriminate ].
  destruct (base64ToBuffer c salt) as [buf|e1] eqn:Ebuf; simpl.
  2:{ split; [intros pw' m H; simpl in H; intuition discriminate|].
      intros k ds H. discriminate. }
  destruct (deriveKey c pw buf method) as [[aesK hmacKey]|e2] eqn:Eder; simpl.
  2:{ split; [|intros k ds H; discriminate].
      intros pw' m [H|[H|[]]]; [discriminate|]. now injection H as <- _. }
  destruct (createHMAC c hmacKey (secret ver)) as [tag|e3]; simpl.
  2:{ split; [|intros k ds H; discriminate].
      intros pw' m [H|[H|[H|[]]]]; try discriminate. now injection H as <- _. }
  destruct (String.eqb tag (hmac ver)); simpl.
  2:{ split; [|intros k ds H; discriminate].
      intros pw' m [H|[H|[H|[]]]]; try discriminate. now injection H as <- _. }
  destruct (getEncryptedVault c b1) as [[rv|e4] b2]; simpl.
  2:{ split; [|intros k ds H; discriminate].
      intros pw' m [H|[H|[H|[H|[]]]]]; try discriminate.
      now injection H as <- _. }
  destruct (decryptAll_run c aesK (data rv) (withBackend b2 (withBackend b1 w)))
    as (rd & trd & Ed & Hdec & _).
  rewrite Ed.
  rewrite Forall_forall in Hdec.
  assert (Hno : forall pw' m l, In (EvDeriveKey pw' m) (trd ++ l) ->
                                In (EvDeriveKey pw' m) l).
  { intros pw' m l H. apply in_app_or in H. destruct H as [H|H]; [|exact H].
    apply Hdec in H. discriminate. }
  split.
  - intros pw' m H.
    destruct rd; simpl in H;
      destruct H as [H|[H|[H|[H|H]]]]; try discriminate;
      try (now injection H as <- _); exfalso;
      first [apply Hdec in H; discriminate | apply Hno in H; destruct H].
  - intros k ds H. destruct rd as [ds'|e5]; simpl in H; [|discriminate].
    injection H as <- <-. split.
    + exists (mkSaltResponse (Some salt) (Some method) (Some ver)), b1, salt,
        method, buf, hmacKey. simpl. auto.
    + exists method. simpl. auto.
Qed.

Lemma handleUnlock_derives (snap s : State K) (w : World B) :
  (forall pw m,
      In (EvDeriveKey pw m) (traceOf (handleUnlock c snap s w)) ->
      pw = masterPassword snap) /\
  masterPassword (stateOf (handleUnlock c snap s w)) = masterPassword s /\
  (error (stateOf (handleUnlock c snap s w)) = "" ->
   vaultUnlocked (stateOf (handleUnlock c snap s w)) = true /\
   exists k,
     aesKey (stateOf (handleUnlock c snap s w)) = Some k /\
     derivedFrom c (masterPassword snap) k (backend w) /\
     exists m, In (EvDeriveKey (masterPassword snap) m)
                  (traceOf (handleUnlock c snap s w))).
Proof.
  destruct (unlockTry_derives (masterPassword snap) w) as [Hall Hok].
  unfold handleUnlock, traceOf, stateOf.
  destruct (unlockTry c (masterPassword snap) w) as [[[[k ds]|e] w1] t1];
    simpl in *.
  - split; [exact Hall|]. split; [reflexivity|]. intros _.
    split; [reflexivity|]. exists k. split; [reflexivity|].
    exact (Hok k ds eq_refl).
  - split; [|split; [reflexivity|discriminate]].
    intros pw m H. apply in_app_or in H.
    destruct H as [H|[H|[]]]; [now apply Hall in H|discriminate].
Qed.

(** The events before the refresh of a mutation are no key derivations. *)
Lemma encrypt_events_no_derive (tenc tail : list Event) (pw m : string) :
  Forall (fun ev => is_encrypt ev = true) tenc ->
  (forall x, In x tail -> forall pw' m', x <> EvDeriveKey pw' m') ->
  ~ In (EvDeriveKey pw m) (tenc ++ tail).
Proof.
  intros Henc Htail H. apply in_app_or in H. destruct H as [H|H].
  - rewrite Forall_forall in Henc. apply Henc in H. discriminate.
  - exact (Htail _ H pw m eq_refl).
Qed.

Lemma handleAddEntry_derives (snap s : State K) (w : World B)
  (pw m : string) :
  In (EvDeriveKey pw m) (traceOf (handleAddEntry c snap s w)) ->
  pw = masterPassword snap.
Proof.
  unfold handleAddEntry, traceOf.
  destruct (aesKey snap) as [k|]; [|intros [H|[]]; discriminate].
  destruct (addTry_run c k (newEntry snap) w)
    as [(e & w' & tenc & E & Henc)|(p & w0 & tenc & ra & b1 & Eenc & _ & E)];
    rewrite E.
  - simpl. intros [H|H]; [discriminate|]. exfalso. revert H.
    apply encrypt_events_no_derive; [exact Henc|].
    intros x [<-|[]]. discriminate.
  - pose proof (encryptFields_events c k (ne_website (newEntry snap))
                  (ne_username (newEntry snap)) (ne_password (newEntry snap))
                  (ne_notes (newEntry snap)) w) as Henc.
    rewrite Eenc in Henc. simpl in Henc.
    assert (Hpre : forall l, In (EvDeriveKey pw m)
                               ((tenc ++ [EvAddEntry p ra]) ++ l) ->
                             In (EvDeriveKey pw m) l).
    { intros l H. apply in_app_or in H. destruct H as [H|H]; [|exact H].
      exfalso. revert H. apply encrypt_events_no_derive; [exact Henc|].
      intros x [<-|[]]. discriminate. }
    destruct ra as [u|e].
    + pose proof (handleUnlock_derives snap
                    (setNewEntry (mkNewEntry "" "" "" "")
                       (setShowAddForm false
                          (setError "" (setIsAdding true s))))
                    (withBackend b1 w0)) as [Hd _].
      destruct (handleUnlock c snap _ (withBackend b1 w0)) as [[s3 w2] t2].
      unfold traceOf in Hd. simpl in *.
      intros [H|H]; [discriminate|]. apply Hpre in H. now apply Hd in H.
    + simpl. intros [H|H]; [discriminate|]. apply Hpre in H.
      destruct H as [H|[]]. discriminate.
Qed.

Lemma handleUpdateEntry_derives (snap s : State K) (w : World B)
  (pw m : string) :
  In (EvDeriveKey pw m) (traceOf (handleUpdateEntry c snap s w)) ->
  pw = masterPassword snap.
Proof.
  unfold handleUpdateEntry, traceOf.
  destruct (aesKey snap) as [k|]; [|intros [H|[]]; discriminate].
  assert (Hpre : forall l, In (EvDeriveKey pw m)
                             (snd (updateTry c k (editingEntry snap) w) ++ l) ->
                           In (EvDeriveKey pw m) l).
  { intros l H. apply in_app_or in H. destruct H as [H|H]; [|exact H].
    exfalso. revert H. unfold updateTry.
    destruct (editingEntry snap) as [ed|]; [|intros []].
    pose proof (encryptFields_events c k (decryptedWebsite ed)
                  (decryptedUsername ed) (decryptedPassword ed)
                  (decryptedNotes ed) w) as Henc.
    unfold bind, callB.
    destruct (encryptFields c k (decryptedWebsite ed) (decryptedUsername ed)
                (decryptedPassword ed) (decryptedNotes ed) w)
      as [[[p|e] w0] tenc]; simpl in *.
    - destruct (updateEntry c (_id (entry ed)) p (backend w0)) as [ra b1].
      simpl. apply encrypt_events_no_derive; [exact Henc|].
      intros x [<-|[]]. discriminate.
    - rewrite Forall_forall in Henc. intros H. apply Henc in H.
      discriminate. }
  destruct (updateTry c k (editingEntry snap) w) as [[[u|e] w1] t1];
    simpl in Hpre.
  - pose proof (handleUnlock_derives snap
                  (setEditingEntry None (setError "" (setIsUpdating true s)))
                  w1) as [Hd _].
    destruct (handleUnlock c snap _ w1) as [[s3 w2] t2].
    unfold traceOf in Hd. simpl in *.
    intros [H|H]; [discriminate|]. apply Hpre in H. now apply Hd in H.
  - simpl. intros [H|H]; [discriminate|]. apply Hpre in H.
    destruct H as [H|[]]. discriminate.
Qed.

Lemma handleDelete_derives (entryId : string) (confirmed : bool)
  (snap s : State K) (w : World B) (pw m : string) :
  In (EvDeriveKey pw m) (traceOf (handleDelete c entryId confirmed snap s w)) ->
  pw = masterPassword snap.
Proof.
  unfold handleDelete, traceOf, callB.
  destruct confirmed; simpl; [|intros [H|[]]; discriminate].
  destruct (deleteEntry c entryId (backend w)) as [[u|e] b1].
  - pose proof (handleUnlock_derives snap s (withBackend b1 w)) as [Hd _].
    destruct (handleUnlock c snap s (withBackend b1 w)) as [[s3 w2] t2].
    unfold traceOf in Hd. simpl in *.
    intros [H|[H|H]]; try discriminate. now apply Hd in H.
  - simpl. intros [H|[H|[H|[]]]]; discriminate.
Qed.
End PasswordUse.

(** * The claims *)

(** ** Verification before decryption *)

(** C1.  In every run of [handleUnlock], when the tag computed by
    [createHMAC] differs from the expected tag of the challenge, no
    [decryptData] call is made at all (and the attempt is rejected); and in
    any run, every [decryptData] call comes after the salt response and a
    [createHMAC] call whose result equals that response's expected tag, so
    the verdict exists before decryption begins. *)
Theorem verification_gates_decryption {B K : Type} (c : Collab B K)
  (snap s s' : State K) (w w' : World B) (tr : list Event) :
  handleUnlock c snap s w = (s', w', tr) ->
  (verificationMismatch tr ->
   count_events is_decrypt tr = 0%nat /\ s' = unlockRejected s) /\
  (forall pre ct nonce r post,
      tr = pre ++ EvDecryptData ct nonce r :: post ->
      exists resp ver,
        verification resp = Some ver /\
        In (EvGetEncryptionSalt (Ok resp)) pre /\
        In (EvCreateHMAC (secret ver) (Ok (hmac ver))) pre).
Proof.
  intros Hrun.
  destruct (handleUnlock_outcome c snap s w)
    as (s1 & w1 & tr1 & E & _ & Hcases).
  rewrite Hrun in E. injection E as <- <- <-.
  destruct Hcases as [(e & tr0 & -> & -> & Hnd & _)|Hphase].
  - split.
    + intros _. split; [|reflexivity].
      apply count_events_none, Forall_app. split; [exact Hnd|].
      repeat constructor.
    + intros pre ct nonce r post Heq. exfalso.
      assert (Hin : In (EvDecryptData ct nonce r) (tr0 ++ [EvConsoleError e]))
        by (rewrite Heq; apply in_elt).
      apply in_app_or in Hin. destruct Hin as [Hin|[Hin|[]]]; [|discriminate].
      rewrite Forall_forall in Hnd. apply Hnd in Hin. discriminate.
  - destruct Hphase as (resp & method & ver & rv & trd & _ & _ & Hv & Hd & Hend).
    split.
    + intros Hmis. exfalso.
      destruct Hend as [(e & _ & ->)|(k & ds & _ & -> & _)];
        revert Hmis; apply verified_trace_no_mismatch; auto; tail_free.
    + intros pre ct nonce r post Heq.
      assert (Hpre : exists pre',
                 pre = verifiedPrefix (masterPassword snap) method resp ver rv
                         ++ pre').
      { destruct Hend as [(e & _ & ->)|(k & ds & _ & -> & _)];
          eapply split_after_prefix; try exact Heq; try reflexivity;
          repeat constructor. }
      destruct Hpre as [pre' ->].
      exists resp, ver. split; [exact Hv|].
      split; apply in_or_app; left; simpl; auto.
Qed.

(** The wrong password against the test server: the tags differ and no
    decrypt call is made. *)
Lemma verification_gates_decryption_witness :
  let attempt :=
    handleUnlock TestDouble.collab (TestDouble.typed "wrong")
      (TestDouble.typed "wrong") (TestDouble.world TestDouble.server) in
  verificationMismatch (snd attempt) /\
  count_events is_decrypt (snd attempt) = 0%nat /\
  fst (fst attempt) = unlockRejected (TestDouble.typed "wrong").
Proof.
  intros attempt.
  assert (Hm : verificationMismatch (snd attempt)).
  { exists (TestDouble.challengeFor "correct-horse"),
      (mkVerification "challenge" "hmac:correct-horse/challenge"),
      "challenge", "hmac:wrong/challenge".
    vm_compute. repeat split; auto. discriminate. }
  split; [exact Hm|].
  exact (proj1 (verification_gates_decryption TestDouble.collab
                  (TestDouble.typed "wrong") (TestDouble.typed "wrong")
                  (fst (fst attempt)) (TestDouble.world TestDouble.server)
                  (snd (fst attempt)) (snd attempt) eq_refl) Hm).
Defined.

(** ** Locking *)

(** C2 as stated does not hold: not every transition into the locked state
    leaves the add-form state cleared.  After unlocking, opening the add
    form and typing a draft into it (its password in plain text), the
    session is unlocked; the timer running [lockVault] takes it to the
    locked state, and the state after still holds the draft. *)
Lemma add_form_draft_survives_lock_counterexample :
  ~ (forall (inputs : list Input) (i : Input),
        let r := run TestDouble.collab inputs initialState
                   (TestDouble.world TestDouble.server) in
        let r' := step TestDouble.collab i (stateOf r) (worldOf r) in
        vaultUnlocked (stateOf r) = true ->
        vaultUnlocked (stateOf r') = false ->
        newEntry (stateOf r') = blankEntry).
Proof.
  intros H.
  specialize (H [TypeMasterPassword "correct-horse"; ClickUnlock;
                 SetShowAddForm true;
                 EditNewEntry (mkNewEntry "example.org" "bob" "s3cret" "")]
                (WaitUntil 60000)).
  cbv zeta in H.
  specialize (H ltac:(vm_compute; reflexivity) ltac:(vm_compute; reflexivity)).
  vm_compute in H. discriminate H.
Qed.

(** C2, amended.  Whatever the state and the world before, after
    [lockVault] the unlocked flag is off, there is no key and no decrypted
    entry, the edit form's entry is dropped, the add form is closed and the
    typed master password is erased; but the draft typed into the add form,
    [newEntry], is left as it was: it is the one cell of the forms
    [lockVault] does not touch.  No truthy timer handle remains in
    [timeoutRef], and when the pending timers were the one [timeoutRef]
    held no timer is pending any more.  And whatever input takes an
    unlocked session, in the invariant the component maintains, to the
    locked state, the state after is wiped in that sense, no timer is
    pending and the activity listeners are removed. *)
Theorem lock_wipes_session {B K : Type} (c : Collab B K) (s : State K)
  (w : World B) :
  (wiped (stateOf (lockVault s w)) /\
   truthyHandle (timeoutRef (stateOf (lockVault s w))) = false /\
   newEntry (stateOf (lockVault s w)) = newEntry s /\
   (timerInv s w -> timers (worldOf (lockVault s w)) = [])) /\
  (forall i,
      sessionInv s w -> vaultUnlocked s = true ->
      vaultUnlocked (stateOf (step c i s w)) = false ->
      wiped (stateOf (step c i s w)) /\
      timers (worldOf (step c i s w)) = [] /\
      listening (worldOf (step c i s w)) = false).
Proof.
  split.
  - unfold lockVault, clearTimeout, wiped, stateOf, worldOf.
    destruct (timeoutRef s) as [h|] eqn:Eref; simpl;
      [destruct (h =? 0) eqn:Eh; simpl|];
      (split; [repeat split|]); rewrite ?Eref; simpl; rewrite ?Eh;
      (split; [reflexivity|]); (split; [reflexivity|]); intros [_ Hinv].
    + apply no_member_nil. intros [h' d] Hin.
      destruct (Hinv _ _ Hin) as [Hh Hpos]. rewrite Eref in Hh.
      injection Hh as ->. apply Z.eqb_eq in Eh. lia.
    + apply filter_none. intros [h' d] Hin.
      destruct (Hinv _ _ Hin) as [Hh _]. rewrite Eref in Hh.
      injection Hh as ->. simpl. now rewrite Z.eqb_refl.
    + apply no_member_nil. intros [h' d] Hin.
      destruct (Hinv _ _ Hin) as [Hh _]. rewrite Eref in Hh. discriminate.
  - intros i Hinv Es Hlocked.
    destruct (step_from_unlocked c i s w Hinv Es) as [Hu|Hw]; [congruence|].
    exact Hw.
Qed.

(** The unlocked test session with its inactivity timer pending: [lockVault]
    wipes it, and so does waiting for the timer. *)
Lemma lock_wipes_session_witness :
  let s :=
    setTimeoutRef (Some 1)
      (unlockedWith "aes:correct-horse"
         [mkDecryptedEntry TestDouble.aliceEntry "example.com" "alice"
            "p@ss" ""]
         (TestDouble.typed "correct-horse")) in
  let w := mkWorld TestDouble.server 0 [(1, 60000)] 2 true in
  (timerInv s w /\ sessionInv s w /\ vaultUnlocked s = true) /\
  (aesKey (stateOf (lockVault s w)) = None /\
   credentials (stateOf (lockVault s w)) = [] /\
   timers (worldOf (lockVault s w)) = []) /\
  wiped (stateOf (step TestDouble.collab (WaitUntil 60000) s w)).
Proof.
  intros s w.
  assert (Hsess : sessionInv s w).
  { split; [reflexivity|]. split; [|discriminate].
    intros _. split; [reflexivity|]. exists 1, 60000.
    repeat split. }
  assert (Hinv : timerInv s w) by (apply sessionInv_timerInv; exact Hsess).
  split; [exact (conj Hinv (conj Hsess eq_refl))|].
  destruct (lock_wipes_session TestDouble.collab s w)
    as [((_ & Hk & Hc & _) & _ & _ & Ht) Hstep].
  split; [exact (conj Hk (conj Hc (Ht Hinv)))|].
  exact (proj1 (Hstep (WaitUntil 60000) Hsess eq_refl eq_refl)).
Defined.

(** ** All or nothing *)

(** C3.  In every run of [handleUnlock], if any step failed (the salt fetch,
    a missing parameter, the tag computation or comparison, the vault fetch,
    the decryption of any field, or anything else that reached the [catch]
    block) the state is the one before except for the error message and the
    busy flag: the unlocked flag, the key and the entries are untouched, so
    a locked session stays locked with no key and no entry.  Conversely,
    when any of the three changed, the flag is on, the key is set, and the
    entries are the decryptions, record by record, of the fetched vault,
    with no failed decrypt call in the run. *)
Theorem unlock_all_or_nothing {B K : Type} (c : Collab B K)
  (snap s s' : State K) (w w' : World B) (tr : list Event) :
  handleUnlock c snap s w = (s', w', tr) ->
  (UnlockFailure tr ->
   s' = unlockRejected s /\
   vaultUnlocked s' = vaultUnlocked s /\
   aesKey s' = aesKey s /\
   credentials s' = credentials s /\
   (Locked s -> Locked s')) /\
  (vaultUnlocked s' <> vaultUnlocked s \/
   aesKey s' <> aesKey s \/
   credentials s' <> credentials s ->
   exists k rv,
     vaultUnlocked s' = true /\
     aesKey s' = Some k /\
     In (EvGetEncryptedVault (Ok rv)) tr /\
     Forall2 (decryptsTo c k) (data rv) (credentials s') /\
     (forall ct nonce e, ~ In (EvDecryptData ct nonce (Throw e)) tr)).
Proof.
  intros Hrun.
  destruct (handleUnlock_outcome c snap s w)
    as (s1 & w1 & tr1 & E & _ & Hcases).
  rewrite Hrun in E. injection E as <- <- <-.
  assert (Hrej : s' = unlockRejected s ->
                 s' = unlockRejected s /\
                 vaultUnlocked s' = vaultUnlocked s /\
                 aesKey s' = aesKey s /\
                 credentials s' = credentials s /\
                 (Locked s -> Locked s')).
  { intros ->. unfold Locked. simpl. tauto. }
  assert (Hsame : s' = unlockRejected s ->
                  ~ (vaultUnlocked s' <> vaultUnlocked s \/
                     aesKey s' <> aesKey s \/
                     credentials s' <> credentials s)).
  { intros ->. simpl. tauto. }
  destruct Hcases as [(e & tr0 & Hs' & _)|Hphase].
  - split; [auto|]. intros H. now apply Hsame in H.
  - destruct Hphase as (resp & method & ver & rv & trd & Hs & Hm & Hv & Hd & Hend).
    destruct Hend as [(e & Hs' & _)|(k & ds & -> & -> & H2 & Hok & _)].
    + split; [auto|]. intros H. now apply Hsame in H.
    + split.
      * intros Hfail. exfalso. revert Hfail.
        now apply completed_trace_no_failure.
      * intros _. exists k, rv.
        split; [reflexivity|]. split; [reflexivity|].
        split; [simpl; auto|]. split; [exact H2|].
        intros ct nonce e Hin.
        apply (completed_trace_no_failure (masterPassword snap) method resp
                 ver rv trd Hs Hm Hv Hd Hok).
        eapply FieldDecryptionFailed. exact Hin.
Qed.

(** The right password against a vault one field of which does not decrypt:
    the first record decrypts, the second fails, and the session stays
    locked with no entry shown.  Against the intact vault the same password
    unlocks. *)
Lemma unlock_all_or_nothing_witness :
  let s := TestDouble.typed "correct-horse" in
  let bad :=
    handleUnlock TestDouble.collab s s
      (TestDouble.world TestDouble.tamperedServer) in
  let good :=
    handleUnlock TestDouble.collab s s (TestDouble.world TestDouble.server) in
  (UnlockFailure (snd bad) /\ Locked s /\ Locked (fst (fst bad))) /\
  (vaultUnlocked (fst (fst good)) <> vaultUnlocked s /\
   exists k, aesKey (fst (fst good)) = Some k).
Proof.
  intros s bad good.
  assert (Hfail : UnlockFailure (snd bad)).
  { apply (FieldDecryptionFailed _ "aes:otherb" "iv" (Error "OperationError")).
    vm_compute. auto 10. }
  assert (Hlocked : Locked s) by (repeat split).
  assert (Hchg : vaultUnlocked (fst (fst good)) <> vaultUnlocked s)
    by (vm_compute; discriminate).
  split.
  - split; [exact Hfail|]. split; [exact Hlocked|].
    destruct (proj1 (unlock_all_or_nothing TestDouble.collab s s
                       (fst (fst bad))
                       (TestDouble.world TestDouble.tamperedServer)
                       (snd (fst bad)) (snd bad) eq_refl) Hfail)
      as (_ & _ & _ & _ & H).
    exact (H Hlocked).
  - split; [exact Hchg|].
    destruct (proj2 (unlock_all_or_nothing TestDouble.collab s s
                       (fst (fst good))
                       (TestDouble.world TestDouble.server)
                       (snd (fst good)) (snd good) eq_refl)
                (or_introl Hchg))
      as (k & rv & _ & Hk & _).
    exists k. exact Hk.
Defined.

(** ** The master password *)

(** C4 as stated does not hold: after typing the right master password and
    unlocking, the component state of the unlocked session still holds the
    master password. *)
Lemma master_password_resident_counterexample :
  ~ (forall (inputs : list Input) (s : State string)
            (w : World TestDouble.Backend) (tr : list Event),
        run TestDouble.collab inputs initialState
            (TestDouble.world TestDouble.server) = (s, w, tr) ->
        vaultUnlocked s = true -> masterPassword s = "").
Proof.
  intros H.
  specialize (H [TypeMasterPassword "correct-horse"; ClickUnlock]
                _ _ _ eq_refl eq_refl).
  discriminate H.
Qed.

(** C4, amended.  The master password lives in the [masterPassword] cell of
    the component state.  [handleUnlock], and the refresh the add, update
    and delete handlers run, read it from there: every key derivation they
    make is for the value of that cell in the render the handler was
    created in, and the key an attempt that completes puts into the state
    was derived from it.  None of them writes the cell, whether the attempt
    succeeds or fails.  So, the cell not having been edited meanwhile, the
    state of the session an attempt has just unlocked holds the very
    password its key was derived from, and it stays there through add,
    update and delete; only [lockVault] erases it. *)
Theorem master_password_kept_until_lock {B K : Type} (c : Collab B K)
  (snap s : State K) (w : World B) :
  (forall pw m,
      In (EvDeriveKey pw m) (traceOf (handleUnlock c snap s w)) \/
      In (EvDeriveKey pw m) (traceOf (handleAddEntry c snap s w)) \/
      In (EvDeriveKey pw m) (traceOf (handleUpdateEntry c snap s w)) \/
      (exists entryId confirmed,
          In (EvDeriveKey pw m)
             (traceOf (handleDelete c entryId confirmed snap s w))) ->
      pw = masterPassword snap) /\
  (error (stateOf (handleUnlock c snap s w)) = "" ->
   vaultUnlocked (stateOf (handleUnlock c snap s w)) = true /\
   exists k,
     aesKey (stateOf (handleUnlock c snap s w)) = Some k /\
     derivedFrom c (masterPassword snap) k (backend w) /\
     exists m, In (EvDeriveKey (masterPassword snap) m)
                  (traceOf (handleUnlock c snap s w))) /\
  (masterPassword s = masterPassword snap ->
   error (stateOf (handleUnlock c snap s w)) = "" ->
   vaultUnlocked (stateOf (handleUnlock c snap s w)) = true /\
   masterPassword (stateOf (handleUnlock c snap s w)) = masterPassword snap /\
   exists k,
     aesKey (stateOf (handleUnlock c snap s w)) = Some k /\
     derivedFrom c (masterPassword (stateOf (handleUnlock c snap s w))) k
       (backend w)) /\
  masterPassword (stateOf (handleUnlock c snap s w)) = masterPassword s /\
  masterPassword (stateOf (handleAddEntry c snap s w)) = masterPassword s /\
  masterPassword (stateOf (handleUpdateEntry c snap s w)) = masterPassword s /\
  (forall entryId confirmed,
      masterPassword (stateOf (handleDelete c entryId confirmed snap s w))
      = masterPassword s) /\
  masterPassword (stateOf (lockVault s w)) = "".
Proof.
  destruct (handleUnlock_derives c snap s w) as (Hread & Hcell & Hdone).
  split; [|split; [exact Hdone|split]].
  - intros pw m [H|[H|[H|(entryId & confirmed & H)]]].
    + now apply Hread in H.
    + now apply handleAddEntry_derives in H.
    + now apply handleUpdateEntry_derives in H.
    + now apply handleDelete_derives in H.
  - intros Hsame Herr. destruct (Hdone Herr) as (Hv & k & Hk & Hder & _).
    split; [exact Hv|]. split; [congruence|].
    exists k. split; [exact Hk|]. rewrite Hcell, Hsame. exact Hder.
  - clear Hread Hcell Hdone. unfold stateOf.
    assert (Hu : forall s0 w0,
               masterPassword (fst (fst (handleUnlock c snap s0 w0)))
               = masterPassword s0).
    { intros s0 w0.
      destruct (handleUnlock_state c snap s0 w0) as [->|(k & ds & ->)];
        reflexivity. }
    split; [apply Hu|]. split; [|split; [|split]].
    + unfold handleAddEntry. destruct (aesKey snap) as [k|]; [|reflexivity].
      destruct (addTry c k (newEntry snap) w) as [[[u|e] w1] t1];
        [|reflexivity].
      specialize (Hu (setNewEntry (mkNewEntry "" "" "" "")
                        (setShowAddForm false
                           (setError "" (setIsAdding true s))))
                     w1).
      destruct (handleUnlock c snap _ w1) as [[s3 w2] t2]. exact Hu.
    + unfold handleUpdateEntry. destruct (aesKey snap) as [k|]; [|reflexivity].
      destruct (updateTry c k (editingEntry snap) w) as [[[u|e] w1] t1];
        [|reflexivity].
      specialize (Hu (setEditingEntry None
                        (setError "" (setIsUpdating true s)))
                     w1).
      destruct (handleUnlock c snap _ w1) as [[s3 w2] t2]. exact Hu.
    + intros entryId confirmed. unfold handleDelete.
      destruct confirmed; simpl; [|reflexivity].
      destruct (callB (EvDeleteEntry entryId) (deleteEntry c entryId) w)
        as [[[u|e] w1] t1]; [|reflexivity].
      specialize (Hu s w1).
      destruct (handleUnlock c snap s w1) as [[s3 w2] t2]. exact Hu.
    + unfold lockVault, clearTimeout.
      destruct (timeoutRef s) as [h|]; simpl; [destruct (h =? 0)|];
        reflexivity.
Qed.

(** The test session: the state of the session just unlocked holds
    [correct-horse], the password its key was derived from. *)
Lemma master_password_kept_until_lock_witness :
  let s := TestDouble.typed "correct-horse" in
  let w := TestDouble.world TestDouble.server in
  let s' := stateOf (handleUnlock TestDouble.collab s s w) in
  (masterPassword s = masterPassword s /\ error s' = "") /\
  vaultUnlocked s' = true /\
  masterPassword s' = "correct-horse" /\
  exists k, aesKey s' = Some k /\
            derivedFrom TestDouble.collab "correct-horse" k TestDouble.server.
Proof.
  intros s w s'.
  split; [split; reflexivity|].
  exact (proj1 (proj2 (proj2 (master_password_kept_until_lock
                                TestDouble.collab s s w)))
           eq_refl eq_refl).
Defined.

(** ** The inactivity timer *)

(** C5.  [AUTO_LOCK_TIME] is 60 seconds.  Take a locked session, in the
    invariant the component maintains, that a click on Unlock at time [t0]
    unlocks.  With no activity it is unlocked at every time before
    [t0 + 60s] and locked from [t0 + 60s] on.  With one activity signal at
    a time [a] before that and none after, exactly one timer is pending
    after the signal, due at [a + 60s] (the one due at [t0 + 60s] was
    cancelled), and the session is unlocked at every time before [a + 60s]
    and locked from [a + 60s] on; for [a = t0 + 30s] that is unlocked at
    [t0 + 60s] and locked at [t0 + 90s].  (Times are in milliseconds.) *)
Theorem auto_lock_debounce {B K : Type} (c : Collab B K) (s : State K)
  (w : World B) :
  sessionInv s w -> vaultUnlocked s = false ->
  let t0 := now w in
  let r0 := step c ClickUnlock s w in
  vaultUnlocked (stateOf r0) = true ->
  AUTO_LOCK_TIME = 60000 /\
  (forall t, t < t0 + 60000 ->
             vaultUnlocked (stateOf (idleUntil c t r0)) = true) /\
  (forall t, t0 + 60000 <= t ->
             vaultUnlocked (stateOf (idleUntil c t r0)) = false) /\
  (forall a, t0 <= a < t0 + 60000 ->
     let r1 := activityAt c a r0 in
     (exists h, timers (worldOf r1) = [(h, a + 60000)]) /\
     (forall t, t < a + 60000 ->
                vaultUnlocked (stateOf (idleUntil c t r1)) = true) /\
     (forall t, a + 60000 <= t ->
                vaultUnlocked (stateOf (idleUntil c t r1)) = false)).
Proof.
  intros Hinv Es t0 r0 Hu.
  destruct (step_unlock_arms c s w Hinv Es Hu) as [Harm Hnow].
  fold r0 in Harm, Hnow. fold t0 in Harm.
  change AUTO_LOCK_TIME with 60000 in *.
  assert (Hidle : forall s' (w' : World B) due t,
             armed s' w' due -> t < due ->
             vaultUnlocked (stateOf (step c (WaitUntil t) s' w')) = true).
  { intros s' w' due t Ha Hlt. unfold step.
    rewrite (advance_before_due _ _ _ t Ha Hlt). apply Ha. }
  assert (Hlock : forall s' (w' : World B) due t,
             armed s' w' due -> due <= t ->
             vaultUnlocked (stateOf (step c (WaitUntil t) s' w')) = false).
  { intros s' w' due t Ha Hle. unfold step.
    apply (advance_after_due _ _ _ t Ha Hle). }
  split; [reflexivity|]. split; [|split].
  - intros t Hlt. apply (Hidle _ _ _ t Harm Hlt).
  - intros t Hle. apply (Hlock _ _ _ t Harm Hle).
  - intros a [Ha1 Ha2] r1.
    assert (Ewait : idleUntil c a r0
                    = (stateOf r0, withNow a (worldOf r0), [])).
    { unfold idleUntil, step.
      rewrite (advance_before_due _ _ _ a Harm Ha2).
      rewrite Hnow. fold t0. now rewrite Z.max_r by lia. }
    pose proof (armed_withNow _ _ _ a Harm) as Harm0.
    destruct (step_activity_armed c _ _ _ Harm0) as [Est Ewo].
    pose proof (handleActivity_rearms _ _ _ Harm0) as [Harm1 _].
    change (now (withNow a (worldOf r0)) + AUTO_LOCK_TIME)
      with (a + 60000) in Harm1.
    change (fst (fst (handleActivity (stateOf r0) (withNow a (worldOf r0)))))
      with (stateOf (handleActivity (stateOf r0) (withNow a (worldOf r0))))
      in Harm1.
    change (snd (fst (handleActivity (stateOf r0) (withNow a (worldOf r0)))))
      with (worldOf (handleActivity (stateOf r0) (withNow a (worldOf r0))))
      in Harm1.
    rewrite <- Est, <- Ewo in Harm1.
    assert (Er1 : r1 = step c Activity (stateOf r0) (withNow a (worldOf r0))).
    { unfold r1, activityAt. now rewrite Ewait. }
    rewrite <- Er1 in Harm1.
    split; [|split].
    + destruct Harm1 as (_ & _ & _ & h & _ & _ & Htm). now exists h.
    + intros t Hlt. apply (Hidle _ _ _ t Harm1 Hlt).
    + intros t Hle. apply (Hlock _ _ _ t Harm1 Hle).
Qed.

(** The test session unlocked at time 0: idle, it is still unlocked just
    before 60 s and locked at 60 s; with one activity signal at 30 s it is
    still unlocked at 60 s and locked at 90 s. *)
Lemma auto_lock_debounce_witness :
  let s := TestDouble.typed "correct-horse" in
  let w := TestDouble.world TestDouble.server in
  let c := TestDouble.collab in
  let r0 := step c ClickUnlock s w in
  (sessionInv s w /\ vaultUnlocked s = false /\
   vaultUnlocked (stateOf r0) = true) /\
  vaultUnlocked (stateOf (idleUntil c 59999 r0)) = true /\
  vaultUnlocked (stateOf (idleUntil c 60000 r0)) = false /\
  vaultUnlocked (stateOf (idleUntil c 60000 (activityAt c 30000 r0))) = true /\
  vaultUnlocked (stateOf (idleUntil c 90000 (activityAt c 30000 r0))) = false.
Proof.
  intros s w c r0.
  assert (Hinv : sessionInv s w).
  { split; [reflexivity|]. split; [discriminate|].
    intros _. split; reflexivity. }
  split; [exact (conj Hinv (conj eq_refl eq_refl))|].
  destruct (auto_lock_debounce c s w Hinv eq_refl eq_refl)
    as (_ & Hidle & Hlock & Hact).
  assert (Ha : now w <= 30000 < now w + 60000) by (simpl; lia).
  destruct (Hact 30000 Ha) as (_ & Hidle' & Hlock').
  split; [apply Hidle; simpl; lia|].
  split; [apply Hlock; simpl; lia|].
  split; [apply Hidle'; lia|apply Hlock'; lia].
Defined.

(** ** The notes field *)

(** C6.  The add flow submits no notes envelope exactly when the notes text
    of the form is empty.  The unlock callback, given a record without a
    notes envelope whose three other envelopes decrypt, fulfils with the
    empty string as notes after exactly three decrypt calls; and in every
    attempt that completes (no error message), each fetched record without
    a notes envelope is shown with empty notes. *)
Theorem absent_notes_is_no_envelope {B K : Type} (c : Collab B K)
  (snap s : State K) (w : World B) :
  (forall p r,
      In (EvAddEntry p r) (traceOf (handleAddEntry c snap s w)) ->
      (p_notes p = None <-> ne_notes (newEntry snap) = "")) /\
  (forall k e w0 ew eu ep a b d,
      website e = Some ew -> username e = Some eu -> password e = Some ep ->
      notes e = None ->
      decryptData c (cipherText ew) (iv ew) k = Ok a ->
      decryptData c (cipherText eu) (iv eu) k = Ok b ->
      decryptData c (cipherText ep) (iv ep) k = Ok d ->
      decryptEntry c k e w0
      = (Ok (mkDecryptedEntry e a b d ""), w0,
         [EvDecryptData (cipherText ew) (iv ew) (Ok a);
          EvDecryptData (cipherText eu) (iv eu) (Ok b);
          EvDecryptData (cipherText ep) (iv ep) (Ok d)])) /\
  (forall s' w' tr,
      handleUnlock c snap s w = (s', w', tr) -> error s' = "" ->
      forall rv,
        In (EvGetEncryptedVault (Ok rv)) tr ->
        Forall2 (fun e d => entry d = e /\
                            (notes e = None -> decryptedNotes d = ""))
                (data rv) (credentials s')).
Proof.
  split; [|split].
  - intros p r Hin.
    destruct (handleAddEntry_submits c snap s w p r Hin)
      as (k & w0 & tenc & b1 & rest & _ & Eenc & _).
    exact (proj1 (encryptFields_notes c _ _ _ _ _ _ _ _ _ Eenc)).
  - intros k e w0 ew eu ep a b d Hw Hu Hp Hn Ha Hb Hd.
    unfold decryptEntry, bind, envelopeOf, awaitDecryptData, ret.
    rewrite Hw, Hu, Hp, Hn. simpl. rewrite Ha. simpl. rewrite Hb. simpl.
    rewrite Hd. reflexivity.
  - intros s' w' tr Hrun Herr rv Hin.
    destruct (handleUnlock_outcome c snap s w)
      as (s1 & w1 & tr1 & E & _ & Hcases).
    rewrite Hrun in E. injection E as <- <- <-.
    destruct Hcases as [(e & tr0 & -> & _)|Hphase]; [discriminate|].
    destruct Hphase as (resp & method & ver & rv0 & trd & _ & _ & _ & Hd & Hend).
    destruct Hend as [(e & -> & _)|(k & ds & -> & -> & H2 & _)];
      [discriminate|].
    apply verified_trace_vault in Hin; [|assumption|tail_free].
    injection Hin as ->. simpl.
    eapply Forall2_impl; [|exact H2].
    intros e d (He & _ & _ & _ & Hnotes). split; [exact He|].
    intros Hn. now rewrite Hn in Hnotes.
Qed.

(** Adding a record with empty notes submits no notes envelope; unlocking a
    vault whose record has none shows empty notes. *)
Lemma absent_notes_is_no_envelope_witness :
  let s := TestDouble.typed "correct-horse" in
  let w := TestDouble.world TestDouble.server in
  let su :=
    setNewEntry (mkNewEntry "example.org" "bob" "s3cret" "")
      (stateOf (handleUnlock TestDouble.collab s s w)) in
  (exists p r,
      In (EvAddEntry p r) (traceOf (handleAddEntry TestDouble.collab su su w)) /\
      ne_notes (newEntry su) = "" /\ p_notes p = None) /\
  map decryptedNotes
      (credentials (stateOf (handleUnlock TestDouble.collab s s w))) = [""].
Proof.
  intros s w su. split.
  - assert (Hin : exists p r,
               In (EvAddEntry p r)
                  (traceOf (handleAddEntry TestDouble.collab su su w))).
    { eexists. eexists. vm_compute. do 4 right. left. reflexivity. }
    destruct Hin as (p & r & Hin). exists p, r.
    split; [exact Hin|]. split; [reflexivity|].
    exact (proj2 (proj1 (absent_notes_is_no_envelope TestDouble.collab su su w)
                    p r Hin) eq_refl).
  - pose proof (proj2 (proj2 (absent_notes_is_no_envelope
                                TestDouble.collab s s w))
                  (stateOf (handleUnlock TestDouble.collab s s w))
                  (worldOf (handleUnlock TestDouble.collab s s w))
                  (traceOf (handleUnlock TestDouble.collab s s w))
                  eq_refl eq_refl
                  (mkVaultResponse [TestDouble.aliceEntry])) as H.
    assert (Hin : In (EvGetEncryptedVault
                        (Ok (mkVaultResponse [TestDouble.aliceEntry])))
                     (traceOf (handleUnlock TestDouble.collab s s w))).
    { vm_compute. do 3 right. left. reflexivity. }
    specialize (H Hin). vm_compute in H |- *.
    inversion H as [|? ? ? ? [_ Hn] _]; subst.
    reflexivity.
Defined.

(** ** One message for every failure *)

(** C7.  Take two runs of [handleUnlock], against any collaborators, worlds
    and states.  The error message a run leaves is either empty (the attempt
    completed) or "Incorrect master password or decryption failed.": no
    other text is ever shown.  When each run failed at some step (the salt
    fetch, a missing parameter, the tag computation, the tag comparison, the
    vault fetch, a field decryption, or anything else caught, such as the
    key derivation), both leave that same message; and when they started
    from the same component state they leave the same component state, so
    nothing the user sees tells the steps apart. *)
Theorem unlock_failure_message_uniform {B K : Type} (c1 c2 : Collab B K)
  (snap1 s1 s1' snap2 s2 s2' : State K) (w1 w1' w2 w2' : World B)
  (tr1 tr2 : list Event) :
  handleUnlock c1 snap1 s1 w1 = (s1', w1', tr1) ->
  handleUnlock c2 snap2 s2 w2 = (s2', w2', tr2) ->
  (error s1' = "" \/
   error s1' = "Incorrect master password or decryption failed.") /\
  (UnlockFailure tr1 -> UnlockFailure tr2 ->
   error s1' = "Incorrect master password or decryption failed." /\
   error s2' = error s1' /\
   (s1 = s2 -> s1' = s2')).
Proof.
  intros H1 H2. split.
  - destruct (handleUnlock_state c1 snap1 s1 w1) as [E|(k & ds & E)];
      rewrite H1 in E; simpl in E; rewrite E; simpl; auto.
  - intros F1 F2.
    rewrite (failure_rejected c1 snap1 s1 s1' w1 w1' tr1 H1 F1).
    rewrite (failure_rejected c2 snap2 s2 s2' w2 w2' tr2 H2 F2).
    repeat split. now intros ->.
Qed.

(** A server that omits the challenge, and a vault one field of which does
    not decrypt: different steps fail, the same state results. *)
Lemma unlock_failure_message_uniform_witness :
  let s := TestDouble.typed "correct-horse" in
  let r1 :=
    handleUnlock TestDouble.collab s s
      (TestDouble.world TestDouble.incompleteServer) in
  let r2 :=
    handleUnlock TestDouble.collab s s
      (TestDouble.world TestDouble.tamperedServer) in
  (In (EvConsoleError (Error msgMissing)) (traceOf r1) /\
   (exists ct nonce e, In (EvDecryptData ct nonce (Throw e)) (traceOf r2))) /\
  error (stateOf r1) = "Incorrect master password or decryption failed." /\
  stateOf r1 = stateOf r2.
Proof.
  intros s r1 r2.
  assert (Hc : In (EvConsoleError (Error msgMissing)) (traceOf r1))
    by (vm_compute; auto).
  assert (Hd : In (EvDecryptData "aes:otherb" "iv" (Throw (Error "OperationError")))
                  (traceOf r2))
    by (vm_compute; auto 10).
  split; [split; [exact Hc|eauto]|].
  destruct (proj2 (unlock_failure_message_uniform
                     TestDouble.collab TestDouble.collab
                     s s (stateOf r1) s s (stateOf r2)
                     (TestDouble.world TestDouble.incompleteServer) (worldOf r1)
                     (TestDouble.world TestDouble.tamperedServer) (worldOf r2)
                     (traceOf r1) (traceOf r2) eq_refl eq_refl)
              (Caught _ _ Hc) (FieldDecryptionFailed _ _ _ _ Hd))
    as (Hmsg & _ & Hsame).
  split; [exact Hmsg|exact (Hsame eq_refl)].
Defined.

(** ** Refresh after a mutation *)

(** The test double keeps the storage contract. *)
Lemma testDouble_storageContract :
  storageContract TestDouble.collab TestDouble.stored.
Proof.
  split; [reflexivity|]. split; [reflexivity|]. split.
  - intros b. unfold TestDouble.collab, TestDouble.fetch. simpl.
    destruct (TestDouble.online b); simpl; split; try reflexivity.
    + intros rv H. injection H as <-. reflexivity.
    + discriminate.
  - intros p b. unfold TestDouble.collab, TestDouble.create. simpl.
    destruct (TestDouble.online b); simpl; [|discriminate].
    intros _. rewrite length_app. simpl. apply Nat.add_1_r.
Qed.

(** C8 as stated does not hold: a successful add need not change the list
    shown.  On a server that keeps the storage contract, stores the record
    and then fails to answer the salt request, [addEntry] succeeds, the
    refresh fails, and the one entry shown before is still the only one
    shown, although as many entries were shown before as records were
    stored. *)
Lemma add_refresh_can_fail_counterexample :
  ~ (forall (s : State string) (w : World TestDouble.Backend)
            (p : EntryPayload),
        storageContract TestDouble.collab TestDouble.stored ->
        In (EvAddEntry p (Ok tt))
           (traceOf (handleAddEntry TestDouble.collab s s w)) ->
        length (credentials s) = length (TestDouble.stored (backend w)) ->
        length (credentials (stateOf (handleAddEntry TestDouble.collab s s w)))
        = S (length (credentials s))).
Proof.
  intros H.
  pose (r := handleAddEntry TestDouble.collab Scenario.drafting
               Scenario.drafting (TestDouble.world Scenario.saltless)).
  assert (Hin : exists p, In (EvAddEntry p (Ok tt)) (traceOf r)).
  { eexists. vm_compute. do 4 right. left. reflexivity. }
  destruct Hin as [p Hin].
  specialize (H Scenario.drafting (TestDouble.world Scenario.saltless) p
                testDouble_storageContract Hin eq_refl).
  vm_compute in H. discriminate H.
Qed.

(** C8, amended.  When [handleAddEntry] has submitted a payload and
    [addEntry] succeeded, the rest of the run is a full run of
    [handleUnlock] on the state with the form closed and the draft blank;
    it starts by contacting the server again, and the state after is the
    one that run produced, with the add's busy flag off.  When that refresh
    completes (no error message), the entries shown are, record by record,
    the decryptions of the vault fetched in the refresh, as many as were
    fetched: nothing of the previous list or of the form is patched in.
    When it fails, the message is the unlock message and the flag, the key
    and the entries are those from before the add: the list shown is the
    old one, and its count is unchanged although the record was stored.
    With a storage backend that keeps its contract ([createEntry] stores
    one record, fetching returns the stored records), and as many entries
    shown before as records stored, the count shown after a refresh that
    completes is exactly one more. *)
Theorem add_refreshes_by_full_redecrypt {B K : Type} (c : Collab B K)
  (snap s : State K) (w : World B) (p : EntryPayload) :
  let r := handleAddEntry c snap s w in
  In (EvAddEntry p (Ok tt)) (traceOf r) ->
  (exists (s2 : State K) (w1 : World B) (pre : list Event),
      let refresh := handleUnlock c snap s2 w1 in
      s2 = setNewEntry blankEntry
             (setShowAddForm false (setError "" (setIsAdding true s))) /\
      traceOf r = pre ++ EvAddEntry p (Ok tt) :: traceOf refresh /\
      (exists rs rest, traceOf refresh = EvGetEncryptionSalt rs :: rest) /\
      stateOf r = setIsAdding false (stateOf refresh) /\
      credentials (stateOf r) = credentials (stateOf refresh) /\
      aesKey (stateOf r) = aesKey (stateOf refresh) /\
      (error (stateOf r) = "" ->
       exists k rv,
         In (EvGetEncryptedVault (Ok rv)) (traceOf refresh) /\
         aesKey (stateOf r) = Some k /\
         Forall2 (decryptsTo c k) (data rv) (credentials (stateOf r)) /\
         length (credentials (stateOf r)) = length (data rv))) /\
  (error (stateOf r) <> "" ->
   error (stateOf r) = "Incorrect master password or decryption failed." /\
   vaultUnlocked (stateOf r) = vaultUnlocked s /\
   aesKey (stateOf r) = aesKey s /\
   credentials (stateOf r) = credentials s /\
   length (credentials (stateOf r)) = length (credentials s)) /\
  (forall stored,
      storageContract c stored ->
      length (credentials s) = length (stored (backend w)) ->
      error (stateOf r) = "" ->
      length (credentials (stateOf r)) = S (length (credentials s))).
Proof.
  intros r Hin. unfold r in *. clear r.
  destruct (handleAddEntry_submits c snap s w p (Ok tt) Hin)
    as (k0 & w0 & tenc & b1 & rest & _ & Eenc & Ea & Etr & _ & Hrest & Hst).
  cbv zeta in Hrest, Hst.
  set (s2 := setNewEntry (mkNewEntry "" "" "" "")
               (setShowAddForm false (setError "" (setIsAdding true s))))
    in *.
  assert (Hdone :
            error (stateOf (handleAddEntry c snap s w)) = "" ->
            exists k rv,
              In (EvGetEncryptedVault (Ok rv))
                 (traceOf (handleUnlock c snap s2 (withBackend b1 w0))) /\
              aesKey (stateOf (handleAddEntry c snap s w)) = Some k /\
              Forall2 (decryptsTo c k) (data rv)
                      (credentials (stateOf (handleAddEntry c snap s w))) /\
              length (credentials (stateOf (handleAddEntry c snap s w)))
              = length (data rv)).
  { rewrite Hst.
    destruct (handleUnlock_outcome c snap s2 (withBackend b1 w0))
      as (s3 & w3 & tr3 & E & _ & Hcases).
    rewrite E. unfold stateOf, traceOf. simpl.
    destruct Hcases as [(e & tr0 & -> & _)|Hphase]; [discriminate|].
    destruct Hphase as (resp & method & ver & rv & trd & _ & _ & _ & Hd & Hend).
    destruct Hend as [(e & -> & _)|(k & ds & -> & -> & H2 & _)];
      [discriminate|].
    intros _. exists k, rv. simpl.
    split; [auto|]. split; [reflexivity|]. split; [exact H2|].
    symmetry. eapply Forall2_length. exact H2. }
  split; [|split].
  - exists s2, (withBackend b1 w0), (EvPreventDefault :: tenc).
    cbv zeta. subst rest.
    split; [reflexivity|].
    split; [exact Etr|].
    split; [apply handleUnlock_starts_with_fetch|].
    split; [exact Hst|].
    split; [now rewrite Hst|]. split; [now rewrite Hst|]. exact Hdone.
  - rewrite Hst. unfold stateOf.
    destruct (handleUnlock_state c snap s2 (withBackend b1 w0))
      as [->|(k & ds & ->)]; simpl.
    + intros _. repeat split.
    + intros H. now contradiction H.
  - intros stored Hc Hsync Herr.
    destruct (Hdone Herr) as (k & rv & Hfetched & _ & _ & Hlen).
    destruct (handleUnlock_fetched c snap s2 _ rv Hfetched)
      as (resp & b2 & b3 & Es & Ef).
    simpl in Es.
    pose proof (encryptFields_stored c stored k0 (ne_website (newEntry snap))
                  (ne_username (newEntry snap)) (ne_password (newEntry snap))
                  (ne_notes (newEntry snap)) w Hc) as Hkeep.
    rewrite Eenc in Hkeep. simpl in Hkeep.
    destruct Hc as (Hsalt & _ & Hfetch & Hadd).
    specialize (Hsalt b1). rewrite Es in Hsalt. simpl in Hsalt.
    destruct (Hfetch b2) as [_ Hdata]. rewrite Ef in Hdata. simpl in Hdata.
    specialize (Hadd p (backend w0)). rewrite Ea in Hadd. simpl in Hadd.
    rewrite Hlen, (Hdata rv eq_refl), Hsalt, (Hadd eq_refl), Hkeep, Hsync.
    reflexivity.
Qed.

(** The test session with one record shown: adding a record makes the add
    call, re-fetches, and shows two; on the server that then fails to
    answer the salt request the record is added and one is shown. *)
Lemma add_refreshes_by_full_redecrypt_witness :
  let s0 := TestDouble.typed "correct-horse" in
  let w := TestDouble.world TestDouble.server in
  let su :=
    setNewEntry (mkNewEntry "example.org" "bob" "s3cret" "")
      (stateOf (handleUnlock TestDouble.collab s0 s0 w)) in
  let r := handleAddEntry TestDouble.collab su su w in
  let r' := handleAddEntry TestDouble.collab su su
              (TestDouble.world Scenario.saltless) in
  storageContract TestDouble.collab TestDouble.stored /\
  length (credentials su) = 1%nat /\
  length (credentials (stateOf r)) = 2%nat /\
  (exists p,
      In (EvAddEntry p (Ok tt)) (traceOf r) /\
      exists k rv,
        aesKey (stateOf r) = Some k /\
        Forall2 (decryptsTo TestDouble.collab k) (data rv)
                (credentials (stateOf r)) /\
        length (credentials (stateOf r)) = length (data rv)) /\
  (exists p, In (EvAddEntry p (Ok tt)) (traceOf r')) /\
  credentials (stateOf r') = credentials su.
Proof.
  intros s0 w su r r'.
  assert (Hc : storageContract TestDouble.collab TestDouble.stored).
  { split; [reflexivity|]. split; [reflexivity|]. split.
    - intros b. unfold TestDouble.collab, TestDouble.fetch. simpl.
      destruct (TestDouble.online b); simpl; split; try reflexivity.
      + intros rv H. injection H as <-. reflexivity.
      + discriminate.
    - intros p b. unfold TestDouble.collab, TestDouble.create. simpl.
      destruct (TestDouble.online b); simpl; [|discriminate].
      intros _. rewrite length_app. simpl. apply Nat.add_1_r. }
  split; [exact Hc|]. split; [reflexivity|].
  assert (Hin : exists p, In (EvAddEntry p (Ok tt)) (traceOf r)).
  { eexists. vm_compute. do 4 right. left. reflexivity. }
  assert (Hin' : exists p, In (EvAddEntry p (Ok tt)) (traceOf r')).
  { eexists. vm_compute. do 4 right. left. reflexivity. }
  destruct Hin as [p Hin].
  destruct (add_refreshes_by_full_redecrypt TestDouble.collab su su w p Hin)
    as ((s2 & w1 & pre & _ & _ & _ & _ & _ & _ & Hdone) & _ & Hcount).
  split; [exact (Hcount TestDouble.stored Hc eq_refl eq_refl)|].
  split.
  - exists p. split; [exact Hin|].
    destruct (Hdone eq_refl) as (k & rv & _ & Hk & H2 & Hlen).
    exists k, rv. exact (conj Hk (conj H2 Hlen)).
  - split; [exact Hin'|]. destruct Hin' as [p' Hin'].
    destruct (add_refreshes_by_full_redecrypt TestDouble.collab su su
                (TestDouble.world Scenario.saltless) p' Hin')
      as (_ & Hfail & _).
    apply Hfail. vm_compute. discriminate.
Defined.

(** ** Required envelopes *)

(** C9.  In every run of [handleUnlock] that fetched the vault, if some
    fetched record lacks its website, username or password envelope, the
    [catch] block runs and the attempt is rejected: the flag, the key and
    the entries stay as they were, so a locked session stays locked.  Only
    notes may be absent: a record whose three other envelopes are present
    and decrypt is accepted without a notes envelope, with empty notes. *)
Theorem missing_required_envelope_aborts {B K : Type} (c : Collab B K)
  (snap s s' : State K) (w w' : World B) (tr : list Event) :
  handleUnlock c snap s w = (s', w', tr) ->
  (forall rv,
      In (EvGetEncryptedVault (Ok rv)) tr ->
      Exists missingRequired (data rv) ->
      (exists e, In (EvConsoleError e) tr) /\
      s' = unlockRejected s /\
      vaultUnlocked s' = vaultUnlocked s /\
      aesKey s' = aesKey s /\
      credentials s' = credentials s /\
      (Locked s -> Locked s')) /\
  (forall k e w0,
      missingRequired e ->
      exists x, fst (fst (decryptEntry c k e w0)) = Throw x) /\
  (forall k e w0 ew eu ep a b d,
      website e = Some ew -> username e = Some eu -> password e = Some ep ->
      notes e = None ->
      decryptData c (cipherText ew) (iv ew) k = Ok a ->
      decryptData c (cipherText eu) (iv eu) k = Ok b ->
      decryptData c (cipherText ep) (iv ep) k = Ok d ->
      fst (fst (decryptEntry c k e w0)) = Ok (mkDecryptedEntry e a b d "")).
Proof.
  intros Hrun. split; [|split].
  - intros rv Hin Hmiss.
    destruct (handleUnlock_outcome c snap s w)
      as (s1 & w1 & tr1 & E & _ & Hcases).
    rewrite Hrun in E. injection E as <- <- <-.
    assert (Hrej : forall e tr0,
               s' = unlockRejected s -> tr = tr0 ++ [EvConsoleError e] ->
               (exists e, In (EvConsoleError e) tr) /\
               s' = unlockRejected s /\
               vaultUnlocked s' = vaultUnlocked s /\
               aesKey s' = aesKey s /\
               credentials s' = credentials s /\
               (Locked s -> Locked s')).
    { intros e tr0 -> ->. split.
      - exists e. apply in_or_app. right. now left.
      - unfold Locked. simpl. tauto. }
    destruct Hcases as [(e & tr0 & Hs' & Htr & _)|Hphase]; [eauto|].
    destruct Hphase as (resp & method & ver & rv0 & trd & _ & _ & _ & Hd & Hend).
    destruct Hend as [(e & Hs' & Htr)|(k & ds & _ & -> & _ & _ & Hnone)].
    + apply (Hrej e (verifiedPrefix (masterPassword snap) method resp ver rv0
                       ++ trd)); [exact Hs'|].
      now rewrite <- app_assoc.
    + exfalso. apply verified_trace_vault in Hin; [|assumption|tail_free].
      injection Hin as ->. contradiction.
  - intros k e w0 Hmiss.
    destruct (decryptEntry_run c k e w0) as (r & t & E & _ & _ & Hx).
    rewrite E. simpl. auto.
  - intros k e w0 ew eu ep a b d Hw Hu Hp Hn Ha Hb Hd.
    unfold decryptEntry, bind, envelopeOf, awaitDecryptData, ret.
    rewrite Hw, Hu, Hp, Hn. simpl. rewrite Ha. simpl. rewrite Hb. simpl.
    rewrite Hd. reflexivity.
Qed.

(** A vault one record of which has no username envelope: the right
    password is rejected and the session stays locked. *)
Lemma missing_required_envelope_aborts_witness :
  let s := TestDouble.typed "correct-horse" in
  let r :=
    handleUnlock TestDouble.collab s s
      (TestDouble.world TestDouble.brokenServer) in
  let rv := mkVaultResponse [TestDouble.aliceEntry; TestDouble.brokenEntry] in
  (In (EvGetEncryptedVault (Ok rv)) (traceOf r) /\
   Exists missingRequired (data rv) /\ Locked s) /\
  Locked (stateOf r) /\
  error (stateOf r) = msgUnlockFailed.
Proof.
  intros s r rv.
  assert (Hin : In (EvGetEncryptedVault (Ok rv)) (traceOf r))
    by (vm_compute; auto 10).
  assert (Hmiss : Exists missingRequired (data rv)).
  { apply Exists_cons_tl, Exists_cons_hd. right. left. reflexivity. }
  assert (Hlocked : Locked s) by (repeat split).
  split; [exact (conj Hin (conj Hmiss Hlocked))|].
  destruct (proj1 (missing_required_envelope_aborts TestDouble.collab s s
                     (stateOf r) (TestDouble.world TestDouble.brokenServer)
                     (worldOf r) (traceOf r) eq_refl) rv Hin Hmiss)
    as (_ & Hs' & _ & _ & _ & Hl).
  split; [exact (Hl Hlocked)|].
  rewrite Hs'. reflexivity.
Defined.

(** ** Mutations need a key *)

(** C10.  When the handler closed over no key ([aesKey] is [null]), the
    submit handlers of the add form and of the edit form return at once:
    the component state and the world are unchanged and the only thing done
    is [preventDefault]; no [encryptData] call, no call of the storage
    backend. *)
Theorem mutation_without_key_is_noop {B K : Type} (c : Collab B K)
  (snap s : State K) (w : World B) :
  aesKey snap = None ->
  handleAddEntry c snap s w = (s, w, [EvPreventDefault]) /\
  handleUpdateEntry c snap s w = (s, w, [EvPreventDefault]) /\
  count_events is_encrypt (traceOf (handleAddEntry c snap s w)) = 0%nat /\
  count_events is_storage (traceOf (handleAddEntry c snap s w)) = 0%nat /\
  count_events is_encrypt (traceOf (handleUpdateEntry c snap s w)) = 0%nat /\
  count_events is_storage (traceOf (handleUpdateEntry c snap s w)) = 0%nat.
Proof.
  intros Hk. unfold handleAddEntry, handleUpdateEntry. rewrite Hk.
  repeat split.
Qed.

(** Submitting the add form in the first render, before any unlock. *)
Lemma mutation_without_key_is_noop_witness :
  let s : State string :=
    setNewEntry (mkNewEntry "example.org" "bob" "s3cret" "") initialState in
  let w := TestDouble.world TestDouble.server in
  aesKey s = None /\
  handleAddEntry TestDouble.collab s s w = (s, w, [EvPreventDefault]) /\
  handleUpdateEntry TestDouble.collab s s w = (s, w, [EvPreventDefault]).
Proof.
  intros s w. split; [reflexivity|].
  destruct (mutation_without_key_is_noop TestDouble.collab s s w eq_refl)
    as (Ha & Hu & _).
  exact (conj Ha Hu).
Defined.

(** * Further properties of the component *)

(** ** Counting calls *)

Lemma count_events_app (f : Event -> bool) (l1 l2 : list Event) :
  count_events f (l1 ++ l2) = (count_events f l1 + count_events f l2)%nat.
Proof.
  unfold count_events. rewrite filter_app, length_app. reflexivity.
Qed.

Lemma encrypt_events_no_storage (l : list Event) :
  Forall (fun ev => is_encrypt ev = true) l ->
  count_events is_storage l = 0%nat.
Proof.
  intros H. apply count_events_none.
  eapply Forall_impl; [|exact H]. intros [] E; try discriminate; reflexivity.
Qed.

Lemma unlock_events_no_encrypt (l : list Event) :
  Forall (fun ev => is_unlock_event ev = true) l ->
  count_events is_encrypt l = 0%nat.
Proof.
  intros H. apply count_events_none.
  eapply Forall_impl; [|exact H]. intros [] E; try discriminate; reflexivity.
Qed.

(** ** The add flow, failing and succeeding *)

Section AddOutcomes.
Context {B K : Type} (c : Collab B K).

(** What [handleAddEntry] is when its [try] block threw. *)
Lemma handleAddEntry_failed (snap s : State K) (w : World B) (k : K)
  (e : exn) :
  aesKey snap = Some k ->
  fst (fst (addTry c k (newEntry snap) w)) = Throw e ->
  handleAddEntry c snap s w
  = (setIsAdding false
       (setError msgAddFailed (setError "" (setIsAdding true s))),
     snd (fst (addTry c k (newEntry snap) w)),
     EvPreventDefault :: snd (addTry c k (newEntry snap) w)
       ++ [EvConsoleError e]).
Proof.
  intros Hk He. unfold handleAddEntry. rewrite Hk.
  destruct (addTry c k (newEntry snap) w) as [[[u|e'] w1] t1];
    simpl in He; [discriminate|].
  now injection He as ->.
Qed.

(** What [handleAddEntry] is when its [try] block completed. *)
Lemma handleAddEntry_added (snap s : State K) (w : World B) (k : K)
  (u : unit) :
  aesKey snap = Some k ->
  fst (fst (addTry c k (newEntry snap) w)) = Ok u ->
  let s2 :=
    setNewEntry blankEntry
      (setShowAddForm false (setError "" (setIsAdding true s))) in
  let w1 := snd (fst (addTry c k (newEntry snap) w)) in
  handleAddEntry c snap s w
  = (setIsAdding false (stateOf (handleUnlock c snap s2 w1)),
     worldOf (handleUnlock c snap s2 w1),
     EvPreventDefault :: snd (addTry c k (newEntry snap) w)
       ++ traceOf (handleUnlock c snap s2 w1)).
Proof.
  intros Hk Hu. unfold handleAddEntry, blankEntry. rewrite Hk.
  destruct (addTry c k (newEntry snap) w) as [[[u'|e'] w1] t1];
    simpl in Hu; [|discriminate].
  cbv zeta. simpl.
  destruct (handleUnlock c snap _ w1) as [[s3 w2] t2]. reflexivity.
Qed.

(** The calls of the [try] block of [handleAddEntry]: encryptions, then at
    most the one [addEntry] call, which is the last. *)
Lemma addTry_trace (k : K) (ne : NewEntry) (w : World B) :
  exists tenc tail,
    snd (addTry c k ne w) = tenc ++ tail /\
    Forall (fun ev => is_encrypt ev = true) tenc /\
    (tail = [] \/
     exists p, tail = [EvAddEntry p (fst (fst (addTry c k ne w)))]).
Proof.
  destruct (addTry_run c k ne w)
    as [(e & w' & tenc & E & Henc)|(p & w0 & tenc & ra & b1 & Eenc & _ & E)];
    rewrite E; simpl.
  - exists tenc, []. rewrite app_nil_r. auto.
  - exists tenc, [EvAddEntry p ra]. split; [reflexivity|].
    split; [|right; now exists p].
    pose proof (encryptFields_events c k (ne_website ne) (ne_username ne)
                  (ne_password ne) (ne_notes ne) w) as H.
    now rewrite Eenc in H.
Qed.
End AddOutcomes.

(** X1.  When the [try] block of [handleAddEntry] throws (an encryption or
    [addEntry] failed), the message is "Failed to add entry.", the busy flag
    is off, the add form stays open with the draft as typed, the session
    (flag, key, entries) is as before, and no refresh is started: the run
    contains no salt fetch, no vault fetch and no decrypt call. *)
Theorem add_failure_keeps_draft {B K : Type} (c : Collab B K)
  (snap s : State K) (w : World B) (k : K) (e : exn) :
  aesKey snap = Some k ->
  fst (fst (addTry c k (newEntry snap) w)) = Throw e ->
  let r := handleAddEntry c snap s w in
  error (stateOf r) = "Failed to add entry." /\
  isAdding (stateOf r) = false /\
  showAddForm (stateOf r) = showAddForm s /\
  newEntry (stateOf r) = newEntry s /\
  vaultUnlocked (stateOf r) = vaultUnlocked s /\
  aesKey (stateOf r) = aesKey s /\
  credentials (stateOf r) = credentials s /\
  (forall rs, ~ In (EvGetEncryptionSalt rs) (traceOf r)) /\
  (forall rv, ~ In (EvGetEncryptedVault rv) (traceOf r)) /\
  count_events is_decrypt (traceOf r) = 0%nat /\
  In (EvConsoleError e) (traceOf r).
Proof.
  intros Hk He r. unfold r.
  rewrite (handleAddEntry_failed c snap s w k e Hk He).
  unfold stateOf, traceOf. simpl.
  do 7 (split; [reflexivity|]).
  destruct (addTry_trace c k (newEntry snap) w)
    as (tenc & tail & -> & Henc & Htail).
  rewrite Forall_forall in Henc.
  assert (Hno : forall ev,
             is_encrypt ev = false ->
             (forall p ra, ev <> EvAddEntry p ra) ->
             ev <> EvPreventDefault -> ev <> EvConsoleError e ->
             ~ In ev (EvPreventDefault
                        :: (tenc ++ tail) ++ [EvConsoleError e])).
  { intros ev Hev Hadd Hpd Hce [H|H]; [congruence|].
    apply in_app_or in H. destruct H as [H|[H|[]]]; [|congruence].
    apply in_app_or in H. destruct H as [H|H].
    - apply Henc in H. congruence.
    - destruct Htail as [->|[p ->]]; [destruct H|].
      destruct H as [H|[]]. symmetry in H. now apply Hadd in H. }
  split; [intros rs; apply Hno; try reflexivity; discriminate|].
  split; [intros rv; apply Hno; try reflexivity; discriminate|].
  split.
  - apply count_events_none. rewrite Forall_forall. intros ev Hin.
    destruct (is_decrypt ev) eqn:Ed; [|reflexivity]. exfalso.
    destruct ev; try discriminate.
    revert Hin. apply Hno; try reflexivity; discriminate.
  - right. apply in_or_app. right. now left.
Qed.

(** The draft of the test session submitted while the server is
    unreachable. *)
Lemma add_failure_keeps_draft_witness :
  let s := Scenario.drafting in
  let w := TestDouble.world Scenario.offline in
  let r := handleAddEntry TestDouble.collab s s w in
  aesKey s = Some "aes:correct-horse" /\
  error (stateOf r) = "Failed to add entry." /\
  showAddForm (stateOf r) = true /\
  newEntry (stateOf r) = mkNewEntry "example.org" "bob" "s3cret" "".
Proof.
  intros s w r. split; [reflexivity|].
  destruct (add_failure_keeps_draft TestDouble.collab s s w
              "aes:correct-horse" (Error "Network Error") eq_refl eq_refl)
    as (He & _ & Hf & Hn & _).
  exact (conj He (conj Hf Hn)).
Defined.

(** X2.  When the [try] block of [handleAddEntry] completes, the add form is
    closed and the draft reset to blank whatever the refresh does, and no
    busy flag is left on.  The message after is never "Failed to add
    entry.": it is empty, or, when the refresh failed, it is the unlock
    message "Incorrect master password or decryption failed." and the
    session still shows the key and entries from before the add. *)
Theorem add_success_closes_form {B K : Type} (c : Collab B K)
  (snap s : State K) (w : World B) (k : K) (u : unit) :
  aesKey snap = Some k ->
  fst (fst (addTry c k (newEntry snap) w)) = Ok u ->
  let r := handleAddEntry c snap s w in
  showAddForm (stateOf r) = false /\
  newEntry (stateOf r) = blankEntry /\
  isAdding (stateOf r) = false /\
  isUnlocking (stateOf r) = false /\
  error (stateOf r) <> "Failed to add entry." /\
  (error (stateOf r) = "" \/
   (error (stateOf r) = "Incorrect master password or decryption failed." /\
    vaultUnlocked (stateOf r) = vaultUnlocked s /\
    aesKey (stateOf r) = aesKey s /\
    credentials (stateOf r) = credentials s)).
Proof.
  intros Hk Hu r. unfold r.
  rewrite (handleAddEntry_added c snap s w k u Hk Hu). cbv zeta.
  unfold stateOf at 1 2 3 4 5 6 7 8 9 10. simpl fst.
  destruct (handleUnlock_state c snap
              (setNewEntry blankEntry
                 (setShowAddForm false (setError "" (setIsAdding true s))))
              (snd (fst (addTry c k (newEntry snap) w))))
    as [E|(k' & ds & E)];
    unfold stateOf; rewrite E; simpl.
  - do 4 (split; [reflexivity|]). split; [discriminate|].
    right. repeat split.
  - do 4 (split; [reflexivity|]). split; [discriminate|]. now left.
Qed.

(** The draft of the test session submitted to a server that stores it but
    then fails to return the salt: the record is added, the form is closed,
    and the unlock message is shown over the old list. *)
Lemma add_success_closes_form_witness :
  let s := Scenario.drafting in
  let w := TestDouble.world Scenario.saltless in
  let r := handleAddEntry TestDouble.collab s s w in
  length (TestDouble.stored (backend (worldOf r))) = 2%nat /\
  showAddForm (stateOf r) = false /\
  newEntry (stateOf r) = blankEntry /\
  error (stateOf r) = "Incorrect master password or decryption failed." /\
  length (credentials (stateOf r)) = 1%nat.
Proof.
  intros s w r. split; [reflexivity|].
  destruct (add_success_closes_form TestDouble.collab s s w
              "aes:correct-horse" tt eq_refl eq_refl)
    as (Hf & Hn & _ & _ & _ & Hmsg).
  split; [exact Hf|]. split; [exact Hn|].
  destruct Hmsg as [Hempty|(Hm & _ & _ & Hc)].
  - vm_compute in Hempty. discriminate Hempty.
  - split; [exact Hm|]. fold r in Hc. rewrite Hc. reflexivity.
Defined.

(** ** The update flow *)

Section UpdateOutcomes.
Context {B K : Type} (c : Collab B K).

(** The encryptions of a payload that got built: the three texts in order,
    then the notes text when it is not empty. *)
Lemma encryptFields_calls (k : K) (web user pass note : string)
  (w w' : World B) (p : EntryPayload) (tr : list Event) :
  encryptFields c k web user pass note w = (Ok p, w', tr) ->
  tr = [EvEncryptData web; EvEncryptData user; EvEncryptData pass]
         ++ (if String.eqb note "" then [] else [EvEncryptData note]).
Proof.
  unfold encryptFields, awaitEncryptData, bind, emit, ret. simpl.
  destruct (encryptData c web k (backend w)) as [[ew|e] b1]; simpl;
    [|discriminate].
  destruct (encryptData c user k b1) as [[eu|e] b2]; simpl; [|discriminate].
  destruct (encryptData c pass k b2) as [[ep|e] b3]; simpl; [|discriminate].
  destruct (String.eqb note ""); simpl.
  - intros H. now injection H as _ _ <-.
  - destruct (encryptData c note k b3) as [[en|e] b4]; simpl; [|discriminate].
    intros H. now injection H as _ _ <-.
Qed.

(** The [try] block of the edit form's submit handler: it fails before any
    storage call, or submits the payload it built, once. *)
Lemma updateTry_run (k : K) (ed : DecryptedEntry) (w : World B) :
  (exists e w' tenc,
      updateTry c k (Some ed) w = (Throw e, w', tenc) /\
      Forall (fun ev => is_encrypt ev = true) tenc) \/
  (exists p w0 tenc ra b1,
      encryptFields c k (decryptedWebsite ed) (decryptedUsername ed)
        (decryptedPassword ed) (decryptedNotes ed) w = (Ok p, w0, tenc) /\
      updateEntry c (_id (entry ed)) p (backend w0) = (ra, b1) /\
      updateTry c k (Some ed) w
      = (ra, withBackend b1 w0, tenc ++ [EvUpdateEntry (_id (entry ed)) p ra])).
Proof.
  pose proof (encryptFields_events c k (decryptedWebsite ed)
                (decryptedUsername ed) (decryptedPassword ed)
                (decryptedNotes ed) w) as Hev.
  unfold updateTry, bind, callB.
  destruct (encryptFields c k (decryptedWebsite ed) (decryptedUsername ed)
              (decryptedPassword ed) (decryptedNotes ed) w)
    as [[[p|e] w0] tenc]; simpl in Hev.
  - right.
    destruct (updateEntry c (_id (entry ed)) p (backend w0)) as [ra b1] eqn:Ea.
    exists p, w0, tenc, ra, b1. auto.
  - left. exists e, w0, tenc. auto.
Qed.

(** What the submit handler of the edit form is when its [try] block
    threw. *)
Lemma handleUpdateEntry_failed (snap s : State K) (w : World B) (k : K)
  (e : exn) :
  aesKey snap = Some k ->
  fst (fst (updateTry c k (editingEntry snap) w)) = Throw e ->
  handleUpdateEntry c snap s w
  = (setIsUpdating false
       (setError msgUpdateFailed (setError "" (setIsUpdating true s))),
     snd (fst (updateTry c k (editingEntry snap) w)),
     EvPreventDefault :: snd (updateTry c k (editingEntry snap) w)
       ++ [EvConsoleError e]).
Proof.
  intros Hk He. unfold handleUpdateEntry. rewrite Hk.
  destruct (updateTry c k (editingEntry snap) w) as [[[u|e'] w1] t1];
    simpl in He; [discriminate|].
  now injection He as ->.
Qed.

(** What it is when its [try] block completed. *)
Lemma handleUpdateEntry_updated (snap s : State K) (w : World B) (k : K)
  (u : unit) :
  aesKey snap = Some k ->
  fst (fst (updateTry c k (editingEntry snap) w)) = Ok u ->
  let s2 := setEditingEntry None (setError "" (setIsUpdating true s)) in
  let w1 := snd (fst (updateTry c k (editingEntry snap) w)) in
  handleUpdateEntry c snap s w
  = (setIsUpdating false (stateOf (handleUnlock c snap s2 w1)),
     worldOf (handleUnlock c snap s2 w1),
     EvPreventDefault :: snd (updateTry c k (editingEntry snap) w)
       ++ traceOf (handleUnlock c snap s2 w1)).
Proof.
  intros Hk Hu. unfold handleUpdateEntry. rewrite Hk.
  destruct (updateTry c k (editingEntry snap) w) as [[[u'|e'] w1] t1];
    simpl in Hu; [|discriminate].
  cbv zeta. simpl.
  destruct (handleUnlock c snap _ w1) as [[s3 w2] t2]. reflexivity.
Qed.

(** The calls of the [try] block: encryptions, then at most the one
    [updateEntry] call, which is the last. *)
Lemma updateTry_trace (k : K) (editing : option DecryptedEntry)
  (w : World B) :
  exists tenc tail,
    snd (updateTry c k editing w) = tenc ++ tail /\
    Forall (fun ev => is_encrypt ev = true) tenc /\
    (tail = [] \/
     exists id p,
       tail = [EvUpdateEntry id p (fst (fst (updateTry c k editing w)))]).
Proof.
  destruct editing as [ed|].
  2:{ exists [], []. simpl. auto. }
  destruct (updateTry_run k ed w)
    as [(e & w' & tenc & E & Henc)|(p & w0 & tenc & ra & b1 & Eenc & _ & E)];
    rewrite E; simpl.
  - exists tenc, []. rewrite app_nil_r. auto.
  - exists tenc, [EvUpdateEntry (_id (entry ed)) p ra].
    split; [reflexivity|]. split; [|right; now exists (_id (entry ed)), p].
    pose proof (encryptFields_events c k (decryptedWebsite ed)
                  (decryptedUsername ed) (decryptedPassword ed)
                  (decryptedNotes ed) w) as H.
    now rewrite Eenc in H.
Qed.
End UpdateOutcomes.

(** X3.  Every [updateEntry] call in a run of the edit form's submit handler
    is for the id of the entry open in the edit form, comes right after the
    encryptions of that entry's website, username and password texts, in
    that order, and of its notes text when that is not empty, and carries a
    payload with no notes envelope exactly when the notes text is empty. *)
Theorem update_submits_edited_entry {B K : Type} (c : Collab B K)
  (snap s : State K) (w : World B) (id : string) (p : EntryPayload)
  (r : res unit) :
  In (EvUpdateEntry id p r) (traceOf (handleUpdateEntry c snap s w)) ->
  exists ed rest,
    editingEntry snap = Some ed /\
    id = _id (entry ed) /\
    (p_notes p = None <-> decryptedNotes ed = "") /\
    traceOf (handleUpdateEntry c snap s w)
    = EvPreventDefault
        :: ([EvEncryptData (decryptedWebsite ed);
             EvEncryptData (decryptedUsername ed);
             EvEncryptData (decryptedPassword ed)]
              ++ (if String.eqb (decryptedNotes ed) "" then []
                  else [EvEncryptData (decryptedNotes ed)]))
        ++ EvUpdateEntry id p r :: rest.
Proof.
  unfold traceOf, handleUpdateEntry.
  destruct (aesKey snap) as [k|].
  2:{ simpl. intros [H|[]]. discriminate. }
  destruct (editingEntry snap) as [ed|] eqn:Eed.
  2:{ simpl. intros [H|[H|[]]]; discriminate. }
  destruct (updateTry_run c k ed w)
    as [(e & w' & tenc & E & Henc)|(p0 & w0 & tenc & ra & b1 & Eenc & _ & E)];
    rewrite E.
  - simpl. intros [H|H]; [discriminate|]. exfalso.
    apply in_app_or in H. destruct H as [H|[H|[]]]; [|discriminate].
    rewrite Forall_forall in Henc. apply Henc in H. discriminate.
  - pose proof (encryptFields_events c k (decryptedWebsite ed)
                  (decryptedUsername ed) (decryptedPassword ed)
                  (decryptedNotes ed) w) as Henc.
    rewrite Eenc in Henc. simpl in Henc. rewrite Forall_forall in Henc.
    pose proof (encryptFields_calls c _ _ _ _ _ _ _ _ _ Eenc) as Hcalls.
    pose proof (proj1 (encryptFields_notes c _ _ _ _ _ _ _ _ _ Eenc))
      as Hnotes.
    assert (Hfind : forall l,
               Forall (fun ev => is_unlock_event ev = true) l ->
               In (EvUpdateEntry id p r)
                  (EvPreventDefault
                     :: (tenc ++ [EvUpdateEntry (_id (entry ed)) p0 ra]) ++ l) ->
               id = _id (entry ed) /\ p = p0 /\ r = ra).
    { intros l Hl [H|H]; [discriminate|].
      apply in_app_or in H. destruct H as [H|H].
      - apply in_app_or in H. destruct H as [H|[H|[]]].
        + apply Henc in H. discriminate.
        + now injection H as <- <- <-.
      - rewrite Forall_forall in Hl. apply Hl in H. discriminate. }
    destruct ra as [u|e].
    + pose proof (handleUnlock_events c snap
                    (setEditingEntry None (setError "" (setIsUpdating true s)))
                    (withBackend b1 w0)) as Hun.
      destruct (handleUnlock c snap _ (withBackend b1 w0)) as [[s3 w2] t2].
      unfold traceOf in Hun. simpl in Hun. simpl snd.
      intros Hin. destruct (Hfind t2 Hun Hin) as (-> & -> & ->).
      exists ed, t2. rewrite <- Hcalls, <- app_assoc. simpl. auto.
    + simpl snd. intros Hin.
      destruct (Hfind [EvConsoleError e]) as (-> & -> & ->);
        [repeat constructor|exact Hin|].
      exists ed, [EvConsoleError e]. rewrite <- Hcalls, <- app_assoc.
      simpl. auto.
Qed.

(** The stored record of the test session, edited to have notes: the update
    call is for its id and carries a notes envelope. *)
Lemma update_submits_edited_entry_witness :
  let s := Scenario.editing in
  let w := TestDouble.world TestDouble.server in
  exists p r,
    In (EvUpdateEntry "e1" p r)
       (traceOf (handleUpdateEntry TestDouble.collab s s w)) /\
    p_notes p <> None.
Proof.
  intros s w.
  assert (Hin : exists p r,
             In (EvUpdateEntry "e1" p r)
                (traceOf (handleUpdateEntry TestDouble.collab s s w))).
  { eexists. eexists. vm_compute. do 5 right. left. reflexivity. }
  destruct Hin as (p & r & Hin). exists p, r. split; [exact Hin|].
  destruct (update_submits_edited_entry TestDouble.collab s s w "e1" p r Hin)
    as (ed & rest & Hed & _ & Hnotes & _).
  injection Hed as <-. intros Hnone. apply Hnotes in Hnone.
  discriminate Hnone.
Defined.

(** X4.  When the [try] block of the edit form's submit handler throws (an
    encryption or [updateEntry] failed, or no entry is open in the form),
    the message is "Failed to update entry.", the busy flag is off, the
    entry stays open in the edit form, the session is as before and no
    refresh is started.  With no entry open it throws before any call: the
    run is [preventDefault] and the logged [TypeError]. *)
Theorem update_failure_keeps_form {B K : Type} (c : Collab B K)
  (snap s : State K) (w : World B) (k : K) :
  aesKey snap = Some k ->
  let r := handleUpdateEntry c snap s w in
  (forall e,
      fst (fst (updateTry c k (editingEntry snap) w)) = Throw e ->
      error (stateOf r) = "Failed to update entry." /\
      isUpdating (stateOf r) = false /\
      editingEntry (stateOf r) = editingEntry s /\
      vaultUnlocked (stateOf r) = vaultUnlocked s /\
      aesKey (stateOf r) = aesKey s /\
      credentials (stateOf r) = credentials s /\
      (forall rs, ~ In (EvGetEncryptionSalt rs) (traceOf r)) /\
      In (EvConsoleError e) (traceOf r)) /\
  (editingEntry snap = None ->
   exists msg,
     traceOf r = [EvPreventDefault; EvConsoleError (TypeError msg)] /\
     worldOf r = w /\
     error (stateOf r) = "Failed to update entry.").
Proof.
  intros Hk r. unfold r. split.
  - intros e He.
    rewrite (handleUpdateEntry_failed c snap s w k e Hk He).
    unfold stateOf, traceOf. simpl.
    do 6 (split; [reflexivity|]).
    destruct (updateTry_trace c k (editingEntry snap) w)
      as (tenc & tail & -> & Henc & Htail).
    rewrite Forall_forall in Henc.
    split.
    + intros rs [H|H]; [discriminate|].
      apply in_app_or in H. destruct H as [H|[H|[]]]; [|discriminate].
      apply in_app_or in H. destruct H as [H|H].
      * apply Henc in H. discriminate.
      * destruct Htail as [->|(id & p & ->)]; [destruct H|].
        destruct H as [H|[]]. discriminate.
    + right. apply in_or_app. right. now left.
  - intros Hnone. unfold handleUpdateEntry, stateOf, traceOf, worldOf.
    rewrite Hk, Hnone. simpl. eexists. repeat split.
Qed.

(** The edited record of the test session submitted while the server is
    unreachable. *)
Lemma update_failure_keeps_form_witness :
  let s := Scenario.editing in
  let w := TestDouble.world Scenario.offline in
  let r := handleUpdateEntry TestDouble.collab s s w in
  aesKey s = Some "aes:correct-horse" /\
  error (stateOf r) = "Failed to update entry." /\
  editingEntry (stateOf r) = editingEntry s.
Proof.
  intros s w r. split; [reflexivity|].
  destruct (proj1 (update_failure_keeps_form TestDouble.collab s s w
                     "aes:correct-horse" eq_refl)
              (Error "Network Error") eq_refl)
    as (He & _ & Hed & _).
  exact (conj He Hed).
Defined.

(** X5.  When the [try] block of the edit form's submit handler completes,
    the edit form is closed and no busy flag is left on, whatever the
    refresh does.  If the refresh completes (empty message) the entries
    shown are, record by record, the decryptions of the vault fetched after
    the update; if it fails the message is the unlock message, never
    "Failed to update entry.", and the entries from before the update stay
    on screen. *)
Theorem update_success_refreshes {B K : Type} (c : Collab B K)
  (snap s : State K) (w : World B) (k : K) (u : unit) :
  aesKey snap = Some k ->
  fst (fst (updateTry c k (editingEntry snap) w)) = Ok u ->
  let r := handleUpdateEntry c snap s w in
  editingEntry (stateOf r) = None /\
  isUpdating (stateOf r) = false /\
  isUnlocking (stateOf r) = false /\
  ((error (stateOf r) = "" /\
    exists k' rv,
      In (EvGetEncryptedVault (Ok rv)) (traceOf r) /\
      aesKey (stateOf r) = Some k' /\
      Forall2 (decryptsTo c k') (data rv) (credentials (stateOf r))) \/
   (error (stateOf r) = "Incorrect master password or decryption failed." /\
    vaultUnlocked (stateOf r) = vaultUnlocked s /\
    aesKey (stateOf r) = aesKey s /\
    credentials (stateOf r) = credentials s)).
Proof.
  intros Hk Hu r. unfold r.
  rewrite (handleUpdateEntry_updated c snap s w k u Hk Hu). cbv zeta.
  set (s2 := setEditingEntry None (setError "" (setIsUpdating true s))).
  set (w1 := snd (fst (updateTry c k (editingEntry snap) w))).
  destruct (handleUnlock_outcome c snap s2 w1)
    as (s3 & w3 & tr3 & E & _ & Hcases).
  rewrite E. unfold stateOf, traceOf. simpl.
  assert (Hrej : s3 = unlockRejected s2 ->
            editingEntry (setIsUpdating false s3) = None /\
            false = false /\
            isUnlocking s3 = false /\
            ((error s3 = "" /\
              exists k' rv,
                (EvPreventDefault = EvGetEncryptedVault (Ok rv) \/
                 In (EvGetEncryptedVault (Ok rv))
                    (snd (updateTry c k (editingEntry snap) w) ++ tr3)) /\
                aesKey s3 = Some k' /\
                Forall2 (decryptsTo c k') (data rv) (credentials s3)) \/
             (error s3 = "Incorrect master password or decryption failed." /\
              vaultUnlocked s3 = vaultUnlocked s /\
              aesKey s3 = aesKey s /\
              credentials s3 = credentials s))).
  { intros ->. do 3 (split; [reflexivity|]). right. repeat split. }
  destruct Hcases as [(e & tr0 & Hs3 & _)|Hphase]; [now apply Hrej|].
  destruct Hphase as (resp & method & ver & rv & trd & _ & _ & _ & Hd & Hend).
  destruct Hend as [(e & Hs3 & _)|(k' & ds & -> & -> & H2 & _)];
    [now apply Hrej|].
  simpl. do 3 (split; [reflexivity|]). left. split; [reflexivity|].
  exists k', rv. split; [|split; [reflexivity|exact H2]].
  right. apply in_or_app. right. simpl. auto.
Qed.

(** The edited record of the test session submitted to the test server:
    the form closes and the refreshed list shows the new notes. *)
Lemma update_success_refreshes_witness :
  let s := Scenario.editing in
  let w := TestDouble.world TestDouble.server in
  let r := handleUpdateEntry TestDouble.collab s s w in
  editingEntry (stateOf r) = None /\
  error (stateOf r) = "" /\
  map decryptedNotes (credentials (stateOf r)) = ["changed"].
Proof.
  intros s w r.
  destruct (update_success_refreshes TestDouble.collab s s w
              "aes:correct-horse" tt eq_refl eq_refl)
    as (Hed & _ & _ & Hdone).
  split; [exact Hed|].
  destruct Hdone as [(Hempty & _)|(Hm & _)].
  - split; [exact Hempty|reflexivity].
  - vm_compute in Hm. discriminate Hm.
Defined.

(** ** The delete flow *)

(** X6.  [handleDelete] does nothing when the confirmation is declined: no
    call, state and world unchanged.  When it is confirmed, [deleteEntry] is
    called first, once, for the given id, whether or not a key is resident
    (the handler has no key guard).  If that call fails the only change to
    the state is the message "Failed to delete entry." and nothing else is
    called; if it succeeds the rest of the run and the resulting state are
    those of a full [handleUnlock] on the state as it was. *)
Theorem delete_flow {B K : Type} (c : Collab B K) (entryId : string)
  (snap s : State K) (w : World B) :
  handleDelete c entryId false snap s w = (s, w, [EvConfirm false]) /\
  exists ra b1 rest,
    deleteEntry c entryId (backend w) = (ra, b1) /\
    traceOf (handleDelete c entryId true snap s w)
    = EvConfirm true :: EvDeleteEntry entryId ra :: rest /\
    (forall id' ra', ~ In (EvDeleteEntry id' ra') rest) /\
    match ra with
    | Throw e =>
        stateOf (handleDelete c entryId true snap s w)
        = setError "Failed to delete entry." s /\
        rest = [EvConsoleError e]
    | Ok _ =>
        stateOf (handleDelete c entryId true snap s w)
        = stateOf (handleUnlock c snap s (withBackend b1 w)) /\
        rest = traceOf (handleUnlock c snap s (withBackend b1 w))
    end.
Proof.
  split; [reflexivity|].
  unfold handleDelete, callB, stateOf, traceOf. simpl.
  destruct (deleteEntry c entryId (backend w)) as [[u|e] b1].
  - pose proof (handleUnlock_events c snap s (withBackend b1 w)) as Hun.
    destruct (handleUnlock c snap s (withBackend b1 w)) as [[s3 w2] t2] eqn:Eu.
    unfold traceOf in Hun. simpl in Hun.
    exists (Ok u), b1, t2. simpl. rewrite Eu. simpl.
    split; [reflexivity|]. split; [reflexivity|]. split; [|split; reflexivity].
    intros id' ra' Hin. rewrite Forall_forall in Hun. apply Hun in Hin.
    discriminate.
  - exists (Throw e), b1, [EvConsoleError e]. simpl.
    split; [reflexivity|]. split; [reflexivity|]. split; [|split; reflexivity].
    intros id' ra' [H|[]]. discriminate.
Qed.

(** Deleting the stored record of the test session: one delete call, then
    the refresh, which shows an empty vault; and while the server is
    unreachable only the message changes. *)
Lemma delete_flow_witness :
  let s := Scenario.unlocked in
  let ok := handleDelete TestDouble.collab "e1" true s s
              (TestDouble.world TestDouble.server) in
  let ko := handleDelete TestDouble.collab "e1" true s s
              (TestDouble.world Scenario.offline) in
  credentials (stateOf ok) = [] /\
  stateOf ko = setError "Failed to delete entry." s.
Proof.
  intros s ok ko. split; [reflexivity|].
  destruct (proj2 (delete_flow TestDouble.collab "e1" s s
                     (TestDouble.world Scenario.offline)))
    as (ra & b1 & rest & Ed & _ & _ & Hra).
  vm_compute in Ed. injection Ed as <- _. exact (proj1 Hra).
Defined.

(** ** Failing encryption *)

(** X7.  In the add and the update flow, when encrypting the fields fails
    the storage backend is never contacted: the run contains no storage
    call at all, and the message is the flow's own ("Failed to add entry.",
    "Failed to update entry."). *)
Theorem encryption_failure_reaches_no_storage {B K : Type} (c : Collab B K)
  (snap s : State K) (w : World B) (k : K) :
  aesKey snap = Some k ->
  (forall e,
      fst (fst (encryptFields c k (ne_website (newEntry snap))
                  (ne_username (newEntry snap)) (ne_password (newEntry snap))
                  (ne_notes (newEntry snap)) w)) = Throw e ->
      count_events is_storage (traceOf (handleAddEntry c snap s w)) = 0%nat /\
      error (stateOf (handleAddEntry c snap s w)) = "Failed to add entry.") /\
  (forall ed e,
      editingEntry snap = Some ed ->
      fst (fst (encryptFields c k (decryptedWebsite ed) (decryptedUsername ed)
                  (decryptedPassword ed) (decryptedNotes ed) w)) = Throw e ->
      count_events is_storage (traceOf (handleUpdateEntry c snap s w)) = 0%nat /\
      error (stateOf (handleUpdateEntry c snap s w))
      = "Failed to update entry.").
Proof.
  intros Hk. split.
  - intros e He.
    pose proof (encryptFields_events c k (ne_website (newEntry snap))
                  (ne_username (newEntry snap)) (ne_password (newEntry snap))
                  (ne_notes (newEntry snap)) w) as Hev.
    unfold handleAddEntry, addTry, bind, stateOf, traceOf. rewrite Hk.
    destruct (encryptFields c k _ _ _ _ w) as [[[p|e'] w0] tenc];
      simpl in He, Hev; [discriminate|].
    simpl. split; [|reflexivity].
    change (EvPreventDefault :: tenc ++ [EvConsoleError e'])
      with ([EvPreventDefault] ++ tenc ++ [EvConsoleError e']).
    rewrite !count_events_app, (encrypt_events_no_storage tenc Hev).
    reflexivity.
  - intros ed e Hed He.
    pose proof (encryptFields_events c k (decryptedWebsite ed)
                  (decryptedUsername ed) (decryptedPassword ed)
                  (decryptedNotes ed) w) as Hev.
    unfold handleUpdateEntry, updateTry, bind, stateOf, traceOf.
    rewrite Hk, Hed.
    destruct (encryptFields c k _ _ _ _ w) as [[[p|e'] w0] tenc];
      simpl in He, Hev; [discriminate|].
    simpl. split; [|reflexivity].
    change (EvPreventDefault :: tenc ++ [EvConsoleError e'])
      with ([EvPreventDefault] ++ tenc ++ [EvConsoleError e']).
    rewrite !count_events_app, (encrypt_events_no_storage tenc Hev).
    reflexivity.
Qed.

(** With an [encryptData] that fails, submitting the draft of the test
    session makes no storage call. *)
Lemma encryption_failure_reaches_no_storage_witness :
  let s := Scenario.drafting in
  let w := TestDouble.world TestDouble.server in
  aesKey s = Some "aes:correct-horse" /\
  count_events is_storage
    (traceOf (handleAddEntry Scenario.brokenCrypto s s w)) = 0%nat /\
  error (stateOf (handleAddEntry Scenario.brokenCrypto s s w))
  = "Failed to add entry.".
Proof.
  intros s w. split; [reflexivity|].
  exact (proj1 (encryption_failure_reaches_no_storage Scenario.brokenCrypto
                  s s w "aes:correct-horse" eq_refl)
           (Error "OperationError") eq_refl).
Defined.

(** ** What an unlock attempt does and does not do *)

(** X8.  [handleUnlock] only reads: every call it makes is a salt fetch, a
    key derivation, a tag computation, a vault fetch, a decryption or the
    logging of the caught error, so it never encrypts, never adds, updates
    or deletes a record and never touches a timer or a listener; the clock,
    the pending timers and the listeners are as before; and of the state it
    leaves the forms, the typed password, the other busy flags and
    [timeoutRef] as they were, with its own busy flag off. *)
Theorem unlock_only_reads {B K : Type} (c : Collab B K) (snap s : State K)
  (w : World B) :
  let r := handleUnlock c snap s w in
  (forall ev, In ev (traceOf r) -> is_unlock_event ev = true) /\
  count_events is_encrypt (traceOf r) = 0%nat /\
  (timers (worldOf r) = timers w /\ now (worldOf r) = now w /\
   nextHandle (worldOf r) = nextHandle w /\
   listening (worldOf r) = listening w) /\
  (showAddForm (stateOf r) = showAddForm s /\
   newEntry (stateOf r) = newEntry s /\
   editingEntry (stateOf r) = editingEntry s /\
   masterPassword (stateOf r) = masterPassword s /\
   isAdding (stateOf r) = isAdding s /\
   isUpdating (stateOf r) = isUpdating s /\
   timeoutRef (stateOf r) = timeoutRef s /\
   isUnlocking (stateOf r) = false).
Proof.
  intros r. unfold r.
  pose proof (handleUnlock_events c snap s w) as Hev.
  split; [now rewrite Forall_forall in Hev|].
  split; [now apply unlock_events_no_encrypt|].
  split.
  - destruct (handleUnlock_neutral c snap s w) as (_ & _ & b & ->).
    repeat split.
  - destruct (handleUnlock_state c snap s w) as [E|(k & ds & E)];
      unfold stateOf; rewrite E; repeat split.
Qed.

Section DecryptCounts.
Context {B K : Type} (c : Collab B K).

Lemma decryptEntry_count (k : K) (e : VaultEntry) (w : World B) :
  (count_events is_decrypt (snd (decryptEntry c k e w)) <= 4)%nat /\
  (forall d, fst (fst (decryptEntry c k e w)) = Ok d ->
             count_events is_decrypt (snd (decryptEntry c k e w))
             = decryptCalls e).
Proof.
  unfold decryptEntry, bind, envelopeOf, awaitDecryptData, ret, throw,
    decryptCalls, count_events.
  destruct e as [id [ew|] [eu|] [ep|] en]; simpl.
  all: repeat match goal with
         | |- context [decryptData c ?a ?b ?k] =>
             destruct (decryptData c a b k); simpl
         | |- context [match ?n with Some _ => _ | None => _ end] =>
             destruct n; simpl
         end.
  all: split; [lia|intros d Hd; try discriminate; reflexivity].
Qed.

Lemma decryptAll_count (k : K) (l : list VaultEntry) (w : World B) :
  (count_events is_decrypt (snd (promiseAllMap (decryptEntry c k) l w))
   <= 4 * length l)%nat /\
  (forall ds, fst (fst (promiseAllMap (decryptEntry c k) l w)) = Ok ds ->
              count_events is_decrypt
                (snd (promiseAllMap (decryptEntry c k) l w))
              = list_sum (map decryptCalls l)).
Proof.
  revert w. induction l as [|e l IH]; intros w.
  - simpl. split; [reflexivity|]. intros ds _. reflexivity.
  - cbn [promiseAllMap].
    destruct (decryptEntry_run c k e w) as (r1 & t1 & E1 & _).
    destruct (decryptEntry_count k e w) as [Hle1 Heq1].
    rewrite E1 in Hle1, Heq1 |- *. simpl in Hle1, Heq1.
    destruct (IH w) as [Hle2 Heq2].
    destruct (promiseAllMap (decryptEntry c k) l w) as [[rs w2] t2].
    simpl in Hle2, Heq2 |- *. rewrite count_events_app.
    split; [lia|].
    intros ds Hds. destruct r1 as [d|x]; [|discriminate].
    destruct rs as [ds'|x]; [|discriminate].
    rewrite (Heq1 d eq_refl), (Heq2 ds' eq_refl). reflexivity.
Qed.
End DecryptCounts.

(** X9.  In a run of [handleUnlock] that fetched the vault, at most four
    [decryptData] calls are made per fetched record; and when the attempt
    completes (no error message) the number of calls is exactly three for
    each record without a notes envelope plus four for each record with
    one: an absent notes field costs no call. *)
Theorem unlock_decrypt_call_count {B K : Type} (c : Collab B K)
  (snap s s' : State K) (w w' : World B) (tr : list Event)
  (rv : VaultResponse) :
  handleUnlock c snap s w = (s', w', tr) ->
  In (EvGetEncryptedVault (Ok rv)) tr ->
  (count_events is_decrypt tr <= 4 * length (data rv))%nat /\
  (error s' = "" ->
   count_events is_decrypt tr = list_sum (map decryptCalls (data rv))).
Proof.
  unfold handleUnlock.
  destruct (unlockTry_shape c (masterPassword snap) w)
    as (r & w1 & tr1 & E & _ & _ & [(e & -> & _ & Hnf)|Hphase]); rewrite E.
  - intros H. injection H as <- <- <-. intros Hin. exfalso.
    apply in_app_or in Hin. destruct Hin as [Hin|[Hin|[]]]; [|discriminate].
    now apply Hnf in Hin.
  - destruct Hphase
      as (resp & method & ver & rv0 & k & rd & trd & -> & _ & _ & _ & Ed & ->
          & _).
    destruct (decryptAll_run c k (data rv0) w1)
      as (rd' & trd' & Ed' & Hdec & _).
    rewrite Ed in Ed'. injection Ed' as <- <-.
    destruct (decryptAll_count c k (data rv0) w1) as [Hle Heq].
    rewrite Ed in Hle, Heq. simpl in Hle, Heq.
    assert (Hrv : forall tl,
               (forall ev, In ev tl -> is_unlock_event ev = true /\
                                       is_decrypt ev = false /\
                                       forall x, ev <> EvGetEncryptedVault x) ->
               In (EvGetEncryptedVault (Ok rv))
                  (verifiedPrefix (masterPassword snap) method resp ver rv0
                     ++ trd ++ tl) ->
               rv = rv0).
    { intros tl Htl Hin.
      assert (Heq' : Ok rv = Ok rv0); [|now injection Heq'].
      apply (verified_trace_vault (masterPassword snap) method resp ver rv0
               trd tl (Ok rv) Hdec); [|exact Hin].
      intros r' Hr'. now apply (proj2 (proj2 (Htl _ Hr')) r'). }
    unfold count_events in *.
    destruct rd as [ds|e]; intros H; injection H as <- <- <-; intros Hin.
    + rewrite (Hrv []); [|intros ev []|now rewrite app_nil_r].
      simpl. split; [exact Hle|]. intros _. exact (Heq ds eq_refl).
    + rewrite (Hrv [EvConsoleError e]).
      * simpl. rewrite filter_app, length_app. simpl.
        split; [lia|discriminate].
      * intros ev [<-|[]]. repeat split. discriminate.
      * rewrite app_assoc. exact Hin.
Qed.

(** The test session: one stored record without notes, three decrypt
    calls. *)
Lemma unlock_decrypt_call_count_witness :
  let s := TestDouble.typed "correct-horse" in
  let r := handleUnlock TestDouble.collab s s
             (TestDouble.world TestDouble.server) in
  In (EvGetEncryptedVault (Ok (mkVaultResponse [TestDouble.aliceEntry])))
     (traceOf r) /\
  count_events is_decrypt (traceOf r) = 3%nat.
Proof.
  intros s r.
  assert (Hin : In (EvGetEncryptedVault
                      (Ok (mkVaultResponse [TestDouble.aliceEntry])))
                   (traceOf r))
    by (vm_compute; auto 10).
  split; [exact Hin|].
  exact (proj2 (unlock_decrypt_call_count TestDouble.collab s s (stateOf r)
                  (TestDouble.world TestDouble.server) (worldOf r) (traceOf r)
                  (mkVaultResponse [TestDouble.aliceEntry]) eq_refl Hin)
           eq_refl).
Defined.

(** ** What holds after every sequence of inputs *)

Section Reachable.
Context {B K : Type} (c : Collab B K).

Lemma after_render (prev : bool) (h : State K * World B * list Event) :
  stateOf (let '(s1, w1, t1) := h in
           let '(s2, w2, t2) := commitEffect prev s1 w1 in
           (s2, w2, t1 ++ t2))
  = stateOf (commitEffect prev (stateOf h) (worldOf h)) /\
  worldOf (let '(s1, w1, t1) := h in
           let '(s2, w2, t2) := commitEffect prev s1 w1 in
           (s2, w2, t1 ++ t2))
  = worldOf (commitEffect prev (stateOf h) (worldOf h)).
Proof.
  destruct h as [[s1 w1] t1]. unfold stateOf, worldOf. simpl.
  destruct (commitEffect prev s1 w1) as [[s2 w2] t2]. split; reflexivity.
Qed.

(** An input other than waiting is its handler followed by the render. *)
Lemma step_handler (i : Input) (s : State K) (w : World B) :
  (forall t, i <> WaitUntil t) ->
  stateOf (step c i s w)
  = stateOf (commitEffect (vaultUnlocked s) (stateOf (handlerOf c i s w))
               (worldOf (handlerOf c i s w))) /\
  worldOf (step c i s w)
  = worldOf (commitEffect (vaultUnlocked s) (stateOf (handlerOf c i s w))
               (worldOf (handlerOf c i s w))).
Proof.
  intros Hi. destruct i; try (now destruct (Hi t)); unfold step.
  - apply (after_render (vaultUnlocked s) (handlerOf c (TypeMasterPassword v) s w)).
  - apply (after_render (vaultUnlocked s) (handlerOf c ClickUnlock s w)).
  - apply (after_render (vaultUnlocked s) (handlerOf c (SetShowAddForm v) s w)).
  - apply (after_render (vaultUnlocked s) (handlerOf c (EditNewEntry v) s w)).
  - apply (after_render (vaultUnlocked s) (handlerOf c SubmitAdd s w)).
  - apply (after_render (vaultUnlocked s) (handlerOf c (SetEditingEntry v) s w)).
  - apply (after_render (vaultUnlocked s) (handlerOf c SubmitUpdate s w)).
  - apply (after_render (vaultUnlocked s)
             (handlerOf c (ClickDelete entryId confirmed) s w)).
  - apply (after_render (vaultUnlocked s) (handlerOf c Activity s w)).
Qed.

Lemma handlerOf_neutral (i : Input) (s : State K) (w : World B) :
  isAction i = true -> sessionNeutral s w (handlerOf c i s w).
Proof.
  destruct i; simpl; intros Hi; try discriminate; unfold handlerOf.
  - now apply setter_neutral.
  - apply handleUnlock_neutral.
  - now apply setter_neutral.
  - now apply setter_neutral.
  - apply handleAddEntry_neutral.
  - now apply setter_neutral.
  - apply handleUpdateEntry_neutral.
  - apply handleDelete_neutral.
Qed.

(** The render after a session-neutral handler leaves the clock alone; it
    leaves the pending timer alone when the session was unlocked, and when
    it unlocks a locked session it arms the timer one [AUTO_LOCK_TIME]
    ahead. *)
Lemma commit_neutral_world (s : State K) (w : World B)
  (r : State K * World B * list Event) :
  sessionInv s w -> sessionNeutral s w r ->
  let r' := commitEffect (vaultUnlocked s) (stateOf r) (worldOf r) in
  now (worldOf r') = now w /\
  (vaultUnlocked s = true ->
   timers (worldOf r') = timers w /\
   timeoutRef (stateOf r') = timeoutRef s /\
   listening (worldOf r') = listening w /\
   vaultUnlocked (stateOf r') = true) /\
  (vaultUnlocked s = false -> vaultUnlocked (stateOf r') = true ->
   armed (stateOf r') (worldOf r') (now w + AUTO_LOCK_TIME)).
Proof.
  intros (Hn & _ & Hl) (Hr & Hv & b & Hw). cbv zeta.
  destruct r as [[s1 w1] t1]. unfold stateOf, worldOf in *. simpl in *.
  subst w1.
  destruct (vaultUnlocked s) eqn:Es.
  - assert (Es1 : vaultUnlocked s1 = true) by (destruct Hv; assumption).
    unfold commitEffect. rewrite Es1. simpl.
    split; [reflexivity|]. split; [|discriminate].
    intros _. repeat split; assumption.
  - destruct (Hl eq_refl) as (_ & Ht).
    destruct (vaultUnlocked s1) eqn:Es1.
    + pose proof (commitEffect_arms s1 (withBackend b w) Es1 Ht Hn)
        as [Harm Hnow].
      split; [exact Hnow|]. split; [discriminate|]. intros _ _. exact Harm.
    + unfold commitEffect. rewrite Es1. simpl.
      split; [reflexivity|]. split; [discriminate|].
      intros _ H. congruence.
Qed.

(** [armed] determines when the timer is due. *)
Lemma armed_due_unique (s : State K) (w : World B) (d1 d2 : Z) :
  armed s w d1 -> armed s w d2 -> d1 = d2.
Proof.
  intros (_ & _ & _ & h1 & _ & _ & H1) (_ & _ & _ & h2 & _ & _ & H2).
  rewrite H1 in H2. now injection H2.
Qed.

(** Every input keeps the pending timer within one [AUTO_LOCK_TIME]. *)
Lemma step_deadlineInv (i : Input) (s : State K) (w : World B) :
  sessionInv s w -> deadlineInv s w ->
  deadlineInv (stateOf (step c i s w)) (worldOf (step c i s w)).
Proof.
  intros Hinv Hdl.
  assert (Hfresh : forall (s' : State K) (w' : World B),
             armed s' w' (now w' + AUTO_LOCK_TIME) -> deadlineInv s' w').
  { intros s' w' Ha due Hdue.
    rewrite (armed_due_unique _ _ _ _ Hdue Ha).
    change AUTO_LOCK_TIME with 60000. lia. }
  destruct (isAction i) eqn:Hi.
  - assert (Hnw : forall t, i <> WaitUntil t)
      by (intros t ->; discriminate).
    destruct (step_handler i s w Hnw) as [-> ->].
    pose proof (commit_neutral_world s w _ Hinv (handlerOf_neutral i s w Hi))
      as (Hnow & Hun & Hlk).
    cbv zeta in Hnow, Hun, Hlk.
    set (r' := commitEffect (vaultUnlocked s)
                 (stateOf (handlerOf c i s w))
                 (worldOf (handlerOf c i s w))) in *.
    destruct (vaultUnlocked s) eqn:Es.
    + destruct (Hun eq_refl) as (Ht & Href & Hlis & Hu').
      intros due Hdue. rewrite Hnow. apply Hdl.
      destruct Hdue as (_ & Hl' & Hn' & h & Hh & Hr' & Ht').
      destruct Hinv as (Hn0 & _).
      split; [exact Es|]. split; [congruence|]. split; [exact Hn0|].
      exists h. split; [exact Hh|]. split; congruence.
    + intros due Hdue.
      assert (Hu' : vaultUnlocked (stateOf r') = true) by apply Hdue.
      specialize (Hlk eq_refl Hu').
      rewrite (armed_due_unique _ _ _ _ Hdue Hlk), Hnow.
      change AUTO_LOCK_TIME with 60000. lia.
  - destruct i; try discriminate.
    + destruct (vaultUnlocked s) eqn:Es.
      * destruct (sessionInv_armed s w Hinv Es) as [due Harm].
        destruct (step_activity_armed c s w due Harm) as [-> ->].
        destruct (handleActivity_rearms s w due Harm) as [Harm' Hnow].
        apply Hfresh. unfold stateOf, worldOf. now rewrite Hnow.
      * intros due Hdue. exfalso.
        pose proof (step_sessionInv c Activity s w Hinv) as Hinv'.
        destruct Hinv as (_ & _ & Hl). destruct (Hl Es) as (Hlis & _).
        assert (Hst : stateOf (step c Activity s w) = s).
        { unfold step, handleActivity, commitEffect, stateOf.
          rewrite Hlis, Es. reflexivity. }
        destruct Hdue as (Hu' & _). rewrite Hst in Hu'. congruence.
    + destruct (vaultUnlocked s) eqn:Es.
      * destruct (sessionInv_armed s w Hinv Es) as [due Harm].
        unfold step.
        destruct (Z_lt_le_dec t due) as [Hlt|Hle].
        -- rewrite (advance_before_due s w due t Harm Hlt).
           unfold stateOf, worldOf. simpl.
           intros due' Hdue'.
           rewrite (armed_due_unique _ _ _ _ Hdue'
                      (armed_withNow s w due (Z.max (now w) t) Harm)).
           simpl. specialize (Hdl due Harm). lia.
        -- destruct (advance_after_due s w due t Harm Hle) as (Hv & _).
           intros due' (Hu' & _). unfold stateOf in Hu'. congruence.
      * intros due' (Hu' & _). exfalso.
        destruct Hinv as (_ & _ & Hl). destruct (Hl Es) as (_ & Ht).
        revert Hu'. unfold step, advance, stateOf. rewrite Ht. simpl.
        congruence.
Qed.
End Reachable.

Section TimerFlags.
Context {B K : Type}.

(** The busy flags are those of before when the timer locks the session. *)
Lemma advance_after_due_flags (s : State K) (w : World B) (due t : Z) :
  armed s w due -> due <= t ->
  isUnlocking (stateOf (advance t s w)) = isUnlocking s /\
  isAdding (stateOf (advance t s w)) = isAdding s /\
  isUpdating (stateOf (advance t s w)) = isUpdating s /\
  error (stateOf (advance t s w)) = error s.
Proof.
  intros (Hu & _ & _ & h & Hh & Href & Ht) Hle.
  unfold advance, stateOf. rewrite Ht. simpl. rewrite Ht. simpl.
  apply Z.leb_le in Hle. rewrite Hle.
  unfold fireAutoLock, lockVault, clearTimeout. rewrite Href. simpl.
  assert (E0 : (h =? 0) = false) by (apply Z.eqb_neq; lia).
  rewrite E0, Ht. simpl. rewrite Z.eqb_refl. simpl.
  unfold commitEffect, effectCleanup, effectBody. simpl. rewrite Hu. simpl.
  repeat split; reflexivity.
Qed.

End TimerFlags.

(** ** Handlers in flight *)

(** *** A handler run with nothing in between *)

Section Uninterrupted.
Context {B K : Type} (c : Collab B K).

Lemma runTask_Update (f : State K -> State K) (log : list Event)
  (rest : Task B K) (s : State K) (w : World B) :
  runTask (Update f log rest) s w
  = let '(s1, w1, t1) := runTask rest (f s) w in (s1, w1, log ++ t1).
Proof. reflexivity. Qed.

Lemma runTask_unlockCatch (e : exn) (s : State K) (w : World B) :
  runTask (unlockCatch e) s w
  = (setIsUnlocking false (setError msgUnlockFailed s), w,
     [EvConsoleError e]).
Proof. reflexivity. Qed.

Lemma runTask_unlockAwaits (pw : string) (s : State K) (w : World B) :
  runTask (unlockAwaits c pw) s w
  = match unlockTry c pw w with
    | (Ok (k, decrypted), w1, t1) =>
        (setIsUnlocking false
           (setVaultUnlocked true
              (setCredentials decrypted (setAesKey (Some k) s))),
         w1, t1)
    | (Throw e, w1, t1) =>
        (setIsUnlocking false (setError msgUnlockFailed s),
         w1, t1 ++ [EvConsoleError e])
    end.
Proof.
  unfold unlockAwaits, unlockTry, unlockDecrypting, unlockCommit, awaitTry,
    bind, callB, liftRes, emit, awaitCreateHMAC, throw, ret.
  simpl.
  destruct (getEncryptionSalt c (backend w)) as [[resp|e0] b1];
    [|reflexivity].
  destruct resp as [[salt|] [method|] [ver|]]; simpl;
    try (destruct (String.eqb salt ""); simpl);
    try (destruct (String.eqb method ""); simpl);
    try reflexivity.
  destruct (base64ToBuffer c salt) as [buf|e1]; simpl; [|reflexivity].
  destruct (deriveKey c pw buf method) as [[aesK hmacKey]|e2]; simpl;
    [|reflexivity].
  destruct (createHMAC c hmacKey (secret ver)) as [tag|e3]; simpl;
    [|reflexivity].
  destruct (String.eqb tag (hmac ver)); simpl; [|reflexivity].
  destruct (getEncryptedVault c b1) as [[rv|e4] b2]; simpl; [|reflexivity].
  destruct (promiseAllMap (decryptEntry c aesK) (data rv)
              (withBackend b2 (withBackend b1 w))) as [[[ds|e5] w3] t3];
    simpl; rewrite ?app_nil_r; reflexivity.
Qed.

Lemma runTask_unlock (snap s : State K) (w : World B) :
  runTask (unlockTask c (masterPassword snap)) s w = handleUnlock c snap s w.
Proof.
  unfold unlockTask, handleUnlock.
  change (runTask (Update (fun s0 => setIsUnlocking true (setError "" s0)) []
                     (unlockAwaits c (masterPassword snap))) s w)
    with (let '(s1, w1, t1) :=
            runTask (unlockAwaits c (masterPassword snap))
              (setIsUnlocking true (setError "" s)) w in
          (s1, w1, [] ++ t1)).
  rewrite runTask_unlockAwaits.
  destruct (unlockTry c (masterPassword snap) w) as [[[[k ds]|e] w1] t1];
    reflexivity.
Qed.

Lemma runTask_encryptAwaits (key : K) (web user pass note : string)
  (k : EntryPayload -> Task B K) (handler : exn -> Task B K)
  (s : State K) (w : World B) :
  runTask (encryptAwaits c key web user pass note k handler) s w
  = match encryptFields c key web user pass note w with
    | (Ok p, w1, t1) =>
        let '(s2, w2, t2) := runTask (k p) s w1 in (s2, w2, t1 ++ t2)
    | (Throw e, w1, t1) =>
        let '(s2, w2, t2) := runTask (handler e) s w1 in (s2, w2, t1 ++ t2)
    end.
Proof.
  unfold encryptAwaits, encryptFields, awaitEncryptData, awaitTry, bind, emit,
    ret.
  simpl.
  destruct (encryptData c web key (backend w)) as [[ew|e] b1]; simpl.
  2:{ destruct (runTask (handler e) s (withBackend b1 w)) as [[s2 w2] t2].
      reflexivity. }
  destruct (encryptData c user key b1) as [[eu|e] b2]; simpl.
  2:{ destruct (runTask (handler e) s _) as [[s2 w2] t2]. reflexivity. }
  destruct (encryptData c pass key b2) as [[ep|e] b3]; simpl.
  2:{ destruct (runTask (handler e) s _) as [[s2 w2] t2]. reflexivity. }
  destruct (String.eqb note ""); simpl.
  - destruct (runTask (k _) s _) as [[s2 w2] t2]. reflexivity.
  - destruct (encryptData c note key b3) as [[en|e] b4]; simpl.
    + destruct (runTask (k _) s _) as [[s2 w2] t2]. reflexivity.
    + destruct (runTask (handler e) s _) as [[s2 w2] t2]. reflexivity.
Qed.

Lemma runTask_add (snap s : State K) (w : World B) :
  runTask (addTask c snap) s w = handleAddEntry c snap s w.
Proof.
  unfold addTask, handleAddEntry, addTry.
  rewrite runTask_Update. destruct (aesKey snap) as [key|]; [|reflexivity].
  rewrite runTask_Update, runTask_encryptAwaits. unfold bind.
  destruct (encryptFields c key (ne_website (newEntry snap))
              (ne_username (newEntry snap)) (ne_password (newEntry snap))
              (ne_notes (newEntry snap)) w) as [[[p|e] w1] t1]; simpl.
  2:{ rewrite ?app_nil_r. reflexivity. }
  unfold awaitTry, callB. cbn -[unlockAwaits].
  destruct (addEntry c p (backend w1)) as [[u|e] b2]; cbn -[unlockAwaits].
  - rewrite runTask_unlockAwaits.
    unfold handleUnlock.
    destruct (unlockTry c (masterPassword snap) (withBackend b2 w1))
      as [[[[k ds]|e] w3] t3]; simpl; rewrite <- ?app_assoc; reflexivity.
  - rewrite <- ?app_assoc. reflexivity.
Qed.

Lemma runTask_update (snap s : State K) (w : World B) :
  runTask (updateTask c snap) s w = handleUpdateEntry c snap s w.
Proof.
  unfold updateTask, handleUpdateEntry, updateTry.
  rewrite runTask_Update. destruct (aesKey snap) as [key|]; [|reflexivity].
  rewrite runTask_Update. destruct (editingEntry snap) as [ed|];
    [|reflexivity].
  rewrite runTask_encryptAwaits. unfold bind.
  destruct (encryptFields c key (decryptedWebsite ed) (decryptedUsername ed)
              (decryptedPassword ed) (decryptedNotes ed) w)
    as [[[p|e] w1] t1]; simpl.
  2:{ rewrite ?app_nil_r. reflexivity. }
  unfold awaitTry, callB. cbn -[unlockAwaits].
  destruct (updateEntry c (_id (entry ed)) p (backend w1)) as [[u|e] b2];
    cbn -[unlockAwaits].
  - rewrite runTask_unlockAwaits.
    unfold handleUnlock.
    destruct (unlockTry c (masterPassword snap) (withBackend b2 w1))
      as [[[[k ds]|e] w3] t3]; simpl; rewrite <- ?app_assoc; reflexivity.
  - rewrite <- ?app_assoc. reflexivity.
Qed.

Lemma runTask_delete (entryId : string) (confirmed : bool)
  (snap s : State K) (w : World B) :
  runTask (deleteTask c entryId confirmed snap) s w
  = handleDelete c entryId confirmed snap s w.
Proof.
  unfold deleteTask, handleDelete.
  destruct confirmed; cbn -[unlockAwaits]; [|reflexivity].
  unfold awaitTry, callB. cbn -[unlockAwaits].
  destruct (deleteEntry c entryId (backend w)) as [[u|e] b1];
    cbn -[unlockAwaits]; [|reflexivity].
  rewrite runTask_unlockAwaits. unfold handleUnlock.
  destruct (unlockTry c (masterPassword snap) (withBackend b1 w))
    as [[[[k ds]|e] w3] t3]; reflexivity.
Qed.

(** A handler run with nothing in between is the handler of the first
    part. *)
Lemma runTask_handler (i : Input) (s : State K) (w : World B) :
  isAction i = true ->
  runTask (taskOf c i s) s w = handlerOf c i s w.
Proof.
  destruct i; simpl; intros Hi; try discriminate; unfold handlerOf.
  - reflexivity.
  - apply runTask_unlock.
  - reflexivity.
  - reflexivity.
  - apply runTask_add.
  - reflexivity.
  - apply runTask_update.
  - apply runTask_delete.
Qed.
End Uninterrupted.

(** ** Every handler is calm and pays its busy flag *)

Section Calm.
Context {B K : Type} (c : Collab B K).

Lemma world_eta (w : World B) : w = withBackend (backend w) w.
Proof. now destruct w. Qed.

Lemma backendOnly_callB {A : Type} (ev : res A -> Event)
  (f : B -> res A * B) : backendOnly (callB ev f).
Proof.
  intros w. unfold callB. destruct (f (backend w)) as [r b'].
  now exists b'.
Qed.

Lemma backendOnly_derive (pw method : string) (buf : list Byte.byte) :
  backendOnly (emit (EvDeriveKey pw method) ;;;
               liftRes (deriveKey c pw buf method) : M B (K * K)).
Proof. intros w. exists (backend w). apply world_eta. Qed.

Lemma backendOnly_hmac (k : K) (sec : string) :
  backendOnly (awaitCreateHMAC (B := B) c k sec).
Proof. intros w. exists (backend w). apply world_eta. Qed.

Lemma backendOnly_decrypt (k : K) (l : list VaultEntry) :
  backendOnly (promiseAllMap (B := B) (decryptEntry c k) l).
Proof.
  intros w. destruct (decryptAll_run c k l w) as (r & tr & E & _).
  rewrite E. exists (backend w). apply world_eta.
Qed.

Lemma backendOnly_encrypt (pt : string) (k : K) :
  backendOnly (awaitEncryptData c pt k).
Proof.
  intros w. unfold awaitEncryptData, bind, emit. simpl.
  destruct (encryptData c pt k (backend w)) as [r b']. now exists b'.
Qed.
End Calm.

Ltac solve_quiet :=
  intros ?s; split; [reflexivity|];
  first [ left; repeat split; reflexivity
        | right; split; [reflexivity|eexists; reflexivity] ].

Ltac solve_backendOnly :=
  first [ apply backendOnly_callB | apply backendOnly_derive
        | apply backendOnly_hmac | apply backendOnly_decrypt
        | apply backendOnly_encrypt ].

Ltac calm_step :=
  match goal with
  | |- calm Returned => exact I
  | |- calm (Update _ _ _) => split; [solve_quiet|]
  | |- calm (Awaiting _ _) => split; [solve_backendOnly|intros [?x|?e]]
  | |- calm (match ?x with _ => _ end) => destruct x
  end.

Ltac owes_step :=
  match goal with
  | |- owes _ Returned _ => reflexivity
  | |- owes _ (Update _ _ _) _ =>
      first [ right; split; [intros; reflexivity|]
            | left; exists false; split; [intros; reflexivity|]
            | left; exists true; split; [intros; reflexivity|] ]
  | |- owes _ (Awaiting _ _) _ => intros [?x|?e]
  | |- owes _ (match ?x with _ => _ end) _ => destruct x
  end.

Section CalmTasks.
Context {B K : Type} (c : Collab B K).

Lemma calm_unlockAwaits (pw : string) : calm (unlockAwaits c pw).
Proof.
  unfold unlockAwaits, unlockDecrypting, unlockCommit, unlockCatch, awaitTry.
  repeat calm_step.
Qed.

Lemma calm_taskOf (i : Input) (snap : State K) : calm (taskOf c i snap).
Proof.
  pose proof (calm_unlockAwaits (masterPassword snap)) as Hu.
  destruct i; unfold taskOf;
    unfold addTask, updateTask, deleteTask, unlockTask, encryptAwaits,
      addCatch, updateCatch, awaitTry;
    repeat first [exact Hu | calm_step].
Qed.

Lemma owes_unlockAwaits_unlocking (pw : string) (d : bool) :
  owes isUnlocking (unlockAwaits c pw) d.
Proof.
  unfold unlockAwaits, unlockDecrypting, unlockCommit, unlockCatch, awaitTry.
  repeat owes_step.
Qed.

Lemma owes_unlockAwaits_adding (pw : string) :
  owes isAdding (unlockAwaits c pw) false.
Proof.
  unfold unlockAwaits, unlockDecrypting, unlockCommit, unlockCatch, awaitTry.
  repeat owes_step.
Qed.

Lemma owes_unlockAwaits_updating (pw : string) :
  owes isUpdating (unlockAwaits c pw) false.
Proof.
  unfold unlockAwaits, unlockDecrypting, unlockCommit, unlockCatch, awaitTry.
  repeat owes_step.
Qed.

Lemma owes_taskOf (i : Input) (snap : State K) :
  owes isUnlocking (taskOf c i snap) false /\
  owes isAdding (taskOf c i snap) false /\
  owes isUpdating (taskOf c i snap) false.
Proof.
  pose proof (owes_unlockAwaits_unlocking (masterPassword snap)) as H1.
  pose proof (owes_unlockAwaits_adding (masterPassword snap)) as H2.
  pose proof (owes_unlockAwaits_updating (masterPassword snap)) as H3.
  destruct i; unfold taskOf;
    unfold addTask, updateTask, deleteTask, unlockTask, encryptAwaits,
      addCatch, updateCatch, awaitTry;
    (split; [|split]);
    repeat first [apply H1 | exact H2 | exact H3 | owes_step].
Qed.
End CalmTasks.

(** ** One synchronous stretch *)

Section Stretch.
Context {B K : Type}.

Lemma runSync_calm (t : Task B K) :
  calm t -> forall s,
    calm (snd (runSync t s)) /\
    timeoutRef (fst (fst (runSync t s))) = timeoutRef s /\
    ((vaultUnlocked (fst (fst (runSync t s))) = vaultUnlocked s /\
      aesKey (fst (fst (runSync t s))) = aesKey s /\
      credentials (fst (fst (runSync t s))) = credentials s) \/
     (vaultUnlocked (fst (fst (runSync t s))) = true /\
      exists k, aesKey (fst (fst (runSync t s))) = Some k)).
Proof.
  induction t as [|f log rest IH|X call k IH]; intros Hc s; simpl.
  - split; [exact I|]. split; [reflexivity|]. left. auto.
  - destruct Hc as [Hq Hrest]. specialize (IH Hrest (f s)).
    destruct (runSync rest (f s)) as [[s1 l1] t1]. simpl in *.
    destruct IH as (Hcalm & Href & Hkey). destruct (Hq s) as (Hqr & Hqk).
    split; [exact Hcalm|]. split; [congruence|].
    destruct Hkey as [(Hv & Hk & Hcr)|Hopen]; [|now right].
    destruct Hqk as [(Hv' & Hk' & Hcr')|(Hv' & k & Hk')].
    + left. repeat split; congruence.
    + right. split; [congruence|]. exists k. congruence.
  - split; [exact Hc|]. split; [reflexivity|]. left. auto.
Qed.

Lemma runSync_owes (flag : State K -> bool) (t : Task B K) :
  forall d s,
    owes flag t d ->
    exists d',
      owes flag (snd (runSync t s)) d' /\
      (flag (fst (fst (runSync t s))) = d' \/
       (flag (fst (fst (runSync t s))) = flag s /\ d' = d)).
Proof.
  induction t as [|f log rest IH|X call k IH]; intros d s Ho; simpl.
  - exists d. split; [exact Ho|]. right. auto.
  - destruct Ho as [(v & Hv & Hrest)|(Hkeep & Hrest)].
    + destruct (IH v (f s) Hrest) as (d' & Hd' & Hflag).
      destruct (runSync rest (f s)) as [[s1 l1] t1]. simpl in *.
      exists d'. split; [exact Hd'|]. left.
      destruct Hflag as [H|[H ->]]; [exact H|]. now rewrite H.
    + destruct (IH d (f s) Hrest) as (d' & Hd' & Hflag).
      destruct (runSync rest (f s)) as [[s1 l1] t1]. simpl in *.
      exists d'. split; [exact Hd'|].
      destruct Hflag as [H|[H ->]]; [now left|right].
      split; [now rewrite H|reflexivity].
  - exists d. split; [exact Ho|]. right. auto.
Qed.

(** A task that owes a flag has not returned. *)
Lemma owes_parked (flag : State K -> bool) (t : Task B K)
  (l : list (Task B K)) :
  owes flag t true -> In t (park t l).
Proof.
  destruct t; simpl; [discriminate| |];
    intros _; apply in_or_app; right; now left.
Qed.

Lemma park_incl (t : Task B K) (l : list (Task B K)) (x : Task B K) :
  In x l -> In x (park t l).
Proof.
  destruct t; simpl; auto; intros H; apply in_or_app; now left.
Qed.

Lemma park_Forall (P : Task B K -> Prop) (t : Task B K)
  (l : list (Task B K)) :
  P t -> Forall P l -> Forall P (park t l).
Proof.
  intros Ht Hl. destruct t; simpl; auto; apply Forall_app; auto.
Qed.

Lemma split_nth {A : Type} (l : list A) (n : nat) (x : A) :
  nth_error l n = Some x ->
  l = firstn n l ++ x :: skipn (S n) l.
Proof.
  revert n. induction l as [|a l IH]; intros [|n] H; simpl in *;
    try discriminate.
  - now injection H as ->.
  - f_equal. now apply IH.
Qed.
End Stretch.

(** ** What every action keeps *)

Section SysInvariant.
Context {B K : Type} (c : Collab B K).

(** The render after a stretch of a calm task. *)
Lemma resume_shape (t : Task B K) (others : list (Task B K)) (y : Sys B K) :
  sessionInv (comp y) (world y) -> calm t ->
  pending (fst (resume t others y))
  = park (snd (runSync t (comp y))) others /\
  comp (fst (resume t others y))
  = setTimeoutRef (timeoutRef (comp (fst (resume t others y))))
      (fst (fst (runSync t (comp y)))) /\
  sessionInv (comp (fst (resume t others y))) (world (fst (resume t others y))) /\
  now (world (fst (resume t others y))) = now (world y) /\
  (vaultUnlocked (comp y) = true ->
   timers (world (fst (resume t others y))) = timers (world y) /\
   timeoutRef (comp (fst (resume t others y))) = timeoutRef (comp y) /\
   listening (world (fst (resume t others y))) = listening (world y) /\
   vaultUnlocked (comp (fst (resume t others y))) = true) /\
  (vaultUnlocked (comp y) = false ->
   vaultUnlocked (comp (fst (resume t others y))) = true ->
   armed (comp (fst (resume t others y))) (world (fst (resume t others y)))
         (now (world y) + AUTO_LOCK_TIME)).
Proof.
  intros Hinv Hcalm.
  destruct (runSync_calm t Hcalm (comp y)) as (_ & Href & Hkey).
  unfold resume.
  destruct (runSync t (comp y)) as [[s1 l1] t'] eqn:E. simpl in Href, Hkey.
  assert (Hneu : sessionNeutral (comp y) (world y) (s1, world y, l1)).
  { split; [exact Href|]. split.
    - destruct Hkey as [(Hv & _)|(Hv & _)]; auto.
    - exists (backend (world y)). apply world_eta. }
  pose proof (commit_after_neutral _ _ _ Hinv Hneu) as (Hinv' & _ & Hst).
  pose proof (commit_neutral_world _ _ _ Hinv Hneu) as (Hnow & Hun & Hlk).
  cbv zeta in Hinv', Hst, Hnow, Hun, Hlk.
  unfold stateOf, worldOf in *. simpl in *.
  destruct (commitEffect (vaultUnlocked (comp y)) s1 (world y))
    as [[s2 w2] l2]. simpl in *.
  split; [reflexivity|]. split; [exact Hst|]. split; [exact Hinv'|].
  split; [exact Hnow|]. split; [exact Hun|exact Hlk].
Qed.

Lemma resume_flagInv (flag : State K -> bool) (t : Task B K)
  (others : list (Task B K)) (y : Sys B K) :
  (forall o s, flag (setTimeoutRef o s) = flag s) ->
  sessionInv (comp y) (world y) -> calm t ->
  (exists d, owes flag t d) ->
  Forall (fun x => exists d, owes flag x d) others ->
  (flag (comp y) = true ->
   owes flag t true \/ Exists (fun x => owes flag x true) others) ->
  flagInv flag (fst (resume t others y)).
Proof.
  intros Hflag Hinv Hcalm [d Hd] Hothers Howner.
  destruct (resume_shape t others y Hinv Hcalm) as (Hp & Hc & _).
  unfold flagInv. rewrite Hp, Hc, Hflag. split.
  - apply park_Forall; [|exact Hothers].
    destruct (runSync_owes flag t d (comp y) Hd) as (d' & Hd' & _).
    now exists d'.
  - intros Hon. apply Exists_exists.
    destruct (flag (comp y)) eqn:Ef.
    + destruct (Howner eq_refl) as [Ht|Hex].
      * destruct (runSync_owes flag t true (comp y) Ht) as (d' & Hd' & Hcase).
        assert (d' = true) by (destruct Hcase as [H|[_ H]]; congruence).
        subst d'. eexists. split; [|exact Hd']. now apply owes_parked with flag.
      * apply Exists_exists in Hex. destruct Hex as (x & Hin & Hx).
        exists x. split; [now apply park_incl|exact Hx].
    + destruct (runSync_owes flag t d (comp y) Hd) as (d' & Hd' & Hcase).
      assert (d' = true) by (destruct Hcase as [H|[H _]]; congruence).
      subst d'. eexists. split; [|exact Hd']. now apply owes_parked with flag.
Qed.

(** An awaited call taking effect changes the backend only. *)
Lemma answer_flagInv (flag : State K -> bool) (s : State K)
  (w w1 : World B) (l1 l2 : list (Task B K)) (X : Type) (call : M B X)
  (k : res X -> Task B K) (r : res X) :
  flagInv flag (mkSys s w (l1 ++ Awaiting call k :: l2)) ->
  flagInv flag (mkSys s w1 (l1 ++ k r :: l2)).
Proof.
  unfold flagInv. simpl. intros [Hall Hown]. split.
  - apply Forall_app in Hall. destruct Hall as [H1 H2].
    inversion H2 as [|? ? [d Hd] H2']; subst.
    apply Forall_app. split; [exact H1|]. constructor; [|exact H2'].
    exists d. apply Hd.
  - intros Hon. specialize (Hown Hon).
    apply Exists_app in Hown. apply Exists_app.
    destruct Hown as [H|H]; [now left|right].
    inversion H as [? ? Hd|? ? H']; subst.
    + left. apply Hd.
    + now right.
Qed.

(** An activity signal or the passing of time leaves the busy flags as
    they are and keeps the key with the flag. *)
Lemma sync_step_state (i : Input) (s : State K) (w : World B) :
  isAction i = false -> sessionInv s w ->
  isUnlocking (stateOf (step c i s w)) = isUnlocking s /\
  isAdding (stateOf (step c i s w)) = isAdding s /\
  isUpdating (stateOf (step c i s w)) = isUpdating s /\
  (keyInv s -> keyInv (stateOf (step c i s w))).
Proof.
  assert (Hsame : forall s' : State K,
             (exists o, s' = setTimeoutRef o s) ->
             isUnlocking s' = isUnlocking s /\
             isAdding s' = isAdding s /\
             isUpdating s' = isUpdating s /\
             (keyInv s -> keyInv s')).
  { intros s' [o ->]. split; [reflexivity|]. split; [reflexivity|].
    split; [reflexivity|]. intros H. exact H. }
  assert (Hid : s = setTimeoutRef (timeoutRef s) s) by now destruct s.
  intros Hi Hinv. destruct i; try discriminate.
  - destruct (vaultUnlocked s) eqn:Es.
    + destruct (sessionInv_armed s w Hinv Es) as [due Harm].
      destruct (step_activity_armed c s w due Harm) as [-> _].
      unfold handleActivity, resetAutoLockTimer, stateOf.
      destruct Harm as (_ & -> & _).
      destruct (if truthyHandle (timeoutRef s) then _ else _) as [w1 t1].
      exact (Hsame _ (ex_intro _ (Some (nextHandle w1)) eq_refl)).
    + destruct Hinv as (_ & _ & Hl). destruct (Hl Es) as (Hlis & _).
      unfold step, handleActivity, commitEffect, stateOf.
      rewrite Hlis, Es. exact (Hsame s (ex_intro _ _ Hid)).
  - unfold step. destruct (vaultUnlocked s) eqn:Es.
    + destruct (sessionInv_armed s w Hinv Es) as [due Harm].
      destruct (Z_lt_le_dec t due) as [Hlt|Hle].
      * rewrite (advance_before_due s w due t Harm Hlt).
        exact (Hsame s (ex_intro _ _ Hid)).
      * destruct (advance_after_due s w due t Harm Hle)
          as (_ & _ & (Hv & Hk & Hc & _) & _).
        destruct (advance_after_due_flags s w due t Harm Hle)
          as (Hu & Ha & Hp & _).
        unfold stateOf in *.
        split; [exact Hu|]. split; [exact Ha|]. split; [exact Hp|].
        intros _. split; [congruence|auto].
    + destruct Hinv as (_ & _ & Hl). destruct (Hl Es) as (_ & Ht).
      unfold advance, stateOf. rewrite Ht.
      exact (Hsame s (ex_intro _ _ Hid)).
Qed.

Lemma flagInv_same (flag : State K -> bool) (y : Sys B K) (s : State K)
  (w : World B) :
  flag s = flag (comp y) -> flagInv flag y ->
  flagInv flag (mkSys s w (pending y)).
Proof.
  unfold flagInv. simpl. intros -> H. exact H.
Qed.

(** A stretch of a calm task that pays its flags keeps the invariant. *)
Lemma resume_sysInv (t : Task B K) (others : list (Task B K)) (y : Sys B K) :
  sysInv y -> calm t -> Forall calm others ->
  (forall flag : State K -> bool,
      flag = isUnlocking \/ flag = isAdding \/ flag = isUpdating ->
      (exists d, owes flag t d) /\
      Forall (fun x => exists d, owes flag x d) others /\
      (flag (comp y) = true ->
       owes flag t true \/ Exists (fun x => owes flag x true) others)) ->
  sysInv (fst (resume t others y)).
Proof.
  intros (Hinv & Hdl & Hkey & Hcalm & Hfu & Hfa & Hfp) Ht Hothers Hflags.
  destruct (resume_shape t others y Hinv Ht)
    as (Hp & Hc & Hinv' & Hnow & Hun & Hlk).
  destruct (runSync_calm t Ht (comp y)) as (Ht' & _ & Hstep).
  split; [exact Hinv'|]. split; [|split; [|split; [|split; [|split]]]].
  - destruct (vaultUnlocked (comp y)) eqn:Es.
    + destruct (Hun eq_refl) as (Htm & Href & Hlis & Hu').
      intros due Hdue. rewrite Hnow. apply Hdl.
      destruct Hdue as (_ & Hl' & Hn' & h & Hh & Hr' & Ht'').
      destruct Hinv as (Hn0 & _).
      split; [exact Es|]. split; [congruence|]. split; [exact Hn0|].
      exists h. split; [exact Hh|]. split; congruence.
    + intros due Hdue.
      specialize (Hlk eq_refl (proj1 Hdue)).
      rewrite (armed_due_unique _ _ _ _ Hdue Hlk), Hnow.
      change AUTO_LOCK_TIME with 60000. lia.
  - rewrite Hc. destruct Hkey as [Hku Hkl].
    destruct Hstep as [(Hv & Hk & Hcr)|(Hv & k & Hk)]; split; simpl.
    + rewrite Hv, Hk. exact Hku.
    + rewrite Hv, Hk, Hcr. exact Hkl.
    + intros _. now exists k.
    + congruence.
  - rewrite Hp. apply park_Forall; assumption.
  - destruct (Hflags isUnlocking) as (H1 & H2 & H3); auto.
    apply resume_flagInv; auto.
  - destruct (Hflags isAdding) as (H1 & H2 & H3); auto.
    apply resume_flagInv; auto.
  - destruct (Hflags isUpdating) as (H1 & H2 & H3); auto.
    apply resume_flagInv; auto.
Qed.

Lemma Exists_removeNth {A : Type} (P : A -> Prop) (l : list A) (n : nat)
  (x : A) :
  nth_error l n = Some x -> Exists P l ->
  P x \/ Exists P (removeNth n l).
Proof.
  intros Hn Hex. unfold removeNth.
  rewrite (split_nth l n x Hn) in Hex.
  apply Exists_app in Hex. destruct Hex as [H|H].
  - right. apply Exists_app. now left.
  - inversion H as [? ? Hx|? ? H']; subst; [now left|].
    right. apply Exists_app. now right.
Qed.

Lemma Forall_removeNth {A : Type} (P : A -> Prop) (l : list A) (n : nat) :
  Forall P l -> Forall P (removeNth n l).
Proof.
  intros H. unfold removeNth. revert n.
  induction H as [|a l Ha Hl IH]; intros [|n]; simpl; auto.
Qed.

(** Every action keeps the invariant. *)
Lemma istep_sysInv (a : Action) (y : Sys B K) :
  sysInv y -> sysInv (fst (istep c a y)).
Proof.
  intros Hy. pose proof Hy as (Hinv & Hdl & Hkey & Hcalm & Hfu & Hfa & Hfp).
  assert (Hstart : forall i,
             sysInv (fst (resume (taskOf c i (comp y)) (pending y) y))).
  { intros i. apply resume_sysInv; [exact Hy|apply calm_taskOf|exact Hcalm|].
    destruct (owes_taskOf c i (comp y)) as (Hu & Ha & Hp).
    intros flag [E|[E|E]]; subst flag.
    - split; [now exists false|]. split; [apply Hfu|].
      intros Hon. right. now apply Hfu.
    - split; [now exists false|]. split; [apply Hfa|].
      intros Hon. right. now apply Hfa.
    - split; [now exists false|]. split; [apply Hfp|].
      intros Hon. right. now apply Hfp. }
  assert (Hsync : forall i, isAction i = false ->
             sysInv (fst (let '(s1, w1, l1) := step c i (comp y) (world y) in
                          (mkSys s1 w1 (pending y), l1)))).
  { intros i Hi.
    pose proof (step_sessionInv c i _ _ Hinv) as H1.
    pose proof (step_deadlineInv c i _ _ Hinv Hdl) as H2.
    destruct (sync_step_state i _ _ Hi Hinv) as (Eu & Ea & Ep & Hk).
    destruct (step c i (comp y) (world y)) as [[s1 w1] l1].
    unfold stateOf, worldOf in *. simpl in *.
    split; [exact H1|]. split; [exact H2|]. split; [now apply Hk|].
    split; [exact Hcalm|].
    split; [|split]; apply flagInv_same; assumption. }
  destruct a as [i|n|n]; unfold istep.
  - destruct i; try apply Hstart; now apply Hsync.
  - destruct (nth_error (pending y) n) as [t|] eqn:En; [|exact Hy].
    destruct t as [|f log rest|X call k]; try exact Hy.
    pose proof (split_nth _ _ _ En) as Hsp.
    set (l1 := firstn n (pending y)) in *.
    set (l2 := skipn (S n) (pending y)) in *.
    assert (Hcalm' : Forall calm (l1 ++ Awaiting call k :: l2))
      by (rewrite <- Hsp; exact Hcalm).
    apply Forall_app in Hcalm'. destruct Hcalm' as [Hc1 Hc2].
    inversion Hc2 as [|? ? Hck Hc2']; subst.
    destruct Hck as [Hcall Hk].
    destruct (Hcall (world y)) as [b Hb].
    destruct (call (world y)) as [[r w1] lc]. simpl in Hb. subst w1.
    assert (Hflag : forall flag : State K -> bool,
               flagInv flag y ->
               flagInv flag (mkSys (comp y) (withBackend b (world y))
                               (l1 ++ k r :: l2))).
    { intros flag Hf.
      apply (answer_flagInv flag (comp y) (world y) _ l1 l2 X call k r).
      destruct y as [s w p]. simpl in *. rewrite <- Hsp. exact Hf. }
    simpl. split; [exact Hinv|]. split; [exact Hdl|]. split; [exact Hkey|].
    split; [apply Forall_app; split; [exact Hc1|constructor; auto]|].
    split; [|split]; now apply Hflag.
  - destruct (nth_error (pending y) n) as [t|] eqn:En; [|exact Hy].
    assert (Ht : calm t).
    { rewrite Forall_forall in Hcalm. apply Hcalm.
      eapply nth_error_In. exact En. }
    apply resume_sysInv; [exact Hy|exact Ht|now apply Forall_removeNth|].
    assert (Hflag : forall flag : State K -> bool,
               flagInv flag y ->
               (exists d, owes flag t d) /\
               Forall (fun x => exists d, owes flag x d)
                      (removeNth n (pending y)) /\
               (flag (comp y) = true ->
                owes flag t true \/
                Exists (fun x => owes flag x true)
                       (removeNth n (pending y)))).
    { intros flag [Hall Hown]. split; [|split].
      - rewrite Forall_forall in Hall. apply Hall.
        eapply nth_error_In. exact En.
      - now apply Forall_removeNth.
      - intros Hon.
        exact (Exists_removeNth (fun x => owes flag x true) _ n t En
                 (Hown Hon)). }
    intros flag [E|[E|E]]; subst flag; now apply Hflag.
Qed.

Lemma irun_sysInv (l : list Action) (y : Sys B K) :
  sysInv y -> sysInv (fst (irun c l y)).
Proof.
  revert y. induction l as [|a l IH]; intros y Hy; simpl; [exact Hy|].
  pose proof (istep_sysInv a y Hy) as H1.
  destruct (istep c a y) as [y1 t1]. simpl in H1.
  specialize (IH y1 H1). destruct (irun c l y1) as [y2 t2]. exact IH.
Qed.

Lemma mounted_sysInv (b : B) (t n : Z) :
  0 < n -> sysInv (mounted (K := K) b t n).
Proof.
  intros Hn. unfold sysInv, mounted, flagInv. simpl.
  split; [now apply initial_sessionInv|].
  split; [intros due (Hu & _); discriminate|].
  split; [split; [discriminate|auto]|].
  split; [constructor|].
  repeat split; try constructor; discriminate.
Qed.
End SysInvariant.

Section HandlerActions.
Context {B K : Type} (c : Collab B K).

(** While the session is unlocked, a handler starting, an awaited call
    taking effect and a handler going on leave the timer alone. *)
Lemma handler_action_keeps (a : Action) (y : Sys B K) :
  sysInv y -> vaultUnlocked (comp y) = true -> isHandlerAction a = true ->
  timers (world (fst (istep c a y))) = timers (world y) /\
  timeoutRef (comp (fst (istep c a y))) = timeoutRef (comp y) /\
  listening (world (fst (istep c a y))) = listening (world y) /\
  now (world (fst (istep c a y))) = now (world y) /\
  vaultUnlocked (comp (fst (istep c a y))) = true.
Proof.
  intros (Hinv & _ & _ & Hcalm & _) Hu Ha.
  assert (Hres : forall t others,
             calm t ->
             timers (world (fst (resume t others y))) = timers (world y) /\
             timeoutRef (comp (fst (resume t others y)))
             = timeoutRef (comp y) /\
             listening (world (fst (resume t others y)))
             = listening (world y) /\
             now (world (fst (resume t others y))) = now (world y) /\
             vaultUnlocked (comp (fst (resume t others y))) = true).
  { intros t others Ht.
    destruct (resume_shape t others y Hinv Ht) as (_ & _ & _ & Hnow & Hun & _).
    destruct (Hun Hu) as (H1 & H2 & H3 & H4). auto. }
  destruct a as [i|n|n]; unfold istep.
  - destruct i; try discriminate; apply Hres; apply calm_taskOf.
  - destruct (nth_error (pending y) n) as [t|] eqn:En; [|simpl; auto].
    destruct t as [|f log rest|X call k]; try (simpl; auto).
    assert (Ht : calm (Awaiting call k)).
    { rewrite Forall_forall in Hcalm. apply Hcalm.
      eapply nth_error_In. exact En. }
    destruct Ht as [Hcall _]. destruct (Hcall (world y)) as [b Hb].
    destruct (call (world y)) as [[r w1] lc]. simpl in Hb. subst w1.
    simpl. auto.
  - destruct (nth_error (pending y) n) as [t|] eqn:En; [|simpl; auto].
    apply Hres. rewrite Forall_forall in Hcalm. apply Hcalm.
    eapply nth_error_In. exact En.
Qed.

Lemma handler_actions_keep (l : list Action) (y : Sys B K) :
  sysInv y -> vaultUnlocked (comp y) = true ->
  forallb isHandlerAction l = true ->
  timers (world (fst (irun c l y))) = timers (world y) /\
  timeoutRef (comp (fst (irun c l y))) = timeoutRef (comp y) /\
  listening (world (fst (irun c l y))) = listening (world y) /\
  now (world (fst (irun c l y))) = now (world y) /\
  vaultUnlocked (comp (fst (irun c l y))) = true.
Proof.
  revert y. induction l as [|a l IH]; intros y Hy Hu Hl; simpl.
  - auto.
  - simpl in Hl. apply andb_prop in Hl. destruct Hl as [Ha Hl].
    pose proof (istep_sysInv c a y Hy) as Hy1.
    destruct (handler_action_keeps a y Hy Hu Ha) as (H1 & H2 & H3 & H4 & H5).
    destruct (istep c a y) as [y1 t1]. simpl in *.
    destruct (IH y1 Hy1 H5 Hl) as (I1 & I2 & I3 & I4 & I5).
    destruct (irun c l y1) as [y2 t2]. simpl in *.
    repeat split; congruence.
Qed.

Lemma nth_error_replaced {A : Type} (l : list A) (n : nat) (x z : A) :
  nth_error l n = Some x ->
  nth_error (firstn n l ++ z :: skipn (S n) l) n = Some z.
Proof.
  revert n. induction l as [|a l IH]; intros [|n] H; simpl in *;
    try discriminate; [reflexivity|now apply IH].
Qed.
End HandlerActions.

(** X10.  Mount the component fresh and let anything happen in any order:
    inputs, activity signals, time passing, awaited calls taking effect and
    handlers going on after them, with any number of handlers in flight.
    Afterwards: while the vault is locked no timer is pending and no
    listener is registered; while it is unlocked the listeners are
    registered and exactly one timer is pending, the one [timeoutRef]
    holds, due in the future and at most [AUTO_LOCK_TIME] ahead.  So when
    the clock then reaches one [AUTO_LOCK_TIME] later with nothing else
    having happened, the session is locked, with no key and no entry in
    the state, no timer and no listener; the handlers in flight are still
    in flight. *)
Theorem reachable_timer_discipline {B K : Type} (c : Collab B K) (b : B)
  (t n : Z) (actions : list Action) :
  0 < n ->
  let y := fst (irun c actions (mounted b t n)) in
  let y' := fst (istep c (Do (WaitUntil (now (world y) + AUTO_LOCK_TIME))) y) in
  (vaultUnlocked (comp y) = false ->
   timers (world y) = [] /\ listening (world y) = false) /\
  (vaultUnlocked (comp y) = true ->
   listening (world y) = true /\
   exists h d, timeoutRef (comp y) = Some h /\
               timers (world y) = [(h, d)] /\
               now (world y) < d <= now (world y) + AUTO_LOCK_TIME) /\
  Locked (comp y') /\ timers (world y') = [] /\
  listening (world y') = false /\ pending y' = pending y.
Proof.
  intros Hn y y'.
  pose proof (irun_sysInv c actions _ (mounted_sysInv b t n Hn))
    as (Hinv & Hdl & [_ Hkl] & _).
  fold y in Hinv, Hdl, Hkl.
  split; [|split].
  - intros Es. destruct Hinv as (_ & _ & Hl).
    destruct (Hl Es) as [Hlis Ht]. auto.
  - intros Es. destruct (sessionInv_armed _ _ Hinv Es) as [due Harm].
    pose proof (Hdl due Harm) as Hdue.
    destruct Harm as (_ & Hlis & _ & h & _ & Href & Ht).
    split; [exact Hlis|]. now exists h, due.
  - unfold y', istep, step.
    destruct (vaultUnlocked (comp y)) eqn:Es.
    + destruct (sessionInv_armed _ _ Hinv Es) as [due Harm].
      pose proof (Hdl due Harm) as Hdue.
      destruct (advance_after_due (comp y) (world y) due
                  (now (world y) + AUTO_LOCK_TIME) Harm (proj2 Hdue))
        as (_ & Ht & (Hv & Hk & Hc & _) & Hlis & _).
      destruct (advance _ (comp y) (world y)) as [[s1 w1] l1].
      simpl in *. repeat split; assumption.
    + destruct Hinv as (_ & _ & Hl). destruct (Hl Es) as [Hlis Ht].
      unfold advance. rewrite Ht. simpl.
      destruct (Hkl eq_refl) as [Hk Hc]. repeat split; assumption.
Qed.


(** The test session with the refresh of an add in flight at 59.999 s:
    unlocked with the timer of the unlock still pending. *)
Lemma reachable_timer_discipline_witness :
  let y := fst (irun TestDouble.collab
                  (Scenario.unlocking ++ Scenario.draftingUntilLate
                     ++ Scenario.adding)
                  (mounted TestDouble.server 0 1)) in
  0 < 1 /\
  vaultUnlocked (comp y) = true /\
  length (pending y) = 1%nat /\
  timers (world y) = [(1, 60000)] /\
  Locked (comp (fst (istep TestDouble.collab
                       (Do (WaitUntil (now (world y) + AUTO_LOCK_TIME))) y))).
Proof.
  intros y. split; [lia|].
  split; [vm_compute; reflexivity|].
  split; [vm_compute; reflexivity|].
  split; [vm_compute; reflexivity|].
  exact (proj1 (proj2 (proj2 (reachable_timer_discipline TestDouble.collab
                                TestDouble.server 0 1
                                (Scenario.unlocking
                                   ++ Scenario.draftingUntilLate
                                   ++ Scenario.adding)
                                Z.lt_0_1)))).
Defined.

(** X11.  Mount the component fresh and let anything happen in any order,
    with any number of handlers in flight.  Afterwards the key is in the
    state exactly while the unlocked flag is on, and a locked session holds
    no decrypted entry.  And when no handler is in flight no busy flag is
    on, since every handler that turns one on turns it off before it
    returns, on every path; the lock screen then has its button enabled
    and labelled [Unlock Vault], and the vault has no spinner over the
    table. *)
Theorem reachable_key_discipline {B K : Type} (c : Collab B K) (b : B)
  (t n : Z) (actions : list Action) :
  0 < n ->
  let y := fst (irun c actions (mounted b t n)) in
  (vaultUnlocked (comp y) = true <-> exists k, aesKey (comp y) = Some k) /\
  (vaultUnlocked (comp y) = false -> credentials (comp y) = []) /\
  (pending y = [] ->
   isUnlocking (comp y) = false /\ isAdding (comp y) = false /\
   isUpdating (comp y) = false /\
   (vaultUnlocked (comp y) = false ->
    render (comp y)
    = LockedScreen (masterPassword (comp y)) false "Unlock Vault"
        (if String.eqb (error (comp y)) "" then None
         else Some (error (comp y)))) /\
   (vaultUnlocked (comp y) = true ->
    exists body add ed, render (comp y) = VaultScreen false body add ed)).
Proof.
  intros Hn y.
  pose proof (irun_sysInv c actions _ (mounted_sysInv b t n Hn))
    as (_ & _ & [Hku Hkl] & _ & [_ Hfu] & [_ Hfa] & [_ Hfp]).
  fold y in Hku, Hkl, Hfu, Hfa, Hfp.
  split; [|split].
  - split; [exact Hku|]. intros [k Hk].
    destruct (vaultUnlocked (comp y)) eqn:Es; [reflexivity|].
    destruct (Hkl eq_refl) as [Hnone _]. congruence.
  - intros Es. now apply Hkl.
  - intros Hp. rewrite Hp in Hfu, Hfa, Hfp.
    assert (Hoff : forall flag : State K -> bool,
               (flag (comp y) = true ->
                Exists (fun x : Task B K => owes flag x true) []) ->
               flag (comp y) = false).
    { intros flag H. destruct (flag (comp y)); [|reflexivity].
      specialize (H eq_refl). inversion H. }
    pose proof (Hoff _ Hfu) as Hu.
    split; [exact Hu|]. split; [now apply Hoff|]. split; [now apply Hoff|].
    split; intros Es; unfold render; rewrite Es, Hu; simpl; eauto.
Qed.


(** The test session once the unlock has finished: nothing in flight,
    nothing busy. *)
Lemma reachable_key_discipline_witness :
  let y := fst (irun TestDouble.collab Scenario.unlocking
                  (mounted TestDouble.server 0 1)) in
  (0 < 1 /\ pending y = []) /\
  vaultUnlocked (comp y) = true /\
  isUnlocking (comp y) = false /\
  exists k, aesKey (comp y) = Some k.
Proof.
  intros y.
  assert (Hp : pending y = []) by (vm_compute; reflexivity).
  assert (Hu : vaultUnlocked (comp y) = true) by (vm_compute; reflexivity).
  split; [split; [lia|exact Hp]|]. split; [exact Hu|].
  destruct (reachable_key_discipline TestDouble.collab TestDouble.server 0 1
              Scenario.unlocking Z.lt_0_1) as (Hk & _ & Hidle).
  split; [exact (proj1 (Hidle Hp))|]. exact (proj1 Hk Hu).
Defined.

(** X12.  Only activity signals postpone the auto-lock.  Take any moment
    after the mount at which the vault is unlocked.  Whatever handlers then
    start, whatever awaited calls take effect and whatever handlers go on,
    in any order, the timer is not touched: the same timer is pending, with
    the same handle and due time, the clock is where it was, the listeners
    are registered and the session is unlocked; so, nothing else happening
    meanwhile, the session is still unlocked when the clock is taken to any
    time before the timer is due, and [lockVault] has run, leaving it
    locked with no key and no entry, when the clock is taken to that time
    or later.  (A handler still in flight goes on after that and may
    change the state again.) *)
Theorem handlers_do_not_postpone_lock {B K : Type} (c : Collab B K) (b : B)
  (t n : Z) (before acts : list Action) :
  0 < n ->
  let y0 := fst (irun c before (mounted b t n)) in
  let y1 := fst (irun c acts y0) in
  vaultUnlocked (comp y0) = true ->
  forallb isHandlerAction acts = true ->
  timers (world y1) = timers (world y0) /\
  timeoutRef (comp y1) = timeoutRef (comp y0) /\
  listening (world y1) = true /\
  now (world y1) = now (world y0) /\
  vaultUnlocked (comp y1) = true /\
  exists h due,
    timers (world y0) = [(h, due)] /\
    (forall t', t' < due ->
       vaultUnlocked (comp (fst (istep c (Do (WaitUntil t')) y1))) = true) /\
    (forall t', due <= t' ->
       Locked (comp (fst (istep c (Do (WaitUntil t')) y1)))).
Proof.
  intros Hn y0 y1 Hu Hacts.
  pose proof (irun_sysInv c before _ (mounted_sysInv b t n Hn)) as Hy0.
  fold y0 in Hy0.
  pose proof (irun_sysInv c acts _ Hy0) as Hy1. fold y1 in Hy1.
  destruct (handler_actions_keep c acts y0 Hy0 Hu Hacts)
    as (Ht & Href & Hlis & Hnow & Hu1).
  fold y1 in Ht, Href, Hlis, Hnow, Hu1.
  destruct Hy0 as (Hinv0 & _). destruct Hy1 as (Hinv1 & _).
  destruct (sessionInv_armed _ _ Hinv0 Hu) as [due Harm0].
  destruct (sessionInv_armed _ _ Hinv1 Hu1) as [due1 Harm1].
  assert (due1 = due).
  { destruct Harm0 as (_ & _ & _ & h0 & _ & _ & E0).
    destruct Harm1 as (_ & _ & _ & h1 & _ & _ & E1).
    rewrite Ht, E0 in E1. now injection E1. }
  subst due1.
  split; [exact Ht|]. split; [exact Href|].
  split; [destruct Harm1 as (_ & H & _); exact H|].
  split; [exact Hnow|]. split; [exact Hu1|].
  destruct Harm0 as (_ & _ & _ & h & _ & _ & E0).
  exists h, due. split; [exact E0|]. split.
  - intros t' Hlt. unfold istep, step.
    rewrite (advance_before_due _ _ _ t' Harm1 Hlt). simpl. exact Hu1.
  - intros t' Hle. unfold istep, step.
    destruct (advance_after_due _ _ due t' Harm1 Hle)
      as (_ & _ & (Hv & Hk & Hc & _) & _).
    destruct (advance t' (comp y1) (world y1)) as [[s1 w1] l1].
    simpl in *. repeat split; assumption.
Qed.


(** The unlocked test session at 59.999 s: an add is submitted, the record
    is stored and the refresh starts; the timer is still the one due at
    60 s, and at 60 s the session is locked. *)
Lemma handlers_do_not_postpone_lock_witness :
  let y0 := fst (irun TestDouble.collab
                   (Scenario.unlocking ++ Scenario.draftingUntilLate)
                   (mounted TestDouble.server 0 1)) in
  let y1 := fst (irun TestDouble.collab Scenario.adding y0) in
  (0 < 1 /\ vaultUnlocked (comp y0) = true /\
   forallb isHandlerAction Scenario.adding = true) /\
  timers (world y1) = [(1, 60000)] /\
  Locked (comp (fst (istep TestDouble.collab (Do (WaitUntil 60000)) y1))).
Proof.
  intros y0 y1.
  assert (Hu : vaultUnlocked (comp y0) = true) by (vm_compute; reflexivity).
  assert (Ht0 : timers (world y0) = [(1, 60000)])
    by (vm_compute; reflexivity).
  split; [split; [lia|split; [exact Hu|reflexivity]]|].
  destruct (handlers_do_not_postpone_lock TestDouble.collab TestDouble.server
              0 1 (Scenario.unlocking ++ Scenario.draftingUntilLate)
              Scenario.adding Z.lt_0_1 Hu eq_refl)
    as (Ht & _ & _ & _ & _ & h & due & Hdue & _ & Hlock).
  fold y0 in Ht, Hdue. fold y1 in Ht, Hlock.
  split; [rewrite Ht; exact Ht0|].
  rewrite Ht0 in Hdue. injection Hdue as _ <-.
  apply Hlock. lia.
Defined.

(** X13.  On the lock screen mouse and keyboard signals do nothing: the
    listeners are not registered while the vault is locked, so no timer is
    started, nothing of the state changes and nothing is called. *)
Theorem activity_ignored_while_locked {B K : Type} (c : Collab B K)
  (s : State K) (w : World B) :
  sessionInv s w -> vaultUnlocked s = false ->
  step c Activity s w = (s, w, []).
Proof.
  intros (_ & _ & Hl) Es. destruct (Hl Es) as [Hlis _].
  unfold step, handleActivity, commitEffect. now rewrite Hlis, Es.
Qed.

Lemma activity_ignored_while_locked_witness :
  let s := TestDouble.typed "correct-horse" in
  let w := TestDouble.world TestDouble.server in
  (sessionInv s w /\ vaultUnlocked s = false) /\
  step TestDouble.collab Activity s w = (s, w, []).
Proof.
  intros s w.
  assert (Hinv : sessionInv s w).
  { split; [reflexivity|]. split; [discriminate|].
    intros _. split; reflexivity. }
  split; [exact (conj Hinv eq_refl)|].
  exact (activity_ignored_while_locked TestDouble.collab s w Hinv eq_refl).
Defined.

(** X14.  Unmounting the component (leaving the page) runs the cleanup of
    the effect: afterwards no listener is registered and no timer is
    pending, so the auto-lock callback never runs later, whatever time
    passes; the cleanup itself changes nothing of the state and calls
    nothing but [removeEventListener] and [clearTimeout]. *)
Theorem unmount_cancels_timer {B K : Type} (s : State K) (w : World B) :
  sessionInv s w ->
  let r := unmount s w in
  stateOf r = s /\
  listening (worldOf r) = false /\
  timers (worldOf r) = [] /\
  backend (worldOf r) = backend w /\
  (forall ev, In ev (traceOf r) ->
              ev = EvRemoveListeners \/ exists h, ev = EvClearTimeout h) /\
  (forall t, advance t (stateOf r) (worldOf r)
             = (s, withNow (Z.max (now w) t) (worldOf r), [])).
Proof.
  intros (Hn & Hu & Hl) r. unfold r, unmount.
  destruct (vaultUnlocked s) eqn:Es.
  - destruct (Hu eq_refl) as (Hlis & h & d & Hh & Href & Ht).
    unfold effectCleanup, clearTimeout, stateOf, worldOf, traceOf, advance.
    rewrite Href. simpl.
    assert (E0 : (h =? 0) = false) by (apply Z.eqb_neq; lia).
    rewrite E0, Ht. simpl. rewrite Z.eqb_refl. simpl.
    repeat split.
    intros ev [<-|[<-|[]]]; [now left|right; now exists h].
  - destruct (Hl eq_refl) as (Hlis & Ht).
    unfold stateOf, worldOf, traceOf, advance. simpl. rewrite Ht. simpl.
    repeat split; auto. intros ev [].
Qed.

(** The unlocked test session, timer due at 60 s, is unmounted: a day
    later the timer has not run and the state is as it was. *)
Lemma unmount_cancels_timer_witness :
  let s := Scenario.armedState Scenario.unlocked in
  let w := Scenario.armedWorld TestDouble.server in
  let r := unmount s w in
  sessionInv s w /\
  timers (worldOf r) = [] /\
  stateOf (advance 86400000 (stateOf r) (worldOf r)) = s.
Proof.
  intros s w r.
  assert (Hinv : sessionInv s w).
  { split; [reflexivity|]. split; [|discriminate].
    intros _. split; [reflexivity|]. exists 1, 60000. repeat split. }
  split; [exact Hinv|].
  destruct (unmount_cancels_timer s w Hinv) as (_ & _ & Ht & _ & _ & Hadv).
  split; [exact Ht|]. fold r in Hadv. now rewrite Hadv.
Defined.

Section Signals.
Context {B K : Type} (c : Collab B K).

(** A signal before the timer is due replaces it by one due
    [AUTO_LOCK_TIME] after the signal. *)
Lemma activityAt_rearms (r : State K * World B * list Event) (due a : Z) :
  armed (stateOf r) (worldOf r) due ->
  sessionInv (stateOf r) (worldOf r) ->
  now (worldOf r) <= a < due ->
  armed (stateOf (activityAt c a r)) (worldOf (activityAt c a r))
        (a + AUTO_LOCK_TIME) /\
  sessionInv (stateOf (activityAt c a r)) (worldOf (activityAt c a r)) /\
  now (worldOf (activityAt c a r)) = a.
Proof.
  intros Harm Hinv [Ha1 Ha2].
  assert (Ewait : idleUntil c a r
                  = (stateOf r, withNow a (worldOf r), [])).
  { unfold idleUntil, step.
    rewrite (advance_before_due _ _ _ a Harm Ha2).
    now rewrite Z.max_r by lia. }
  pose proof (armed_withNow _ _ _ a Harm) as Harm0.
  assert (Hinv0 : sessionInv (stateOf r) (withNow a (worldOf r)))
    by exact Hinv.
  destruct (step_activity_armed c _ _ _ Harm0) as [Est Ewo].
  pose proof (handleActivity_rearms _ _ _ Harm0) as [Harm1 Hnow1].
  pose proof (step_sessionInv c Activity _ _ Hinv0) as Hinv1.
  unfold activityAt. rewrite Ewait.
  change (stateOf (stateOf r, withNow a (worldOf r), @nil Event))
    with (stateOf r).
  change (worldOf (stateOf r, withNow a (worldOf r), @nil Event))
    with (withNow a (worldOf r)).
  rewrite Est, Ewo. split; [exact Harm1|]. split; [|exact Hnow1].
  rewrite <- Est, <- Ewo. exact Hinv1.
Qed.

Lemma last_cons (l : list Z) (x d : Z) : last (x :: l) d = last l x.
Proof.
  revert x d. induction l as [|y l IH]; intros x d; [reflexivity|].
  change (last (x :: y :: l) d) with (last (y :: l) d).
  now rewrite (IH y d), (IH y x).
Qed.

Lemma activitiesAt_rearms (times : list Z)
  (r : State K * World B * list Event) (due : Z) :
  armed (stateOf r) (worldOf r) due ->
  sessionInv (stateOf r) (worldOf r) ->
  withinWindow (now (worldOf r)) due times ->
  armed (stateOf (activitiesAt c times r)) (worldOf (activitiesAt c times r))
        (finalDue due times).
Proof.
  revert r due. induction times as [|a rest IH]; intros r due Harm Hinv Hwin.
  - exact Harm.
  - destruct Hwin as [Ha Hrest]. simpl.
    destruct (activityAt_rearms r due a Harm Hinv Ha) as (Harm1 & Hinv1 & Hn).
    apply IH; [exact Harm1|exact Hinv1|]. now rewrite Hn.
Qed.
End Signals.

(** X15.  The debounce holds for any number of signals.  While the vault
    is unlocked and each mouse or keyboard signal comes before the timer
    started by the one before it is due, exactly one timer is pending after
    the last signal, due [AUTO_LOCK_TIME] after that signal (or, with no
    signal, when it was due); the session is unlocked at every time before
    that, and locked, with no key and no entry in the state, from that time
    on. *)
Theorem repeated_activity_debounce {B K : Type} (c : Collab B K)
  (s : State K) (w : World B) (due : Z) (times : list Z) :
  armed s w due ->
  (forall h d, In (h, d) (timers w) -> h < nextHandle w) ->
  withinWindow (now w) due times ->
  let r := activitiesAt c times (s, w, []) in
  finalDue due times = last (map (fun a => a + 60000) times) due /\
  (exists h, timeoutRef (stateOf r) = Some h /\
             timers (worldOf r) = [(h, finalDue due times)]) /\
  (forall t, t < finalDue due times ->
             vaultUnlocked (stateOf (idleUntil c t r)) = true) /\
  (forall t, finalDue due times <= t ->
             Locked (stateOf (idleUntil c t r))).
Proof.
  intros Harm Hfresh Hwin r.
  pose proof (armed_sessionInv s w due Harm Hfresh) as Hinv.
  pose proof (activitiesAt_rearms c times (s, w, []) due Harm Hinv Hwin)
    as Harm'.
  fold r in Harm'.
  split; [|split; [|split]].
  - clear. revert due. induction times as [|a rest IH]; intros due.
    + reflexivity.
    + simpl finalDue. rewrite IH. change AUTO_LOCK_TIME with 60000.
      simpl map. symmetry. apply last_cons.
  - destruct Harm' as (_ & _ & _ & h & _ & Href & Ht). now exists h.
  - intros t Hlt. unfold idleUntil, step.
    rewrite (advance_before_due _ _ _ t Harm' Hlt). apply Harm'.
  - intros t Hle. unfold idleUntil, step.
    destruct (advance_after_due _ _ _ t Harm' Hle)
      as (_ & _ & (Hv & Hk & Hc & _) & _).
    repeat split; assumption.
Qed.

(** The unlocked test session, timer due at 60 s, with signals at 30 s,
    80 s and 139 s: still unlocked at 198.999 s, locked at 199 s. *)
Lemma repeated_activity_debounce_witness :
  let s := Scenario.armedState Scenario.unlocked in
  let w := Scenario.armedWorld TestDouble.server in
  let r := activitiesAt TestDouble.collab [30000; 80000; 139000] (s, w, []) in
  (armed s w 60000 /\ withinWindow (now w) 60000 [30000; 80000; 139000]) /\
  vaultUnlocked (stateOf (idleUntil TestDouble.collab 198999 r)) = true /\
  Locked (stateOf (idleUntil TestDouble.collab 199000 r)).
Proof.
  intros s w r.
  assert (Harm : armed s w 60000).
  { split; [reflexivity|]. split; [reflexivity|]. split; [reflexivity|].
    exists 1. repeat split. }
  assert (Hfresh : forall h d, In (h, d) (timers w) -> h < nextHandle w).
  { intros h d [E|[]]. injection E as <- _. reflexivity. }
  assert (Hwin : withinWindow (now w) 60000 [30000; 80000; 139000]).
  { simpl. unfold AUTO_LOCK_TIME. lia. }
  split; [exact (conj Harm Hwin)|].
  destruct (repeated_activity_debounce TestDouble.collab s w 60000
              [30000; 80000; 139000] Harm Hfresh Hwin)
    as (_ & _ & Hidle & Hlock).
  split; [apply Hidle|apply Hlock]; simpl; unfold AUTO_LOCK_TIME; lia.
Defined.

Section Feedback.
Context {B K : Type} (c : Collab B K).

(** A handler that changed nothing of what the vault view shows and left
    message [m]: the view is the same after the render, and the message
    comes up on the lock screen when the timer locks the session. *)
Lemma silent_until_lock (i : Input) (s : State K) (w : World B) (due : Z)
  (m : string) :
  isAction i = true -> armed s w due ->
  (forall h d, In (h, d) (timers w) -> h < nextHandle w) ->
  render (stateOf (handlerOf c i s w)) = render s ->
  error (stateOf (handlerOf c i s w)) = m ->
  isUnlocking (stateOf (handlerOf c i s w)) = false ->
  m <> "" ->
  render (stateOf (step c i s w)) = render s /\
  forall t, due <= t ->
    render (stateOf (idleUntil c t (step c i s w)))
    = LockedScreen "" false "Unlock Vault" (Some m).
Proof.
  intros Hi Harm Hfresh Hrender Herr Hbusy Hm.
  pose proof (armed_sessionInv s w due Harm Hfresh) as Hinv.
  assert (Hnw : forall t, i <> WaitUntil t) by (intros t ->; discriminate).
  destruct (step_handler c i s w Hnw) as [Est Ewo].
  pose proof (handlerOf_neutral c i s w Hi) as Hneu.
  pose proof (commit_after_neutral s w _ Hinv Hneu) as (_ & _ & Hst).
  pose proof (commit_neutral_world s w _ Hinv Hneu) as (_ & Hun & _).
  cbv zeta in Hst, Hun. rewrite <- Est in Hst. rewrite <- Est, <- Ewo in Hun.
  destruct (Hun (proj1 Harm)) as (Ht & Href & Hlis & Hv).
  pose proof (step_sessionInv c i s w Hinv) as (Hn' & _).
  assert (Harm' : armed (stateOf (step c i s w)) (worldOf (step c i s w)) due).
  { destruct Harm as (_ & Hl & _ & h & Hh & Hr & Htm).
    split; [exact Hv|]. split; [congruence|]. split; [exact Hn'|].
    exists h. split; [exact Hh|]. split; congruence. }
  split.
  - rewrite Hst. exact Hrender.
  - intros t Hle. unfold idleUntil.
    set (r := step c i s w) in *.
    change (step c (WaitUntil t) (stateOf r) (worldOf r))
      with (advance t (stateOf r) (worldOf r)).
    destruct (advance_after_due _ _ due t Harm' Hle)
      as (_ & _ & (Hv' & _ & _ & _ & _ & Hpw) & _).
    destruct (advance_after_due_flags _ _ due t Harm' Hle)
      as (Hu & _ & _ & He).
    fold (stateOf (advance t (stateOf r) (worldOf r))) in Hv', Hpw.
    unfold render. rewrite Hv', Hpw, Hu, He, Hst. simpl.
    rewrite Hbusy, Herr. apply String.eqb_neq in Hm. now rewrite Hm.
Qed.
End Feedback.

(** X16.  A failed add, update or delete gives no feedback in the vault
    view.  With the vault unlocked and no operation in progress, when the
    [try] block of the add handler, of the edit form's submit handler or of
    the delete handler throws, what the component renders after the handler
    is what it rendered before: the message the handler stored in [error]
    is not shown there.  [lockVault] does not clear it, so it comes up on
    the lock screen, under an empty password box, once the timer locks the
    session. *)
Theorem failed_mutation_is_silent_until_lock {B K : Type} (c : Collab B K)
  (s : State K) (w : World B) (due : Z) (k : K) :
  armed s w due ->
  (forall h d, In (h, d) (timers w) -> h < nextHandle w) ->
  idle s -> aesKey s = Some k ->
  let silent (i : Input) (m : string) :=
    render (stateOf (step c i s w)) = render s /\
    forall t, due <= t ->
      render (stateOf (idleUntil c t (step c i s w)))
      = LockedScreen "" false "Unlock Vault" (Some m) in
  (forall e, fst (fst (addTry c k (newEntry s) w)) = Throw e ->
             silent SubmitAdd "Failed to add entry.") /\
  (forall e, fst (fst (updateTry c k (editingEntry s) w)) = Throw e ->
             silent SubmitUpdate "Failed to update entry.") /\
  (forall entryId e,
     fst (deleteEntry c entryId (backend w)) = Throw e ->
     silent (ClickDelete entryId true) "Failed to delete entry.").
Proof.
  intros Harm Hfresh (Hu & Ha & Hp) Hk silent. unfold silent.
  pose proof (proj1 Harm) as Hv.
  split; [|split].
  - intros e He.
    apply (silent_until_lock c SubmitAdd s w due);
      [reflexivity|exact Harm|exact Hfresh| | | |discriminate];
      unfold handlerOf; rewrite (handleAddEntry_failed c s s w k e Hk He);
      unfold stateOf; simpl; auto.
    unfold render. simpl. now rewrite Hv, Ha.
  - intros e He.
    apply (silent_until_lock c SubmitUpdate s w due);
      [reflexivity|exact Harm|exact Hfresh| | | |discriminate];
      unfold handlerOf; rewrite (handleUpdateEntry_failed c s s w k e Hk He);
      unfold stateOf; simpl; auto.
    unfold render. simpl. now rewrite Hv, Hp.
  - intros entryId e He.
    assert (Ed : handleDelete c entryId true s s w
                 = (setError msgDeleteFailed s,
                    withBackend (snd (deleteEntry c entryId (backend w))) w,
                    [EvConfirm true; EvDeleteEntry entryId (Throw e);
                     EvConsoleError e])).
    { unfold handleDelete, callB. simpl.
      destruct (deleteEntry c entryId (backend w)) as [ra b1].
      simpl in He. subst ra. reflexivity. }
    apply (silent_until_lock c (ClickDelete entryId true) s w due);
      [reflexivity|exact Harm|exact Hfresh| | | |discriminate];
      unfold handlerOf; rewrite Ed; unfold stateOf; simpl; auto.
    unfold render. simpl. now rewrite Hv.
Qed.

(** The unlocked test session with a draft in the add form and the server
    unreachable: the add fails, the view is the same, and the message is on
    the lock screen at 60 s. *)
Lemma failed_mutation_is_silent_until_lock_witness :
  let s := Scenario.armedState Scenario.drafting in
  let w := Scenario.armedWorld Scenario.offline in
  let r := step TestDouble.collab SubmitAdd s w in
  (armed s w 60000 /\ idle s /\ aesKey s = Some "aes:correct-horse") /\
  render (stateOf r) = render s /\
  render (stateOf (idleUntil TestDouble.collab 60000 r))
  = LockedScreen "" false "Unlock Vault" (Some "Failed to add entry.").
Proof.
  intros s w r.
  assert (Harm : armed s w 60000).
  { split; [reflexivity|]. split; [reflexivity|]. split; [reflexivity|].
    exists 1. repeat split. }
  assert (Hfresh : forall h d, In (h, d) (timers w) -> h < nextHandle w).
  { intros h d [E|[]]. injection E as <- _. reflexivity. }
  assert (Hidle : idle s) by (repeat split).
  split; [exact (conj Harm (conj Hidle eq_refl))|].
  destruct (proj1 (failed_mutation_is_silent_until_lock TestDouble.collab s w
                     60000 "aes:correct-horse" Harm Hfresh Hidle eq_refl)
              (Error "Network Error") eq_refl) as [Hsame Hlock].
  split; [exact Hsame|]. apply Hlock. lia.
Defined.

(** X17.  The Edit button of a row opens the edit form prefilled with
    exactly what the row shows: the argument the button passes to
    [handleEdit] is one of the decrypted entries of the state, the four
    fields of the form are the four cells of the row, the table is the
    same, and the id the row's Delete button passes on is the id of that
    same stored entry. *)
Theorem edit_opens_prefilled {K : Type} (s : State K) (spinner : bool)
  (rows : list CredentialRow) (add ed : option FormView)
  (row : CredentialRow) :
  render s = VaultScreen spinner (Rows rows) add ed ->
  In row rows ->
  In (editArgument row) (credentials s) /\
  deleteArgument row = _id (entry (editArgument row)) /\
  render (setEditingEntry (Some (editArgument row)) s)
  = VaultScreen spinner (Rows rows) add
      (Some (mkFormView (isUpdating s)
               (cellWebsite row) (cellUsername row) (cellPassword row)
               (cellNotes row) (isUpdating s)
               (if isUpdating s then "Saving..." else "Save Changes"))).
Proof.
  unfold render. destruct (vaultUnlocked s) eqn:Ev; simpl; [|discriminate].
  rewrite Ev. simpl.
  intros H Hin. injection H as <- Hbody <- _.
  destruct (credentials s) as [|d l] eqn:Ec; [discriminate|].
  injection Hbody as <-.
  change (renderRow d :: map renderRow l) with (map renderRow (d :: l)) in Hin.
  apply in_map_iff in Hin. destruct Hin as (cred & <- & Hin).
  split; [exact Hin|]. split; reflexivity.
Qed.

(** The unlocked test session: the one row, of the stored record [e1]. *)
Lemma edit_opens_prefilled_witness :
  let s := Scenario.unlocked in
  let row := renderRow (mkDecryptedEntry TestDouble.aliceEntry "example.com"
                          "alice" "p@ss" "") in
  (render s = VaultScreen false (Rows [row]) None None /\ In row [row]) /\
  deleteArgument row = "e1" /\
  render (setEditingEntry (Some (editArgument row)) s)
  = VaultScreen false (Rows [row]) None
      (Some (mkFormView false "example.com" "alice" "p@ss" "" false
               "Save Changes")).
Proof.
  intros s row.
  assert (Hr : render s = VaultScreen false (Rows [row]) None None)
    by reflexivity.
  assert (Hin : In row [row]) by (left; reflexivity).
  split; [exact (conj Hr Hin)|].
  destruct (edit_opens_prefilled s false [row] None None row Hr Hin)
    as (_ & Hd & He).
  split; [reflexivity|exact He].
Defined.

(** X18.  The navigation bar.  The Dashboard link is shown only together
    with the Signout button, and the button exactly when the user is logged
    in and the path is [/dashboard] or [/dashboard/credential-vault].
    [handleSignout] calls [signout] once; when that succeeds the user is
    logged out, [user] is cleared and the bar navigates to [/], where
    neither element is shown; when it throws, nothing of the auth context
    changes, the bar does not navigate, and the elements shown are those
    shown before. *)
Theorem signout_hides_session_controls {S : Type}
  (signout : S -> res unit * S) (a : Navbar.Auth) (srv : S) :
  let r := Navbar.handleSignout signout a srv in
  (Navbar.showsDashboardLink a = true -> Navbar.showsSignoutButton a = true) /\
  (Navbar.showsSignoutButton a = true <->
   Navbar.isLoggedIn a = true /\
   (Navbar.pathname a = "/dashboard" \/
    Navbar.pathname a = "/dashboard/credential-vault")) /\
  snd (fst r) = snd (signout srv) /\
  match fst (signout srv) with
  | Ok _ =>
      Navbar.isLoggedIn (fst (fst r)) = false /\
      Navbar.user (fst (fst r)) = None /\
      Navbar.showsDashboardLink (fst (fst r)) = false /\
      Navbar.showsSignoutButton (fst (fst r)) = false /\
      snd r = [Navbar.EvSignout (Ok tt); Navbar.EvNavigate "/"]
  | Throw e =>
      fst (fst r) = a /\
      snd r = [Navbar.EvSignout (Throw e); Navbar.EvSignoutFailed e]
  end.
Proof.
  intros r. unfold r, Navbar.handleSignout, Navbar.showsDashboardLink,
    Navbar.showsSignoutButton, Navbar.isDashboard, Navbar.isVault.
  split; [|split; [|split]].
  - intros H. apply andb_prop in H. destruct H as [-> ->].
    now rewrite orb_true_r.
  - rewrite andb_true_iff, orb_true_iff, !String.eqb_eq. reflexivity.
  - destruct (signout srv) as [[u|e] srv']; reflexivity.
  - destruct (signout srv) as [[u|e] srv']; simpl; repeat split.
Qed.

(** ** A refresh that outlives the lock *)

(** X19.  Locking does not stop a handler in flight.  When the session is
    locked while a run of [handleUnlock] (an unlock attempt, or the refresh
    after an add, an update or a delete) is suspended at its last [await],
    and the decryption then succeeds, lines 138-140 apply to the locked
    state: the session is unlocked again, with the key and the entries of
    that run, the password box as [lockVault] left it, and the effect arms
    a new timer one [AUTO_LOCK_TIME] ahead. *)
Theorem late_refresh_reopens_vault {B K : Type} (c : Collab B K)
  (y : Sys B K) (n : nat) (aesK : K) (encrypted : VaultResponse)
  (ds : list DecryptedEntry) (w1 : World B) (l1 : list Event) :
  sessionInv (comp y) (world y) ->
  vaultUnlocked (comp y) = false ->
  nth_error (pending y) n = Some (unlockDecrypting c aesK encrypted) ->
  promiseAllMap (decryptEntry c aesK) (data encrypted) (world y)
  = (Ok ds, w1, l1) ->
  let y' := fst (irun c [Answer n; Resume n] y) in
  vaultUnlocked (comp y') = true /\
  aesKey (comp y') = Some aesK /\
  credentials (comp y') = ds /\
  masterPassword (comp y') = masterPassword (comp y) /\
  armed (comp y') (world y') (now (world y) + AUTO_LOCK_TIME).
Proof.
  intros Hinv Hlocked Hn Hdec y'.
  destruct (decryptAll_run c aesK (data encrypted) (world y))
    as (r & tr & E & _).
  rewrite Hdec in E. injection E as _ Hw _. subst w1.
  set (y1 := mkSys (comp y) (world y)
               (firstn n (pending y) ++ unlockCommit aesK ds
                  :: skipn (S n) (pending y))).
  assert (E1 : istep c (Answer n) y = (y1, l1)).
  { unfold istep. rewrite Hn. unfold unlockDecrypting, awaitTry.
    rewrite Hdec. reflexivity. }
  assert (E2 : istep c (Resume n) y1
               = resume (unlockCommit aesK ds) (removeNth n (pending y1)) y1).
  { unfold istep.
    change (pending y1)
      with (firstn n (pending y) ++ unlockCommit (B := B) aesK ds
              :: skipn (S n) (pending y)).
    now rewrite (nth_error_replaced _ _ _ (unlockCommit aesK ds) Hn). }
  assert (Hcalm : calm (unlockCommit (B := B) aesK ds))
    by (unfold unlockCommit; repeat calm_step).
  destruct (resume_shape (unlockCommit aesK ds) (removeNth n (pending y1)) y1
              Hinv Hcalm)
    as (_ & Hc & _ & _ & _ & Hlk).
  unfold y', irun. rewrite E1, E2.
  destruct (resume (unlockCommit aesK ds) (removeNth n (pending y1)) y1)
    as [y2 l2].
  cbn [fst] in *. cbn [runSync unlockCommit fst snd comp world] in Hc, Hlk.
  assert (Hu : vaultUnlocked (comp y2) = true) by now rewrite Hc.
  split; [exact Hu|]. split; [now rewrite Hc|]. split; [now rewrite Hc|].
  split; [now rewrite Hc|]. exact (Hlk Hlocked Hu).
Qed.

(** The test session locked by the timer at 60 s while the refresh of an
    add was waiting for the decryption: the refresh completes and the vault
    is open again, two entries shown, the password box empty, a new timer
    due at 120 s. *)
Lemma late_refresh_reopens_vault_witness :
  let y := Scenario.lockedMidRefresh in
  let y' := fst (irun TestDouble.collab [Answer 0; Resume 0] y) in
  (sessionInv (comp y) (world y) /\ vaultUnlocked (comp y) = false /\
   aesKey (comp y) = None) /\
  vaultUnlocked (comp y') = true /\
  masterPassword (comp y') = "" /\
  length (credentials (comp y')) = 2%nat /\
  timers (world y') = [(2, 120000)].
Proof.
  intros y y'.
  assert (Hinv : sessionInv (comp y) (world y)).
  { split; [vm_compute; reflexivity|]. split.
    - intros H. vm_compute in H. discriminate H.
    - intros _. split; vm_compute; reflexivity. }
  assert (Hl : vaultUnlocked (comp y) = false) by (vm_compute; reflexivity).
  split; [split; [exact Hinv|split; [exact Hl|vm_compute; reflexivity]]|].
  set (enc := mkVaultResponse (TestDouble.stored (backend (world y)))).
  set (P := promiseAllMap (decryptEntry TestDouble.collab "aes:correct-horse")
              (data enc) (world y)).
  assert (Hn : nth_error (pending y) 0
               = Some (unlockDecrypting TestDouble.collab "aes:correct-horse"
                         enc))
    by (vm_compute; reflexivity).
  assert (Hd : P = (Ok match fst (fst P) with Ok ds => ds | Throw _ => [] end,
                    snd (fst P), snd P))
    by (vm_compute; reflexivity).
  destruct (late_refresh_reopens_vault TestDouble.collab y 0
              "aes:correct-horse" enc
              match fst (fst P) with Ok ds => ds | Throw _ => [] end
              (snd (fst P)) (snd P) Hinv Hl Hn Hd)
    as (Hu & _ & _ & Hpw & _).
  split; [exact Hu|].
  split; [exact (eq_trans Hpw ltac:(vm_compute; reflexivity))|].
  split; vm_compute; reflexivity.
Defined.
